(** * ai-metadata-enricher: validation gate and change detection

    A shallow embedding of
    - [src/domain/validation/structural_validator.py],
    - [src/domain/validation/semantic_validator.py],
    - [src/domain/validation/validator.py], [result.py],
    - [src/domain/change_detection/decision.py], [normalizer.py], [hasher.py],
    followed by the properties of the specification that were settled on it.

    Conventions.
    - A Python [str] is a Rocq [string]; a character stands for the code
      point of the same number, so texts range over code points 0..255.
      The character classes below ([isspace], [is_linebreak], [is_word],
      [lower_char]) are Python's, restricted to that range.
    - A Python value of type [Any] is a [pyvalue]; floats and booleans are
      not represented.
    - A [dict] is an association list in insertion order with unique keys.
    - A function that can raise returns a [result]. *)

From Stdlib Require Import String Ascii List Bool Arith ZArith Lia.
From Stdlib Require Import Permutation Sorted RelationClasses DecimalString.
Import ListNotations.
Open Scope string_scope.
Open Scope list_scope.

Set Warnings "-register-all".

Infix "+++" := String.append (at level 60, right associativity).

(* ================================================================= *)
(** ** Python strings *)

Definition nl : string := String "010"%char "".
Definition cr : string := String "013"%char "".
Definition dq : string := String "034"%char "".
Definition sq : string := String "039"%char "".

(** [str.isspace] on one character. *)
Definition isspace (c : ascii) : bool :=
  let n := nat_of_ascii c in
  (((9 <=? n) && (n <=? 13)) || ((28 <=? n) && (n <=? 32))
   || (n =? 133) || (n =? 160))%nat.

(** The characters at which [str.splitlines] breaks a line. *)
Definition is_linebreak (c : ascii) : bool :=
  let n := nat_of_ascii c in
  (((10 <=? n) && (n <=? 13)) || ((28 <=? n) && (n <=? 30)) || (n =? 133))%nat.

(** [s.splitlines()]: a carriage return followed by a line feed is one
    break; the text after the last break is a line only when it is not
    empty. *)
Fixpoint splitlines (s : string) : list string :=
  match s with
  | EmptyString => []
  | String c s' =>
      if Ascii.eqb c "013" then
        "" :: splitlines (match s' with
                          | String c' s'' => if Ascii.eqb c' "010" then s'' else s'
                          | EmptyString => s'
                          end)
      else if is_linebreak c then "" :: splitlines s'
      else match splitlines s' with
           | [] => [String c ""]
           | l :: ls => String c l :: ls
           end
  end.

Fixpoint lstrip (s : string) : string :=
  match s with
  | String c s' => if isspace c then lstrip s' else s
  | EmptyString => EmptyString
  end.

(** [s.rstrip(chars)] with the set of characters given as a predicate. *)
Fixpoint rstrip_by (p : ascii -> bool) (s : string) : string :=
  match s with
  | EmptyString => EmptyString
  | String c s' =>
      match rstrip_by p s' with
      | EmptyString => if p c then EmptyString else String c EmptyString
      | t => String c t
      end
  end.

Definition rstrip (s : string) : string := rstrip_by isspace s.

Definition strip (s : string) : string := rstrip (lstrip s).

Fixpoint char_in (c : ascii) (chars : string) : bool :=
  match chars with
  | EmptyString => false
  | String a t => Ascii.eqb a c || char_in c t
  end.

Definition rstrip_chars (chars s : string) : string :=
  rstrip_by (fun c => char_in c chars) s.

(** [s.startswith(p)] *)
Fixpoint startswith (s p : string) {struct p} : bool :=
  match p with
  | EmptyString => true
  | String a p' =>
      match s with
      | String b s' => Ascii.eqb a b && startswith s' p'
      | EmptyString => false
      end
  end.

Definition endswith (s p : string) : bool :=
  (String.length p <=? String.length s)%nat
  && String.eqb (substring (String.length s - String.length p) (String.length p) s) p.

(** [sub in s] for a one-character [sub]. *)
Definition str_in (sub : ascii) (s : string) : bool := char_in sub s.

(** [s.partition(sep)] for a one-character separator. *)
Fixpoint partition (sep : ascii) (s : string) : string * string * string :=
  match s with
  | EmptyString => ("", "", "")
  | String c s' =>
      if Ascii.eqb c sep then ("", String sep "", s')
      else let '(h, m, t) := partition sep s' in (String c h, m, t)
  end.

(** [s.split(sep, 1)[0]] for a one-character separator. *)
Fixpoint split1_head (sep : ascii) (s : string) : string :=
  match s with
  | EmptyString => ""
  | String c s' => if Ascii.eqb c sep then "" else String c (split1_head sep s')
  end.

(** [s[n:]] *)
Fixpoint slice_from (n : nat) (s : string) : string :=
  match n, s with
  | O, _ => s
  | S n', String _ s' => slice_from n' s'
  | S _, EmptyString => EmptyString
  end.

(** [s[1:-1]] *)
Definition slice_1_m1 (s : string) : string :=
  substring 1 (String.length s - 2) s.

(** [str(n)] for a non-negative integer. *)
Definition str_of_nat (n : nat) : string :=
  NilEmpty.string_of_uint (Nat.to_uint n).

Definition is_empty {A : Type} (l : list A) : bool :=
  match l with [] => true | _ => false end.

(* ================================================================= *)
(** ** Python values, dictionaries, exceptions *)

Inductive pyvalue : Type :=
| PNone
| PInt (z : Z)
| PStr (s : string)
| PList (l : list pyvalue)
| PDict (d : list (string * pyvalue)).

Definition dict : Type := list (string * pyvalue).

Definition isinstance_str (v : pyvalue) : bool :=
  match v with PStr _ => true | _ => false end.

Definition isinstance_list (v : pyvalue) : bool :=
  match v with PList _ => true | _ => false end.

Definition isinstance_dict (v : pyvalue) : bool :=
  match v with PDict _ => true | _ => false end.

(** [d.get(k)] *)
Fixpoint dict_get (k : string) (d : dict) : option pyvalue :=
  match d with
  | [] => None
  | (k', v) :: d' => if String.eqb k' k then Some v else dict_get k d'
  end.

(** [k in d] *)
Definition dict_mem (k : string) (d : dict) : bool :=
  match dict_get k d with Some _ => true | None => false end.

(** [d[k] = v]: an existing key keeps its place, a new key goes last. *)
Fixpoint dict_set (k : string) (v : pyvalue) (d : dict) : dict :=
  match d with
  | [] => [(k, v)]
  | (k', v') :: d' =>
      if String.eqb k' k then (k', v) :: d' else (k', v') :: dict_set k v d'
  end.

Definition dict_keys (d : dict) : list string := map fst d.

Inductive exn : Type := TypeError | ValueError | AttributeError.

Inductive result (A : Type) : Type :=
| Ok (a : A)
| Raise (e : exn).
Arguments Ok {A} a.
Arguments Raise {A} e.

Definition bind {A B : Type} (c : result A) (k : A -> result B) : result B :=
  match c with
  | Ok a => k a
  | Raise e => Raise e
  end.

Notation "x <- c ;; k" := (bind c (fun x => k))
  (at level 61, c at next level, right associativity).

(* ================================================================= *)
(** ** result.py *)

Record ValidationResult : Type := mkResult {
  is_valid : bool;
  structural_errors : list string;
  semantic_errors : list string
}.

(** [ValidationResult.invalid(structural=..., semantic=...)] *)
Definition invalid (structural semantic : list string) : ValidationResult :=
  mkResult false structural semantic.

(** [ValidationResult.valid()] *)
Definition valid : ValidationResult := mkResult true [] [].

(* ================================================================= *)
(** ** structural_validator.py *)

Definition EXPECTED_ORDER : list string :=
  ["suggested_description"; "confidence"; "used_sources"; "warnings"].

Definition REQUIRED_FIELDS : list string :=
  ["suggested_description"; "confidence"; "used_sources"].

Definition OPTIONAL_FIELDS : list string := ["warnings"].

Definition str_mem (k : string) (l : list string) : bool :=
  existsb (String.eqb k) l.

(** The two list comprehensions at the head of [_parse_yaml_subset]. *)
Definition parser_lines (yaml_text : string) : list string :=
  filter (fun ln => negb (String.eqb (strip ln) ""))
         (map (rstrip_chars (cr +++ nl)) (splitlines yaml_text)).

Definition msg_unexpected_format (ln : string) : string :=
  "Unexpected line format: '" +++ ln +++ "'".

Definition msg_duplicate (key : string) : string :=
  "Duplicate key '" +++ key +++ "'".

Definition msg_bad_item (nxt : string) : string :=
  "Invalid array item format: '" +++ nxt +++ "'".

Definition msg_comments : string := "Comments are not allowed in YAML output".

(** The condition under which the parser refuses a line as a top-level key. *)
Definition not_top_level (ln : string) : bool :=
  startswith ln " " || negb (str_in ":" ln).

(** Surrounding quotes of a scalar are removed. *)
Definition unquote (scalar : string) : string :=
  if (startswith scalar dq && endswith scalar dq)
     || (startswith scalar sq && endswith scalar sq)
  then slice_1_m1 scalar else scalar.

(** [items if items else None] *)
Definition items_or_none (items : list string) : pyvalue :=
  if is_empty items then PNone else PList (map PStr items).

Record pstate : Type := mkState {
  parsed : dict;
  errors : list string;
  seen_keys : list string
}.

(** The [while i < n] loop of [_parse_yaml_subset]; the inner [fix] is the
    [while j < n] look-ahead, which hands the first line it does not take
    back to the outer loop ([i = j]). *)
Fixpoint parse_loop (lines : list string) (st : pstate) {struct lines} : pstate :=
  match lines with
  | [] => st
  | ln :: rest =>
      if not_top_level ln then
        parse_loop rest
          (mkState (parsed st) (errors st ++ [msg_unexpected_format ln]) (seen_keys st))
      else
        let '(key0, _, rest_of_line) := partition ":" ln in
        let key := strip key0 in
        let value := strip rest_of_line in
        let errs :=
          if dict_mem key (parsed st) then errors st ++ [msg_duplicate key]
          else errors st in
        let seen := seen_keys st ++ [key] in
        if String.eqb value "[]" then
          parse_loop rest (mkState (dict_set key (PList []) (parsed st)) errs seen)
        else if String.eqb value "" then
          (fix collect (l : list string) (items errs : list string) {struct l} : pstate :=
             match l with
             | [] => mkState (dict_set key (items_or_none items) (parsed st)) errs seen
             | nxt :: tl =>
                 let stripped := lstrip nxt in
                 if startswith stripped "-" && negb (startswith stripped "- ") then
                   collect tl items (errs ++ [msg_bad_item nxt])
                 else if startswith stripped "- " then
                   collect tl (items ++ [strip (slice_from 2 stripped)]) errs
                 else
                   parse_loop l
                     (mkState (dict_set key (items_or_none items) (parsed st)) errs seen)
             end) rest [] errs
        else
          parse_loop rest (mkState (dict_set key (PStr (unquote value)) (parsed st)) errs seen)
  end.

Definition _parse_yaml_subset (yaml_text : option string) : dict * list string :=
  match yaml_text with
  | None => ([], ["Input is None"])
  | Some text =>
      let lines := parser_lines text in
      let errors0 :=
        if existsb (fun ln => startswith (strip ln) "#") lines
        then [msg_comments] else [] in
      let st := parse_loop lines (mkState [] errors0 []) in
      (parsed st, errors st)
  end.

Definition msg_unknown_field (k : string) : string :=
  "Unknown field '" +++ k +++ "' not permitted by contract".

Definition msg_missing_field (k : string) : string :=
  "Missing required field '" +++ k +++ "'".

Definition msg_used_sources_item (idx : nat) : string :=
  "used_sources[" +++ str_of_nat idx +++ "] must be a non-empty string".

Definition msg_warnings_item (idx : nat) : string :=
  "warnings[" +++ str_of_nat idx +++ "] must be a string".

Definition msg_non_key_line (ln : string) : string :=
  "Unexpected non-key line: '" +++ ln +++ "'".

Definition msg_order : string :=
  "Field order must be: suggested_description, confidence, used_sources, warnings".

(** [for k in parsed.keys(): if k not in REQUIRED_FIELDS and k not in OPTIONAL_FIELDS] *)
Definition unknown_field_errors (parsed : dict) : list string :=
  map msg_unknown_field
      (filter (fun k => negb (str_mem k REQUIRED_FIELDS) && negb (str_mem k OPTIONAL_FIELDS))
              (dict_keys parsed)).

(** [for k in REQUIRED_FIELDS: if k not in parsed] *)
Definition missing_field_errors (parsed : dict) : list string :=
  map msg_missing_field (filter (fun k => negb (dict_mem k parsed)) REQUIRED_FIELDS).

(** [not isinstance(item, str) or item.strip() == ""] *)
Definition not_nonblank_str (item : pyvalue) : bool :=
  match item with
  | PStr s => String.eqb (strip s) ""
  | _ => true
  end.

(** [for idx, item in enumerate(val)] over [used_sources] *)
Fixpoint used_sources_item_errors (idx : nat) (val : list pyvalue) : list string :=
  match val with
  | [] => []
  | item :: tl =>
      (if not_nonblank_str item then [msg_used_sources_item idx] else [])
        ++ used_sources_item_errors (S idx) tl
  end.

(** [for idx, item in enumerate(val)] over [warnings] *)
Fixpoint warnings_item_errors (idx : nat) (val : list pyvalue) : list string :=
  match val with
  | [] => []
  | item :: tl =>
      (if negb (isinstance_str item) then [msg_warnings_item idx] else [])
        ++ warnings_item_errors (S idx) tl
  end.

(** The four blocks under the comment [# Types]. *)
Definition type_errors (parsed : dict) : list string :=
  (match dict_get "suggested_description" parsed with
   | Some v => if negb (isinstance_str v)
               then ["Field 'suggested_description' must be a string"] else []
   | None => []
   end)
  ++ (match dict_get "confidence" parsed with
      | Some v => if negb (isinstance_str v)
                  then ["Field 'confidence' must be a string"] else []
      | None => []
      end)
  ++ (match dict_get "used_sources" parsed with
      | Some (PList val) =>
          (if (List.length val =? 0)%nat
           then ["Field 'used_sources' must contain at least one item"] else [])
            ++ used_sources_item_errors 0 val
      | Some _ => ["Field 'used_sources' must be a non-empty array"]
      | None => []
      end)
  ++ (match dict_get "warnings" parsed with
      | Some (PList val) => warnings_item_errors 0 val
      | Some _ => ["Field 'warnings' must be an array when present"]
      | None => []
      end).

(** The list comprehension under [# Ordering]. *)
Definition order_lines (yaml_text : string) : list string :=
  map (rstrip_chars (cr +++ nl))
      (filter (fun ln => negb (String.eqb (strip ln) "")) (splitlines yaml_text)).

(** The [for ln in lines] loop that rebuilds [seen_order]; it also appends
    to [errors]. *)
Fixpoint order_scan (lines : list string) (seen_order errors : list string)
  : list string * list string :=
  match lines with
  | [] => (seen_order, errors)
  | ln :: rest =>
      if startswith ln " " || negb (str_in ":" ln) then
        if startswith (lstrip ln) "- " then order_scan rest seen_order errors
        else if negb (startswith (lstrip ln) "- ") && negb (startswith (strip ln) "#")
        then order_scan rest seen_order (errors ++ [msg_non_key_line ln])
        else order_scan rest seen_order errors
      else
        order_scan rest (seen_order ++ [strip (split1_head ":" ln)]) errors
  end.

Definition list_str_eqb (l1 l2 : list string) : bool :=
  if list_eq_dec string_dec l1 l2 then true else false.

(** [[k for k in EXPECTED_ORDER if k in parsed]] *)
Definition expected_seq (parsed : dict) : list string :=
  filter (fun k => dict_mem k parsed) EXPECTED_ORDER.

Definition validate_structural (yaml_text : option string) : result ValidationResult :=
  let '(parsed, parse_errors) := _parse_yaml_subset yaml_text in
  let errors := parse_errors in
  let errors := errors ++ unknown_field_errors parsed in
  let errors := errors ++ missing_field_errors parsed in
  let errors := errors ++ type_errors parsed in
  match yaml_text with
  | None => Raise AttributeError   (* [None.splitlines()] *)
  | Some text =>
      let lines := order_lines text in
      let '(seen_order, errors) := order_scan lines [] errors in
      let errors :=
        if negb (list_str_eqb seen_order (expected_seq parsed))
        then errors ++ [msg_order] else errors in
      Ok (if negb (is_empty errors) then invalid errors [] else valid)
  end.

(* ================================================================= *)
(** ** Regular expressions of semantic_validator.py

    The patterns of the module use literals, [\s], [\b], [^], [$],
    alternation, [?] on a group and [*], [+] on [\s].  They are compiled
    with [re.IGNORECASE] only, and [re.search] is asked whether a match
    exists. *)

Inductive atom : Type :=
| ALit (c : ascii)     (* a literal character, compared ignoring case *)
| ASpace.              (* \s *)

Inductive regex : Type :=
| Eps
| At (a : atom)
| WordB                (* \b *)
| Bol                  (* ^ *)
| Eol                  (* $ *)
| Seq (r1 r2 : regex)
| Alt (r1 r2 : regex)
| Star (a : atom)
| Plus (a : atom)
| Opt (r : regex).

(** [str.lower] on one character. *)
Definition lower_char (c : ascii) : ascii :=
  let n := nat_of_ascii c in
  if (((65 <=? n) && (n <=? 90))
      || ((192 <=? n) && (n <=? 222) && negb (n =? 215)))%nat
  then ascii_of_nat (n + 32) else c.

(** The characters matched by [\w]. *)
Definition is_word (c : ascii) : bool :=
  let n := nat_of_ascii c in
  (((48 <=? n) && (n <=? 57)) || ((65 <=? n) && (n <=? 90)) || (n =? 95)
   || ((97 <=? n) && (n <=? 122))
   || (n =? 170) || (n =? 178) || (n =? 179) || (n =? 181) || (n =? 185) || (n =? 186)
   || ((188 <=? n) && (n <=? 190))
   || ((192 <=? n) && (n <=? 214)) || ((216 <=? n) && (n <=? 246))
   || ((248 <=? n) && (n <=? 255)))%nat.

Definition atom_match (a : atom) (c : ascii) : bool :=
  match a with
  | ALit p => Ascii.eqb (lower_char p) (lower_char c)
  | ASpace => isspace c
  end.

Definition is_word_opt (c : option ascii) : bool :=
  match c with Some a => is_word a | None => false end.

Definition head_char (s : string) : option ascii :=
  match s with String c _ => Some c | EmptyString => None end.

(** [\b]: exactly one of the characters around the position is a word
    character. *)
Definition word_boundary (prev : option ascii) (s : string) : bool :=
  xorb (is_word_opt prev) (is_word_opt (head_char s)).

(** [$] without [re.MULTILINE]: the end, or just before a final line feed. *)
Definition at_end (s : string) : bool :=
  String.eqb s "" || String.eqb s nl.

Fixpoint star_match (a : atom) (s : string) (prev : option ascii)
         (k : option ascii -> string -> bool) : bool :=
  match s with
  | String c s' => (atom_match a c && star_match a s' (Some c) k) || k prev s
  | EmptyString => k prev s
  end.

(** A backtracking matcher: [prev] is the character before the position,
    [s] the text from the position on, [k] what has to match afterwards. *)
Fixpoint rmatch (r : regex) (prev : option ascii) (s : string)
         (k : option ascii -> string -> bool) {struct r} : bool :=
  match r with
  | Eps => k prev s
  | At a =>
      match s with
      | String c s' => atom_match a c && k (Some c) s'
      | EmptyString => false
      end
  | WordB => word_boundary prev s && k prev s
  | Bol => match prev with None => k prev s | Some _ => false end
  | Eol => at_end s && k prev s
  | Seq r1 r2 => rmatch r1 prev s (fun p t => rmatch r2 p t k)
  | Alt r1 r2 => rmatch r1 prev s k || rmatch r2 prev s k
  | Star a => star_match a s prev k
  | Plus a =>
      match s with
      | String c s' => atom_match a c && star_match a s' (Some c) k
      | EmptyString => false
      end
  | Opt r' => rmatch r' prev s k || k prev s
  end.

Fixpoint search_from (r : regex) (prev : option ascii) (s : string) : bool :=
  rmatch r prev s (fun _ _ => true)
  || match s with
     | String c s' => search_from r (Some c) s'
     | EmptyString => false
     end.

(** [re.search(pat, s, flags=re.IGNORECASE) is not None] *)
Definition re_search (r : regex) (s : string) : bool := search_from r None s.

Fixpoint lits (w : string) : regex :=
  match w with
  | EmptyString => Eps
  | String c w' => Seq (At (ALit c)) (lits w')
  end.

Fixpoint seqs (rs : list regex) : regex :=
  match rs with
  | [] => Eps
  | r :: rs' => Seq r (seqs rs')
  end.

(** [\bW\b] *)
Definition word_pat (w : string) : regex := seqs [WordB; lits w; WordB].

(* ================================================================= *)
(** ** semantic_validator.py *)

Definition FORBIDDEN_PHRASES : list regex :=
  [ word_pat "LLM";
    word_pat "prompt";
    word_pat "pipeline";
    word_pat "system";
    word_pat "model";
    word_pat "AI";
    word_pat "ChatGPT";
    word_pat "OpenAI";
    seqs [WordB; lits "Azure"; Plus ASpace; lits "OpenAI"; WordB];
    word_pat "Anthropic";
    word_pat "Claude";
    word_pat "GPT";
    word_pat "orchestrator" ].

(** [^\s*BODY\.?\s*$] *)
Definition generic_pat (body : regex) : regex :=
  seqs [Bol; Star ASpace; body; Opt (At (ALit ".")); Star ASpace; Eol].

Definition GENERIC_PATTERNS : list regex :=
  [ generic_pat (lits "This asset contains data");
    generic_pat (lits "Contains data");
    generic_pat (lits "A report");
    generic_pat (lits "Report about something");
    generic_pat (seqs [lits "Dataset"; Star ASpace; Opt (lits "with"); Star ASpace;
                       lits "information"]) ].

Definition CONFIDENCE_ALLOWED : list string := ["low"; "medium"; "high"].

Definition FORBIDDEN_LANGUAGE : list regex :=
  [ seqs [WordB; lits "based"; Plus ASpace; lits "on"; Plus ASpace; lits "my";
          Plus ASpace; lits "knowledge"; WordB];
    seqs [WordB; lits "in"; Plus ASpace; lits "general"; WordB];
    word_pat "typically";
    word_pat "likely";
    word_pat "probably";
    seqs [WordB; lits "appears"; Plus ASpace; lits "to"; WordB];
    word_pat "may";
    word_pat "could" ].

(** [general knowledge|training data|internet|wikipedia] *)
Definition FORBIDDEN_SOURCES : regex :=
  Alt (lits "general knowledge")
      (Alt (lits "training data") (Alt (lits "internet") (lits "wikipedia"))).

Definition msg_desc_nonempty : string :=
  "suggested_description must be a non-empty string".
Definition msg_desc_short : string :=
  "suggested_description is too short (min 10 chars)".
Definition msg_desc_long : string :=
  "suggested_description is too long (max 500 chars)".
Definition msg_desc_generic : string :=
  "suggested_description is trivially generic".
Definition msg_desc_forbidden : string :=
  "suggested_description references forbidden concepts (LLM/prompt/system)".
Definition msg_desc_language : string :=
  "suggested_description uses speculative or disallowed phrasing (forbidden concepts)".
Definition msg_confidence : string :=
  "confidence must be one of: low, medium, high".
Definition msg_sources_nonempty : string :=
  "used_sources must be a non-empty array".
Definition msg_source_item (idx : nat) : string :=
  "used_sources[" +++ str_of_nat idx +++ "] must be a non-empty string".
Definition msg_source_forbidden (idx : nat) : string :=
  "used_sources[" +++ str_of_nat idx +++ "] references forbidden source identifiers".

(** The checks on [desc]. *)
Definition description_errors (desc : pyvalue) : list string :=
  match desc with
  | PStr d =>
      if String.eqb (strip d) "" then [msg_desc_nonempty]
      else
        (if (String.length d <? 10)%nat then [msg_desc_short] else [])
        ++ (if (500 <? String.length d)%nat then [msg_desc_long] else [])
        ++ (if existsb (fun pat => re_search pat d) GENERIC_PATTERNS
            then [msg_desc_generic] else [])
        ++ (if existsb (fun pat => re_search pat d) FORBIDDEN_PHRASES
            then [msg_desc_forbidden] else [])
        ++ (if existsb (fun pat => re_search pat d) FORBIDDEN_LANGUAGE
            then [msg_desc_language] else [])
  | _ => [msg_desc_nonempty]
  end.

(** [conf not in CONFIDENCE_ALLOWED]: membership in a set hashes [conf],
    which raises for a list or a dict. *)
Definition confidence_errors (conf : pyvalue) : result (list string) :=
  match conf with
  | PStr c => Ok (if negb (str_mem c CONFIDENCE_ALLOWED) then [msg_confidence] else [])
  | PNone | PInt _ => Ok [msg_confidence]
  | PList _ | PDict _ => Raise TypeError
  end.

(** [for idx, s in enumerate(srcs)] *)
Fixpoint source_item_errors (idx : nat) (srcs : list pyvalue) : list string :=
  match srcs with
  | [] => []
  | s :: tl =>
      (match s with
       | PStr t =>
           if String.eqb (strip t) "" then [msg_source_item idx]
           else if re_search FORBIDDEN_SOURCES t then [msg_source_forbidden idx]
           else []
       | _ => [msg_source_item idx]
       end) ++ source_item_errors (S idx) tl
  end.

Definition sources_errors (srcs : pyvalue) : list string :=
  match srcs with
  | PList l => if (List.length l =? 0)%nat then [msg_sources_nonempty]
               else source_item_errors 0 l
  | _ => [msg_sources_nonempty]
  end.

Definition get_default (k : string) (d : dict) (default : pyvalue) : pyvalue :=
  match dict_get k d with Some v => v | None => default end.

Definition validate_semantic (parsed_yaml : dict) : result ValidationResult :=
  let desc := get_default "suggested_description" parsed_yaml (PStr "") in
  let errors := description_errors desc in
  let conf := get_default "confidence" parsed_yaml PNone in
  conf_errors <- confidence_errors conf ;;
  let errors := errors ++ conf_errors in
  let srcs := get_default "used_sources" parsed_yaml (PList []) in
  let errors := errors ++ sources_errors srcs in
  Ok (if negb (is_empty errors) then invalid [] errors else valid).

(* ================================================================= *)
(** ** validator.py *)

(** [validate_output], with the semantic validator it calls as an
    argument. *)
Definition validate_output_with
           (semantic_validator : dict -> result ValidationResult)
           (yaml_text : option string)
  : result (ValidationResult * ValidationResult) :=
  structural <- validate_structural yaml_text ;;
  if negb (is_valid structural) then Ok (structural, valid)
  else
    let '(parsed, parse_errors) := _parse_yaml_subset yaml_text in
    if negb (is_empty parse_errors) then Ok (invalid parse_errors [], valid)
    else
      semantic <- semantic_validator parsed ;;
      Ok (structural, semantic).

Definition validate_output (yaml_text : option string)
  : result (ValidationResult * ValidationResult) :=
  validate_output_with validate_semantic yaml_text.

Definition scenario_text : string :=
  "suggested_description: " +++ dq +++ "Annual report detailing emissions." +++ dq +++ nl
  +++ "confidence: high" +++ nl
  +++ "used_sources:" +++ nl
  +++ "- Document: report.pdf, Page 1" +++ nl.

(* ================================================================= *)
(** ** change_detection/decision.py *)

Inductive DecisionResult : Type := REPROCESS | SKIP.

(** The previous hash taken from the supported shapes of [previous_state];
    [None] stands for Python's [None]. *)
Definition extract_previous_hash (previous_state : pyvalue) : option string :=
  match previous_state with
  | PStr s => Some s
  | PDict d =>
      let candidate := dict_get "hash" d in
      let candidate :=
        match candidate with
        | Some (PStr c) => if String.eqb c "" then dict_get "previousHash" d else candidate
        | _ => dict_get "previousHash" d
        end in
      match candidate with
      | Some (PStr c) => Some c
      | _ => None
      end
  | _ => None
  end.

Definition decide_reprocess_or_skip (current_hash previous_state : pyvalue)
  : result DecisionResult :=
  match current_hash with
  | PStr current =>
      match previous_state with
      | PNone => Ok REPROCESS
      | _ =>
          match extract_previous_hash previous_state with
          | None => Ok REPROCESS
          | Some previous_hash =>
              if String.eqb previous_hash "" then Ok REPROCESS
              else if String.eqb previous_hash current then Ok SKIP
              else Ok REPROCESS
          end
      end
  | _ => Raise TypeError
  end.

(* ================================================================= *)
(** ** change_detection/normalizer.py and hasher.py *)

Definition MATERIAL_FIELDS : list string :=
  [ "id"; "sourceSystem"; "entityType"; "entityName"; "entityPath"; "description";
    "businessMeaning"; "domain"; "tags"; "content"; "relationships"; "columns";
    "dataType" ].

Definition VOLATILE_FIELDS : list string :=
  [ "lastUpdated"; "schemaVersion"; "auditInfo"; "scanId"; "ingestionTime" ].

Definition is_volatile_field (field_name : string) : bool :=
  str_mem field_name VOLATILE_FIELDS || startswith field_name "_".

(** [str.lower] *)
Fixpoint lower (s : string) : string :=
  match s with
  | EmptyString => EmptyString
  | String c s' => String (lower_char c) (lower s')
  end.

(** [sorted(l, key=...)] as a stable insertion sort; [le a b] compares the
    keys of [a] and [b]. *)
Fixpoint insert_by {A : Type} (le : A -> A -> bool) (x : A) (l : list A) : list A :=
  match l with
  | [] => [x]
  | y :: ys => if le x y then x :: l else y :: insert_by le x ys
  end.

Definition sorted_by {A : Type} (le : A -> A -> bool) (l : list A) : list A :=
  fold_right (insert_by le) [] l.

(** Values that can be put in a [set]. *)
Definition hashable (v : pyvalue) : bool :=
  match v with
  | PList _ | PDict _ => false
  | _ => true
  end.

(** [==] on hashable values. *)
Definition key_eqb (a b : pyvalue) : bool :=
  match a, b with
  | PNone, PNone => true
  | PInt x, PInt y => Z.eqb x y
  | PStr x, PStr y => String.eqb x y
  | _, _ => false
  end.

(** [<=] on sort keys of one kind. *)
Definition key_leb (a b : pyvalue) : bool :=
  match a, b with
  | PInt x, PInt y => Z.leb x y
  | PStr x, PStr y => String.leb x y
  | _, _ => true
  end.

(** Sorting two or more keys compares them, which raises unless they are
    all strings or all integers. *)
Definition keys_comparable (keys : list pyvalue) : bool :=
  (List.length keys <=? 1)%nat
  || forallb isinstance_str keys
  || forallb (fun k => match k with PInt _ => true | _ => false end) keys.

(** The validation loop of [_normalize_relationships] and
    [_normalize_columns]: every item is a dict that has [field]. *)
Fixpoint check_items (field : string) (l : list pyvalue) : result (list dict) :=
  match l with
  | [] => Ok []
  | PDict d :: tl =>
      if dict_mem field d then ds <- check_items field tl ;; Ok (d :: ds)
      else Raise ValueError
  | _ :: _ => Raise TypeError
  end.

(** The loop that keeps the first item of every identifier. *)
Fixpoint unique_by (field : string) (l : list dict) (seen : list pyvalue)
  : result (list dict) :=
  match l with
  | [] => Ok []
  | d :: tl =>
      let k := get_default field d PNone in
      if negb (hashable k) then Raise TypeError
      else if existsb (key_eqb k) seen then unique_by field tl seen
      else ds <- unique_by field tl (k :: seen) ;; Ok (d :: ds)
  end.

(** [sorted(unique, key=lambda r: r[field])] *)
Definition sorted_by_field (field : string) (l : list dict) : result (list dict) :=
  if keys_comparable (map (fun d => get_default field d PNone) l)
  then Ok (sorted_by (fun a b => key_leb (get_default field a PNone)
                                         (get_default field b PNone)) l)
  else Raise TypeError.

(** The body shared by [_normalize_relationships] ([field = "id"]) and
    [_normalize_columns] ([field = "name"]). *)
Definition normalize_items (field : string) (v : pyvalue) : result pyvalue :=
  match v with
  | PList l =>
      ds <- check_items field l ;;
      unique <- unique_by field ds [] ;;
      sorted <- sorted_by_field field unique ;;
      Ok (PList (map PDict sorted))
  | _ => Raise TypeError
  end.

Definition _normalize_relationships (relationships : pyvalue) : result pyvalue :=
  normalize_items "id" relationships.

Definition _normalize_columns (columns : pyvalue) : result pyvalue :=
  normalize_items "name" columns.

(** [for i, tag in enumerate(tags): if not isinstance(tag, str): raise] *)
Fixpoint check_tags (l : list pyvalue) : result (list string) :=
  match l with
  | [] => Ok []
  | PStr s :: tl => ss <- check_tags tl ;; Ok (s :: ss)
  | _ :: _ => Raise TypeError
  end.

Section ChangeDetection.

(** The order in which Python iterates over [set(tags)]: the language
    does not fix it, so it is a parameter. *)
Variable set_iter : list string -> list string.

(** The order in which Python iterates over the set [MATERIAL_FIELDS]. *)
Variable material_iter : list string.

(** [json.dumps(obj, separators=(",", ":"), sort_keys=True,
    ensure_ascii=False, default=_json_encoder_default)], [None] when it
    raises [TypeError] or [ValueError]. *)
Variable json_dumps : pyvalue -> option string.

(** [hashlib.sha256(s.encode("utf-8")).hexdigest()] *)
Variable sha256_hexdigest : string -> string.

Definition _normalize_tags (tags : pyvalue) : result pyvalue :=
  match tags with
  | PList l =>
      ss <- check_tags l ;;
      Ok (PList (map PStr
                     (sorted_by (fun a b => String.leb (lower a) (lower b))
                                (set_iter ss))))
  | _ => Raise TypeError
  end.

Definition normalize_field (field : string) (value : pyvalue) : result pyvalue :=
  if String.eqb field "tags" then _normalize_tags value
  else if String.eqb field "relationships" then _normalize_relationships value
  else if String.eqb field "columns" then _normalize_columns value
  else Ok value.

(** [for field in MATERIAL_FIELDS] *)
Fixpoint normalize_fields (fields : list string) (asset normalized : dict)
  : result dict :=
  match fields with
  | [] => Ok normalized
  | field :: tl =>
      match dict_get field asset with
      | None => normalize_fields tl asset normalized
      | Some PNone => normalize_fields tl asset normalized
      | Some value =>
          v <- normalize_field field value ;;
          normalize_fields tl asset (dict_set field v normalized)
      end
  end.

Definition normalize_asset (asset : pyvalue) : result pyvalue :=
  match asset with
  | PDict a => normalized <- normalize_fields material_iter a [] ;; Ok (PDict normalized)
  | _ => Raise TypeError
  end.

Definition _to_canonical_json (obj : pyvalue) : result string :=
  match json_dumps obj with
  | Some s => Ok s
  | None => Raise ValueError
  end.

Definition compute_asset_hash (asset : pyvalue) : result string :=
  if negb (isinstance_dict asset) then Raise TypeError
  else
    normalized <- normalize_asset asset ;;
    canonical_json <- _to_canonical_json normalized ;;
    Ok (sha256_hexdigest canonical_json).

End ChangeDetection.

Section HasherApi.

Variable set_iter : list string -> list string.
Variable material_iter : list string.
Variable json_dumps : pyvalue -> option string.
Variable sha256_hexdigest : string -> string.

(** [are_assets_equal_by_hash]: both hashes are computed, the first one
    first, and compared. *)
Definition are_assets_equal_by_hash (asset1 asset2 : pyvalue) : result bool :=
  hash1 <- compute_asset_hash set_iter material_iter json_dumps sha256_hexdigest asset1 ;;
  hash2 <- compute_asset_hash set_iter material_iter json_dumps sha256_hexdigest asset2 ;;
  Ok (String.eqb hash1 hash2).

(** [get_asset_hash_components] *)
Definition get_asset_hash_components (asset : pyvalue) : result pyvalue :=
  normalize_asset set_iter material_iter asset.

End HasherApi.

(** The iteration order that lists every distinct element once, in order of
    first insertion. *)
Fixpoint first_seen (l : list string) (seen : list string) : list string :=
  match l with
  | [] => []
  | x :: tl => if str_mem x seen then first_seen tl seen
               else x :: first_seen tl (x :: seen)
  end.

(* ================================================================= *)
(** ** Vocabulary used to state the properties *)

(** After [lstrip] the line starts with a dash: the look-ahead takes it. *)
Definition dash_led (ln : string) : bool := startswith (lstrip ln) "-".

(** After [lstrip] the line starts with a dash and a space. *)
Definition item_line (ln : string) : bool := startswith (lstrip ln) "- ".

Definition bad_item_line (ln : string) : bool := dash_led ln && negb (item_line ln).

(** The text stored for an item line. *)
Definition item_text (ln : string) : string := strip (slice_from 2 (lstrip ln)).

(** The line has leading whitespace. *)
Definition indented (ln : string) : bool :=
  match ln with
  | String c _ => isspace c
  | EmptyString => false
  end.

(** Field name and raw value of a line, as the parser cuts them. *)
Definition key_of (ln : string) : string := strip (fst (fst (partition ":" ln))).
Definition value_of (ln : string) : string := strip (snd (partition ":" ln)).

(** A line that names a field: no leading space, a colon, and not an
    array item. *)
Definition key_line (ln : string) : bool :=
  negb (not_top_level ln) && negb (dash_led ln).

Fixpoint takewhile {A : Type} (p : A -> bool) (l : list A) : list A :=
  match l with
  | x :: tl => if p x then x :: takewhile p tl else []
  | [] => []
  end.

Fixpoint dropwhile {A : Type} (p : A -> bool) (l : list A) : list A :=
  match l with
  | x :: tl => if p x then dropwhile p tl else l
  | [] => []
  end.

(** The look-ahead of the parser on its own: items collected, defects
    recorded, lines left for the top-level loop. *)
Fixpoint lookahead (l : list string) (items errs : list string)
  : list string * list string * list string :=
  match l with
  | [] => (items, errs, [])
  | nxt :: tl =>
      if bad_item_line nxt then lookahead tl items (errs ++ [msg_bad_item nxt])
      else if item_line nxt then lookahead tl (items ++ [item_text nxt]) errs
      else (items, errs, l)
  end.

(** The look-ahead as the specification words it: a line counts only when
    it is indented. *)
Fixpoint lookahead_spec (l : list string) (items errs : list string)
  : list string * list string * list string :=
  match l with
  | [] => (items, errs, [])
  | nxt :: tl =>
      if indented nxt && bad_item_line nxt
      then lookahead_spec tl items (errs ++ [msg_bad_item nxt])
      else if indented nxt && item_line nxt
      then lookahead_spec tl (items ++ [item_text nxt]) errs
      else (items, errs, l)
  end.

(** The errors a key line adds before its value is looked at. *)
Definition dup_errors (st : pstate) (key : string) : list string :=
  if dict_mem key (parsed st) then errors st ++ [msg_duplicate key] else errors st.

(** The value the parser stores for the key line [ln] followed by the
    lines [following]. *)
Definition field_value (ln : string) (following : list string) : pyvalue :=
  if String.eqb (value_of ln) "[]" then PList []
  else if String.eqb (value_of ln) ""
  then items_or_none (map item_text (filter item_line (takewhile dash_led following)))
  else PStr (unquote (value_of ln)).

(** The defects of the array items under the key line [ln]. *)
Definition item_defects (ln : string) (following : list string) : list string :=
  if negb (String.eqb (value_of ln) "[]") && String.eqb (value_of ln) ""
  then map msg_bad_item (filter bad_item_line (takewhile dash_led following))
  else [].

(** The lines the top-level loop goes on with after the key line [ln]. *)
Definition after_key (ln : string) (following : list string) : list string :=
  if negb (String.eqb (value_of ln) "[]") && String.eqb (value_of ln) ""
  then dropwhile dash_led following
  else following.

(** A field block: a key line and the array items under it. *)
Definition field_block (blk : list string) : bool :=
  match blk with
  | kl :: items => key_line kl && forallb dash_led items
  | [] => false
  end.

(** A place where a block can end: the end of the text, or a line that is
    not an array item. *)
Definition block_boundary (l : list string) : bool :=
  match l with
  | [] => true
  | x :: _ => negb (dash_led x)
  end.

(** The keys the ordering loop of [validate_structural] collects. *)
Definition seen_order_of (lines : list string) : list string :=
  fst (order_scan lines [] []).

(** What one line adds to [seen_order], and to [errors], in the ordering
    loop. *)
Definition order_key (ln : string) : list string :=
  if not_top_level ln then [] else [strip (split1_head ":" ln)].

Definition order_defect (ln : string) : list string :=
  if not_top_level ln then
    if startswith (lstrip ln) "- " then []
    else if negb (startswith (lstrip ln) "- ") && negb (startswith (strip ln) "#")
    then [msg_non_key_line ln] else []
  else [].

Definition parsed_of (text : string) : dict := fst (_parse_yaml_subset (Some text)).

Definition parse_errors_of (text : string) : list string :=
  snd (_parse_yaml_subset (Some text)).

(** The errors [validate_structural] has gathered before the ordering
    loop. *)
Definition errors_before_order (text : string) : list string :=
  ((parse_errors_of text ++ unknown_field_errors (parsed_of text))
     ++ missing_field_errors (parsed_of text))
    ++ type_errors (parsed_of text).

(** The whole error list of [validate_structural]. *)
Definition structural_error_list (text : string) : list string :=
  (errors_before_order text ++ flat_map order_defect (order_lines text))
    ++ (if negb (list_str_eqb (seen_order_of (order_lines text)) (expected_seq (parsed_of text)))
        then [msg_order] else []).

Fixpoint all_chars (p : ascii -> bool) (s : string) : bool :=
  match s with
  | EmptyString => true
  | String c s' => p c && all_chars p s'
  end.

(** The scenario text with its array item indented, and the line the
    second scenario adds. *)
Definition scenario_text_indented : string :=
  "suggested_description: " +++ dq +++ "Annual report detailing emissions." +++ dq +++ nl
  +++ "confidence: high" +++ nl
  +++ "used_sources:" +++ nl
  +++ "  - Document: report.pdf, Page 1" +++ nl.

Definition extra_field_line : string := "extra_field: nope".

(** An error message that does not begin like the order error. *)
Definition not_order (e : string) : Prop := startswith e "Field o" = false.

(** A parsed document that passes the field and type checks of
    [validate_structural]. *)
Definition structurally_valid (d : dict) : bool :=
  is_empty (unknown_field_errors d ++ missing_field_errors d ++ type_errors d).

(** The terms of [FORBIDDEN_PHRASES] that are one word. *)
Definition FORBIDDEN_WORDS : list string :=
  [ "LLM"; "prompt"; "pipeline"; "system"; "model"; "AI"; "ChatGPT"; "OpenAI";
    "Anthropic"; "Claude"; "GPT"; "orchestrator" ].

(** The character before the position reached after reading [pre]. *)
Fixpoint last_before (prev : option ascii) (pre : string) : option ascii :=
  match pre with
  | EmptyString => prev
  | String c pre' => last_before (Some c) pre'
  end.

(** The text between [pre] and [post] stands there as a whole word: no
    word character touches it on either side. *)
Definition whole_word (pre post : string) : Prop :=
  is_word_opt (last_before None pre) = false /\ is_word_opt (head_char post) = false.

(** The error list of [validate_semantic] when [confidence] is hashable. *)
Definition semantic_error_list (d : dict) : list string :=
  (description_errors (get_default "suggested_description" d (PStr ""))
     ++ match confidence_errors (get_default "confidence" d PNone) with
        | Ok l => l
        | Raise _ => []
        end)
    ++ sources_errors (get_default "used_sources" d (PList [])).

(** What Python guarantees about the iteration order of a set built from a
    list: every element of the list is met, once. *)
Definition set_order_admissible (set_iter : list string -> list string) : Prop :=
  forall l, NoDup (set_iter l) /\ (forall x, In x (set_iter l) <-> In x l).

(** A material field that [normalize_asset] copies as it is. *)
Definition scalar_material (field : string) : bool :=
  str_mem field MATERIAL_FIELDS
  && negb (String.eqb field "tags")
  && negb (String.eqb field "relationships")
  && negb (String.eqb field "columns").

(** What the field [field] of [asset] contributes to the normalized record:
    nothing when it is absent or [None], else its normalized value or the
    exception raised on it. *)
Definition field_contribution (set_iter : list string -> list string)
           (field : string) (asset : dict) : option (result pyvalue) :=
  match dict_get field asset with
  | None => None
  | Some PNone => None
  | Some value => Some (normalize_field set_iter field value)
  end.

(** An admissible iteration order: last inserted first. *)
Definition last_seen_first (l : list string) : list string := rev (first_seen l []).

(** The text made of the given lines, each ended by a line feed. *)
Fixpoint unlines (ls : list string) : string :=
  match ls with
  | [] => ""
  | l :: tl => l +++ nl +++ unlines tl
  end.

(** A line as the parser sees one: no line break inside, not blank. *)
Definition line_ok (l : string) : bool :=
  all_chars (fun c => negb (is_linebreak c)) l && negb (all_chars isspace l).

(** The relation a boolean comparison stands for. *)
Definition le_rel {A : Type} (le : A -> A -> bool) (a b : A) : Prop := le a b = true.

(** The comparison behind [sorted(..., key=str.lower)]. *)
Definition tag_le (a b : string) : bool := String.leb (lower a) (lower b).

(** The identifier of a relationship or a column. *)
Definition item_key (field : string) (d : dict) : pyvalue := get_default field d PNone.

Definition item_le (field : string) (a b : dict) : bool :=
  key_leb (item_key field a) (item_key field b).

(** No two different tags of the record are equal up to letter case. *)
Definition tags_case_distinct (r : dict) : Prop :=
  forall l, dict_get "tags" r = Some (PList l) ->
            forall a b, In (PStr a) l -> In (PStr b) l -> lower a = lower b -> a = b.

(** The entry a field adds to the normalized record. *)
Definition field_entry (set_iter : list string -> list string) (r : dict) (f : string)
  : list (string * pyvalue) :=
  match field_contribution set_iter f r with
  | Some (Ok v) => [(f, v)]
  | _ => []
  end.

Definition entries (set_iter : list string -> list string) (fields : list string) (r : dict)
  : dict :=
  flat_map (field_entry set_iter r) fields.

(** The alternatives of the pattern the sources are searched for. *)
Definition FORBIDDEN_SOURCE_TERMS : list string :=
  [ "general knowledge"; "training data"; "internet"; "wikipedia" ].

(** The two hexadecimal digits of a code point below 256. *)
Definition hex_digit (n : nat) : ascii :=
  match n with
  | 0 => "0" | 1 => "1" | 2 => "2" | 3 => "3" | 4 => "4" | 5 => "5" | 6 => "6" | 7 => "7"
  | 8 => "8" | 9 => "9" | 10 => "a" | 11 => "b" | 12 => "c" | 13 => "d" | 14 => "e"
  | _ => "f"
  end%char.

(** What [json.dumps(..., ensure_ascii=False)] writes for one character of
    a string. *)
Definition json_escape_char (c : ascii) : string :=
  let n := nat_of_ascii c in
  if Nat.eqb n 34 then "\" +++ dq
  else if Nat.eqb n 92 then "\\"
  else if Nat.eqb n 8 then "\b"
  else if Nat.eqb n 12 then "\f"
  else if Nat.eqb n 10 then "\n"
  else if Nat.eqb n 13 then "\r"
  else if Nat.eqb n 9 then "\t"
  else if (n <? 32)%nat
       then "\u00" +++ String (hex_digit (n / 16)) (String (hex_digit (n mod 16)) "")
       else String c "".

Fixpoint json_escape (s : string) : string :=
  match s with
  | EmptyString => EmptyString
  | String c s' => json_escape_char c +++ json_escape s'
  end.

Definition json_str (s : string) : string := dq +++ json_escape s +++ dq.

Definition json_int (z : Z) : string :=
  if (z <? 0)%Z then "-" +++ str_of_nat (Z.to_nat (- z)) else str_of_nat (Z.to_nat z).

Fixpoint join_comma (l : list string) : string :=
  match l with
  | [] => ""
  | [x] => x
  | x :: tl => x +++ "," +++ join_comma tl
  end.

(** [json.dumps(obj, separators=(",", ":"), sort_keys=True,
    ensure_ascii=False)] on the values of this model: compact, the keys of
    every dict in sorted order. *)
Fixpoint compact_json (v : pyvalue) : string :=
  match v with
  | PNone => "null"
  | PInt z => json_int z
  | PStr s => json_str s
  | PList l => "[" +++ join_comma (map compact_json l) +++ "]"
  | PDict d =>
      let rendered :=
        (fix render (d : list (string * pyvalue)) : list (string * string) :=
           match d with
           | [] => []
           | (k, x) :: tl => (k, compact_json x) :: render tl
           end) d in
      "{" +++ join_comma (map (fun kx => json_str (fst kx) +++ ":" +++ snd kx)
                              (sorted_by (fun a b => String.leb (fst a) (fst b)) rendered))
          +++ "}"
  end.


(** The serializer and the digest function keep the normalized records
    [n1] and [n2] apart: they do not serialize alike unless they are the
    same record, and their serializations do not collide under the digest
    function. *)
Definition no_collision (json_dumps : pyvalue -> option string)
           (sha256_hexdigest : string -> string) (n1 n2 : pyvalue) : Prop :=
  (forall s, json_dumps n1 = Some s -> json_dumps n2 = Some s -> n1 = n2)
  /\ (forall s1 s2, json_dumps n1 = Some s1 -> json_dumps n2 = Some s2 ->
                    sha256_hexdigest s1 = sha256_hexdigest s2 -> s1 = s2).

(** [compute_asset_hash] with sets iterated in order of first insertion,
    the compact JSON above, and the serialized text itself as its digest. *)
Definition reference_hash (asset : pyvalue) : result string :=
  compute_asset_hash (fun l => first_seen l []) MATERIAL_FIELDS
                     (fun v => Some (compact_json v)) (fun s => s) asset.

Definition empty_state : pstate := mkState [] [] [].

(* ================================================================= *)
(** * Properties *)

(** ** The parser, line by line *)

Lemma lookahead_parse_loop key parsed0 seen rest :
  forall items errs,
    (fix collect (l : list string) (items errs : list string) {struct l} : pstate :=
       match l with
       | [] => mkState (dict_set key (items_or_none items) parsed0) errs seen
       | nxt :: tl =>
           let stripped := lstrip nxt in
           if startswith stripped "-" && negb (startswith stripped "- ") then
             collect tl items (errs ++ [msg_bad_item nxt])
           else if startswith stripped "- " then
             collect tl (items ++ [strip (slice_from 2 stripped)]) errs
           else
             parse_loop l
               (mkState (dict_set key (items_or_none items) parsed0) errs seen)
       end) rest items errs
    = let '(items', errs', rem) := lookahead rest items errs in
      parse_loop rem (mkState (dict_set key (items_or_none items') parsed0) errs' seen).
Proof.
  induction rest as [|nxt tl IH]; intros items errs.
  - reflexivity.
  - cbn [lookahead]. unfold bad_item_line, dash_led, item_line, item_text.
    destruct (startswith (lstrip nxt) "-" && negb (startswith (lstrip nxt) "- ")).
    + apply IH.
    + destruct (startswith (lstrip nxt) "- ").
      * apply IH.
      * reflexivity.
Qed.

(** One turn of the top-level loop. *)
Lemma parse_loop_cons ln rest st :
  parse_loop (ln :: rest) st =
  if not_top_level ln then
    parse_loop rest (mkState (parsed st) (errors st ++ [msg_unexpected_format ln]) (seen_keys st))
  else if String.eqb (value_of ln) "[]" then
    parse_loop rest (mkState (dict_set (key_of ln) (PList []) (parsed st))
                             (dup_errors st (key_of ln)) (seen_keys st ++ [key_of ln]))
  else if String.eqb (value_of ln) "" then
    let '(items, errs, rem) := lookahead rest [] (dup_errors st (key_of ln)) in
    parse_loop rem (mkState (dict_set (key_of ln) (items_or_none items) (parsed st))
                            errs (seen_keys st ++ [key_of ln]))
  else
    parse_loop rest (mkState (dict_set (key_of ln) (PStr (unquote (value_of ln))) (parsed st))
                             (dup_errors st (key_of ln)) (seen_keys st ++ [key_of ln])).
Proof.
  cbn [parse_loop]. unfold key_of, value_of, dup_errors.
  destruct (not_top_level ln); [reflexivity|].
  destruct (partition ":" ln) as [[key0 m] r]. cbn [fst snd].
  destruct (String.eqb (strip r) "[]"); [reflexivity|].
  destruct (String.eqb (strip r) ""); [|reflexivity].
  apply lookahead_parse_loop.
Qed.

Lemma item_line_dash_led ln : item_line ln = true -> dash_led ln = true.
Proof.
  unfold item_line, dash_led.
  destruct (lstrip ln) as [|c s]; cbn [startswith]; [discriminate|].
  destruct (Ascii.eqb "-" c); cbn [andb startswith]; [reflexivity | discriminate].
Qed.

(** What the look-ahead returns, in closed form. *)
Lemma lookahead_closed_form l :
  forall items errs,
    lookahead l items errs =
    (items ++ map item_text (filter item_line (takewhile dash_led l)),
     errs ++ map msg_bad_item (filter bad_item_line (takewhile dash_led l)),
     dropwhile dash_led l).
Proof.
  induction l as [|nxt tl IH]; intros items errs; cbn [lookahead takewhile dropwhile].
  - cbn. now rewrite !app_nil_r.
  - unfold bad_item_line at 1.
    destruct (dash_led nxt) eqn:D; cbn [andb].
    + destruct (item_line nxt) eqn:I; cbn [negb].
      * rewrite IH. cbn [filter]. rewrite I. unfold bad_item_line at 2.
        rewrite D, I. cbn [andb negb map]. now rewrite <- app_assoc.
      * rewrite IH. cbn [filter]. rewrite I. unfold bad_item_line at 2.
        rewrite D, I. cbn [andb negb map]. now rewrite <- app_assoc.
    + destruct (item_line nxt) eqn:I.
      * apply item_line_dash_led in I. congruence.
      * cbn. now rewrite !app_nil_r.
Qed.

(** One turn of the top-level loop on a line it accepts as a key. *)
Lemma parse_loop_key ln rest st :
  not_top_level ln = false ->
  parse_loop (ln :: rest) st =
  parse_loop (after_key ln rest)
             (mkState (dict_set (key_of ln) (field_value ln rest) (parsed st))
                      (dup_errors st (key_of ln) ++ item_defects ln rest)
                      (seen_keys st ++ [key_of ln])).
Proof.
  intros H. rewrite parse_loop_cons, H.
  unfold field_value, item_defects, after_key.
  destruct (String.eqb (value_of ln) "[]"); cbn [negb andb].
  - now rewrite app_nil_r.
  - destruct (String.eqb (value_of ln) "").
    + rewrite lookahead_closed_form. cbn [app]. reflexivity.
    + now rewrite app_nil_r.
Qed.

Lemma parse_loop_skip ln rest st :
  not_top_level ln = true ->
  parse_loop (ln :: rest) st =
  parse_loop rest (mkState (parsed st) (errors st ++ [msg_unexpected_format ln]) (seen_keys st)).
Proof. intros H. now rewrite parse_loop_cons, H. Qed.

Lemma dropwhile_length {A : Type} (p : A -> bool) l :
  List.length (dropwhile p l) <= List.length l.
Proof.
  induction l as [|x tl IH]; cbn; [lia|].
  destruct (p x); cbn; lia.
Qed.

Lemma after_key_length ln rest : List.length (after_key ln rest) <= List.length rest.
Proof.
  unfold after_key.
  destruct (negb (String.eqb (value_of ln) "[]") && String.eqb (value_of ln) "");
    [apply dropwhile_length | lia].
Qed.

(** Induction along the lines the top-level loop visits. *)
Lemma parse_ind (P : list string -> Prop) :
  P [] ->
  (forall ln rest, not_top_level ln = true -> P rest -> P (ln :: rest)) ->
  (forall ln rest, not_top_level ln = false -> P (after_key ln rest) -> P (ln :: rest)) ->
  forall l, P l.
Proof.
  intros Hnil Hskip Hkey l.
  remember (List.length l) as n eqn:Hn.
  revert l Hn. induction n as [n IH] using lt_wf_ind. intros l Hn.
  destruct l as [|ln rest]; [exact Hnil|].
  cbn in Hn. destruct (not_top_level ln) eqn:T.
  - apply Hskip; [exact T|]. apply (IH (List.length rest)); [lia | reflexivity].
  - apply Hkey; [exact T|].
    apply (IH (List.length (after_key ln rest))); [|reflexivity].
    pose proof (after_key_length ln rest). lia.
Qed.

Lemma takewhile_app_boundary l1 l2 :
  block_boundary l2 = true ->
  takewhile dash_led (l1 ++ l2) = takewhile dash_led l1.
Proof.
  intros B. induction l1 as [|x tl IH]; cbn [app takewhile].
  - destruct l2 as [|y l2]; [reflexivity|]. cbn [block_boundary takewhile] in *.
    destruct (dash_led y); [discriminate | reflexivity].
  - destruct (dash_led x); [now rewrite IH | reflexivity].
Qed.

Lemma dropwhile_app_boundary l1 l2 :
  block_boundary l2 = true ->
  dropwhile dash_led (l1 ++ l2) = dropwhile dash_led l1 ++ l2.
Proof.
  intros B. induction l1 as [|x tl IH]; cbn [app dropwhile].
  - destruct l2 as [|y l2]; [reflexivity|]. cbn [block_boundary dropwhile] in *.
    destruct (dash_led y); [discriminate | reflexivity].
  - destruct (dash_led x); [exact IH | reflexivity].
Qed.

Lemma field_value_app ln l1 l2 :
  block_boundary l2 = true -> field_value ln (l1 ++ l2) = field_value ln l1.
Proof. intros B. unfold field_value. now rewrite takewhile_app_boundary. Qed.

Lemma item_defects_app ln l1 l2 :
  block_boundary l2 = true -> item_defects ln (l1 ++ l2) = item_defects ln l1.
Proof. intros B. unfold item_defects. now rewrite takewhile_app_boundary. Qed.

Lemma after_key_app ln l1 l2 :
  block_boundary l2 = true -> after_key ln (l1 ++ l2) = after_key ln l1 ++ l2.
Proof.
  intros B. unfold after_key.
  destruct (negb (String.eqb (value_of ln) "[]") && String.eqb (value_of ln) "");
    [now apply dropwhile_app_boundary | reflexivity].
Qed.

(** The loop can be cut wherever the next line is not an array item. *)
Lemma parse_loop_app l1 l2 :
  block_boundary l2 = true ->
  forall st, parse_loop (l1 ++ l2) st = parse_loop l2 (parse_loop l1 st).
Proof.
  intros B. induction l1 as [| ln rest T IH | ln rest T IH] using parse_ind; intros st.
  - reflexivity.
  - cbn [app]. rewrite !parse_loop_skip by exact T. apply IH.
  - cbn [app]. rewrite !parse_loop_key by exact T.
    rewrite field_value_app, item_defects_app, after_key_app by exact B.
    apply IH.
Qed.

Lemma after_key_incl ln rest : incl (after_key ln rest) rest.
Proof.
  unfold after_key.
  destruct (negb (String.eqb (value_of ln) "[]") && String.eqb (value_of ln) "");
    [|apply incl_refl].
  induction rest as [|x tl IH]; cbn [dropwhile]; [apply incl_refl|].
  destruct (dash_led x); [apply incl_tl; exact IH | apply incl_refl].
Qed.

(** *** Errors are only ever added *)

Lemma dup_errors_prefix st key : exists extra, dup_errors st key = errors st ++ extra.
Proof.
  unfold dup_errors. destruct (dict_mem key (parsed st)).
  - now exists [msg_duplicate key].
  - exists []. now rewrite app_nil_r.
Qed.

Lemma parse_loop_errors_prefix l :
  forall st, exists extra, errors (parse_loop l st) = errors st ++ extra.
Proof.
  induction l as [| ln rest T IH | ln rest T IH] using parse_ind; intros st.
  - exists []. cbn. now rewrite app_nil_r.
  - rewrite parse_loop_skip by exact T.
    destruct (IH (mkState (parsed st) (errors st ++ [msg_unexpected_format ln]) (seen_keys st)))
      as [extra E].
    rewrite E. cbn [errors]. rewrite <- app_assoc. eauto.
  - rewrite parse_loop_key by exact T.
    match goal with |- context [parse_loop _ ?s] => destruct (IH s) as [extra E] end.
    rewrite E. cbn [errors].
    destruct (dup_errors_prefix st (key_of ln)) as [d D]. rewrite D.
    rewrite <- !app_assoc. eauto.
Qed.

Lemma parse_loop_errors_in l st e :
  In e (errors st) -> In e (errors (parse_loop l st)).
Proof.
  intros H. destruct (parse_loop_errors_prefix l st) as [extra E].
  rewrite E. apply in_or_app. now left.
Qed.

(** *** Keys are only ever added *)

Lemma dict_get_set_same k v d : dict_get k (dict_set k v d) = Some v.
Proof.
  induction d as [|[k' v'] d IH]; cbn.
  - now rewrite String.eqb_refl.
  - destruct (String.eqb k' k) eqn:E; cbn; rewrite E; [reflexivity | exact IH].
Qed.

Lemma dict_get_set_other k k' v d : k' <> k -> dict_get k (dict_set k' v d) = dict_get k d.
Proof.
  intros N. induction d as [|[k0 v0] d IH]; cbn.
  - destruct (String.eqb_spec k' k); [contradiction | reflexivity].
  - destruct (String.eqb_spec k0 k') as [E|E]; cbn.
    + subst k0. destruct (String.eqb_spec k' k); [contradiction | reflexivity].
    + destruct (String.eqb k0 k); [reflexivity | exact IH].
Qed.

Lemma dict_mem_set k k' v d :
  dict_mem k (dict_set k' v d) = String.eqb k' k || dict_mem k d.
Proof.
  unfold dict_mem. destruct (String.eqb_spec k' k) as [E|E].
  - subst. now rewrite dict_get_set_same.
  - now rewrite dict_get_set_other.
Qed.

(** Membership after the loop splits into membership before it and
    membership in what the loop alone builds. *)
Lemma parse_loop_mem k l :
  forall st,
    dict_mem k (parsed (parse_loop l st)) =
    dict_mem k (parsed st) || dict_mem k (parsed (parse_loop l empty_state)).
Proof.
  induction l as [| ln rest T IH | ln rest T IH] using parse_ind; intros st.
  - cbn. now rewrite orb_false_r.
  - rewrite !parse_loop_skip by exact T. rewrite IH. cbn [parsed].
    rewrite (IH (mkState _ _ _)). cbn [parsed empty_state].
    unfold dict_mem at 3. cbn. reflexivity.
  - rewrite !parse_loop_key by exact T. rewrite IH. cbn [parsed].
    rewrite (IH (mkState (dict_set _ _ (parsed empty_state)) _ _)). cbn [parsed empty_state].
    rewrite !dict_mem_set. unfold dict_mem at 4. cbn [dict_get].
    rewrite orb_false_r.
    destruct (String.eqb (key_of ln) k), (dict_mem k (parsed st)); reflexivity.
Qed.

Lemma parse_loop_mem_mono k l st :
  dict_mem k (parsed st) = true -> dict_mem k (parsed (parse_loop l st)) = true.
Proof. intros H. now rewrite parse_loop_mem, H. Qed.

(** A key that no line of [l] carries keeps its value. *)
Lemma parse_loop_get_other k l :
  (forall ln, In ln l -> not_top_level ln = false -> key_of ln <> k) ->
  forall st, dict_get k (parsed (parse_loop l st)) = dict_get k (parsed st).
Proof.
  induction l as [| ln rest T IH | ln rest T IH] using parse_ind; intros H st.
  - reflexivity.
  - rewrite parse_loop_skip by exact T. rewrite IH; [reflexivity|].
    intros l' I. apply H. now right.
  - rewrite parse_loop_key by exact T. rewrite IH.
    + cbn [parsed]. apply dict_get_set_other. apply H; [now left | exact T].
    + intros l' I. apply H. right. now apply (after_key_incl ln rest).
Qed.

(** ** The structural validator *)

Lemma strip_blank s : String.eqb (strip s) "" = all_chars isspace s.
Proof.
  unfold strip. induction s as [|c s IH]; [reflexivity|].
  cbn [lstrip all_chars]. destruct (isspace c) eqn:Sc; [exact IH|].
  unfold rstrip. cbn [rstrip_by]. rewrite Sc.
  destruct (rstrip_by isspace s); reflexivity.
Qed.

Lemma all_chars_rstrip_by p s :
  (forall c, p c = true -> isspace c = true) ->
  all_chars isspace (rstrip_by p s) = all_chars isspace s.
Proof.
  intros Hp. induction s as [|c s IH]; [reflexivity|].
  cbn [rstrip_by all_chars].
  destruct (rstrip_by p s) as [|c' t] eqn:R.
  - rewrite <- IH. cbn [all_chars]. rewrite andb_true_r.
    destruct (p c) eqn:Pc; cbn [all_chars].
    + now rewrite (Hp c Pc).
    + now rewrite andb_true_r.
  - cbn [all_chars] in *. now rewrite IH.
Qed.

Lemma strip_rstrip_by p s :
  (forall c, p c = true -> isspace c = true) ->
  String.eqb (strip (rstrip_by p s)) "" = String.eqb (strip s) "".
Proof. intros Hp. rewrite !strip_blank. now apply all_chars_rstrip_by. Qed.

Lemma crlf_isspace c : char_in c (cr +++ nl) = true -> isspace c = true.
Proof.
  unfold cr, nl. cbn [String.append char_in]. rewrite orb_false_r. intros H.
  apply orb_true_iff in H.
  destruct H as [H|H]; apply Ascii.eqb_eq in H; subst c; reflexivity.
Qed.

(** Both places that cut the text into lines get the same lines. *)
Lemma order_lines_parser_lines text : order_lines text = parser_lines text.
Proof.
  unfold order_lines, parser_lines.
  induction (splitlines text) as [|ln tl IH]; [reflexivity|].
  cbn [map filter]. unfold rstrip_chars at 2.
  rewrite (strip_rstrip_by _ ln crlf_isspace).
  destruct (negb (String.eqb (strip ln) "")); cbn [map]; now rewrite IH.
Qed.

Lemma order_scan_closed_form lines :
  forall seen_order errs,
    order_scan lines seen_order errs =
    (seen_order ++ flat_map order_key lines, errs ++ flat_map order_defect lines).
Proof.
  induction lines as [|ln rest IH]; intros so errs; cbn [order_scan flat_map].
  - now rewrite !app_nil_r.
  - unfold order_key at 1, order_defect at 1, not_top_level.
    destruct (startswith ln " " || negb (str_in ":" ln)).
    + destruct (startswith (lstrip ln) "- "); cbn [negb andb app].
      * apply IH.
      * destruct (negb (startswith (strip ln) "#")); rewrite IH; cbn [app];
          now rewrite <- ?app_assoc.
    + rewrite IH. cbn [app]. now rewrite <- app_assoc.
Qed.

Lemma seen_order_of_flat_map lines : seen_order_of lines = flat_map order_key lines.
Proof. unfold seen_order_of. now rewrite order_scan_closed_form. Qed.

(** [validate_structural] on a text, through its error list. *)
Lemma validate_structural_closed_form text :
  validate_structural (Some text) =
  Ok (if negb (is_empty (structural_error_list text))
      then invalid (structural_error_list text) [] else valid).
Proof.
  unfold validate_structural, structural_error_list, errors_before_order,
    parsed_of, parse_errors_of, seen_order_of.
  destruct (_parse_yaml_subset (Some text)) as [pd pe]. cbn [fst snd].
  rewrite !order_scan_closed_form. cbn [fst app].
  destruct (negb (list_str_eqb (flat_map order_key (order_lines text)) (expected_seq pd)));
    [reflexivity|].
  now rewrite app_nil_r.
Qed.

Lemma structural_error_list_before text e :
  In e (errors_before_order text) -> In e (structural_error_list text).
Proof.
  intros H. unfold structural_error_list. apply in_or_app. left.
  apply in_or_app. now left.
Qed.

Lemma structural_error_list_parse text e :
  In e (parse_errors_of text) -> In e (structural_error_list text).
Proof.
  intros H. apply structural_error_list_before. unfold errors_before_order.
  apply in_or_app. left. apply in_or_app. left. apply in_or_app. now left.
Qed.

Lemma structural_error_list_unknown text e :
  In e (unknown_field_errors (parsed_of text)) -> In e (structural_error_list text).
Proof.
  intros H. apply structural_error_list_before. unfold errors_before_order.
  apply in_or_app. left. apply in_or_app. left. apply in_or_app. now right.
Qed.

Lemma validate_structural_invalid text e :
  In e (structural_error_list text) ->
  validate_structural (Some text) = Ok (invalid (structural_error_list text) []).
Proof.
  intros H. rewrite validate_structural_closed_form.
  destruct (structural_error_list text); [contradiction | reflexivity].
Qed.

Lemma validate_structural_valid_inv text :
  validate_structural (Some text) = Ok valid -> structural_error_list text = [].
Proof.
  rewrite validate_structural_closed_form.
  destruct (structural_error_list text); [reflexivity | discriminate].
Qed.

Lemma dict_mem_keys k d : dict_mem k d = true -> In k (dict_keys d).
Proof.
  unfold dict_mem. induction d as [|[k' v] d IH]; cbn; [discriminate|].
  destruct (String.eqb_spec k' k); [now left | intros H; right; now apply IH].
Qed.

Lemma parsed_of_parse_loop text :
  parsed_of text =
  parsed (parse_loop (parser_lines text)
            (mkState [] (if existsb (fun ln => startswith (strip ln) "#") (parser_lines text)
                         then [msg_comments] else []) [])).
Proof. reflexivity. Qed.

Lemma parse_errors_of_parse_loop text :
  parse_errors_of text =
  errors (parse_loop (parser_lines text)
            (mkState [] (if existsb (fun ln => startswith (strip ln) "#") (parser_lines text)
                         then [msg_comments] else []) [])).
Proof. reflexivity. Qed.

(** ** Lines of a text *)

Lemma splitlines_nil s : splitlines s = [] -> s = "".
Proof.
  destruct s as [|c s]; [reflexivity|]. cbn [splitlines].
  destruct (Ascii.eqb c "013"); [discriminate|].
  destruct (is_linebreak c); [discriminate|].
  destruct (splitlines s); discriminate.
Qed.

Lemma splitlines_cons c s :
  splitlines (String c s) =
  if Ascii.eqb c "013" then
    "" :: splitlines (match s with
                      | String c' s'' => if Ascii.eqb c' "010" then s'' else s
                      | EmptyString => s
                      end)
  else if is_linebreak c then "" :: splitlines s
  else match splitlines s with
       | [] => [String c ""]
       | l :: ls => String c l :: ls
       end.
Proof. reflexivity. Qed.

(** A line feed and more text after [base] add the lines of that text,
    after at most one empty line. *)
Lemma splitlines_app_nl n :
  forall base, String.length base <= n ->
  forall r, exists e,
      (e = [] \/ e = [""])
      /\ splitlines (base +++ nl +++ r) = splitlines base ++ e ++ splitlines r.
Proof.
  induction n as [n IH] using lt_wf_ind. intros base Hn r.
  destruct base as [|c b].
  - exists [""]. split; [now right | reflexivity].
  - cbn [String.length] in Hn. cbn [String.append].
    rewrite !splitlines_cons.
    destruct (Ascii.eqb c "013") eqn:Ecr.
    + destruct b as [|c' b'].
      * exists []. split; [now left | reflexivity].
      * cbn [String.append]. destruct (Ascii.eqb c' "010").
        -- destruct (IH (String.length b') ltac:(cbn in Hn; lia) b' (le_n _) r)
             as (e & He & E).
           exists e. split; [exact He|]. now rewrite E.
        -- destruct (IH (String.length (String c' b')) ltac:(lia) (String c' b') (le_n _) r)
             as (e & He & E).
           exists e. split; [exact He|]. cbn [String.append] in E. now rewrite E.
    + destruct (IH (String.length b) ltac:(lia) b (le_n _) r) as (e & He & E).
      destruct (is_linebreak c).
      * exists e. split; [exact He|]. now rewrite E.
      * destruct (splitlines b) as [|l ls] eqn:Sb.
        -- apply splitlines_nil in Sb. subst b. exists []. split; [now left|].
           reflexivity.
        -- exists e. split; [exact He|]. rewrite E. reflexivity.
Qed.

Lemma parser_lines_app_nl base r :
  parser_lines (base +++ nl +++ r) = parser_lines base ++ parser_lines r.
Proof.
  unfold parser_lines.
  destruct (splitlines_app_nl _ base (le_n _) r) as (e & He & E).
  rewrite E, !map_app, !filter_app.
  destruct He as [-> | ->]; reflexivity.
Qed.

Lemma cr_is_linebreak c : Ascii.eqb c "013" = true -> is_linebreak c = true.
Proof. intros H. apply Ascii.eqb_eq in H. now subst. Qed.

Lemma splitlines_one_line l :
  all_chars (fun c => negb (is_linebreak c)) l = true -> l <> "" -> splitlines l = [l].
Proof.
  induction l as [|c l IH]; intros A N; [contradiction|].
  cbn [all_chars] in A. apply andb_true_iff in A. destruct A as [Ac A].
  apply negb_true_iff in Ac. rewrite splitlines_cons.
  destruct (Ascii.eqb c "013") eqn:E; [apply cr_is_linebreak in E; congruence|].
  rewrite Ac. destruct l as [|c2 l2]; [reflexivity|].
  rewrite IH; [reflexivity | exact A | discriminate].
Qed.

Lemma rstrip_by_none p l :
  all_chars (fun c => negb (p c)) l = true -> rstrip_by p l = l.
Proof.
  induction l as [|c l IH]; intros A; [reflexivity|].
  cbn [all_chars] in A. apply andb_true_iff in A. destruct A as [Ac A].
  apply negb_true_iff in Ac. cbn [rstrip_by]. rewrite (IH A), Ac.
  destruct l; reflexivity.
Qed.

Lemma all_chars_impl (p q : ascii -> bool) l :
  (forall c, p c = true -> q c = true) -> all_chars p l = true -> all_chars q l = true.
Proof.
  intros H. induction l as [|c l IH]; cbn [all_chars]; [reflexivity|].
  intros A. apply andb_true_iff in A. destruct A as [Ac A].
  now rewrite (H c Ac), (IH A).
Qed.

Lemma crlf_is_linebreak c : char_in c (cr +++ nl) = true -> is_linebreak c = true.
Proof.
  unfold cr, nl. cbn [String.append char_in]. rewrite orb_false_r. intros H.
  apply orb_true_iff in H.
  destruct H as [H|H]; apply Ascii.eqb_eq in H; subst c; reflexivity.
Qed.

Lemma parser_lines_one_line l : line_ok l = true -> parser_lines l = [l].
Proof.
  unfold line_ok. intros H. apply andb_true_iff in H. destruct H as [A B].
  apply negb_true_iff in B.
  assert (N : l <> "") by (intros ->; discriminate B).
  unfold parser_lines. rewrite (splitlines_one_line l A N). cbn [map filter].
  unfold rstrip_chars. rewrite rstrip_by_none.
  - now rewrite strip_blank, B.
  - apply (all_chars_impl (fun c => negb (is_linebreak c))); [|exact A].
    intros c Hc. apply negb_true_iff in Hc. apply negb_true_iff.
    destruct (char_in c (cr +++ nl)) eqn:E; [|reflexivity].
    apply crlf_is_linebreak in E. congruence.
Qed.

(** The parser sees a text written line by line as those lines. *)
Lemma parser_lines_unlines ls :
  forallb line_ok ls = true -> parser_lines (unlines ls) = ls.
Proof.
  induction ls as [|l tl IH]; intros H; [reflexivity|].
  cbn [forallb] in H. apply andb_true_iff in H. destruct H as [Hl Ht].
  cbn [unlines]. rewrite parser_lines_app_nl, (parser_lines_one_line l Hl), (IH Ht).
  reflexivity.
Qed.

(** ** The end-to-end scenario (C1) *)

(** C1. On the raw text of the end-to-end scenario, whose array item
    [- Document: report.pdf, Page 1] stands at column 0, the parser reads
    the three fields without a defect, but the ordering loop of
    [validate_structural] takes the item line for a key line (it contains a
    colon and does not start with a space) and records the key
    [- Document]: the structural result is invalid with the order error and
    the semantic stage is not run.  With the item indented the same text
    passes both stages. *)
Theorem scenario_fails_order_check :
  _parse_yaml_subset (Some scenario_text) =
    ([("suggested_description", PStr "Annual report detailing emissions.");
      ("confidence", PStr "high");
      ("used_sources", PList [PStr "Document: report.pdf, Page 1"])], [])
  /\ seen_order_of (order_lines scenario_text) =
       ["suggested_description"; "confidence"; "used_sources"; "- Document"]
  /\ validate_structural (Some scenario_text) = Ok (invalid [msg_order] [])
  /\ validate_output (Some scenario_text) = Ok (invalid [msg_order] [], valid)
  /\ validate_output (Some scenario_text_indented) = Ok (valid, valid).
Proof. repeat split; vm_compute; reflexivity. Qed.

(** ** A null input (C4) *)

(** C4. For the input [None] the parser returns the defect [Input is None],
    but [validate_structural] then calls [splitlines] on [None] and raises;
    [validate_output] calls [validate_structural] first and so raises too,
    whatever the semantic validator is. *)
Theorem none_input_raises :
  _parse_yaml_subset None = ([], ["Input is None"])
  /\ validate_structural None = Raise AttributeError
  /\ validate_output None = Raise AttributeError
  /\ (forall sem, validate_output_with sem None = Raise AttributeError).
Proof. repeat split. Qed.

(** ** Short circuit of the orchestrator (C3) *)

Lemma parse_loop_extra_field st :
  dict_mem "extra_field" (parsed (parse_loop [extra_field_line] st)) = true.
Proof.
  rewrite parse_loop_key by reflexivity.
  change (after_key extra_field_line []) with (@nil string).
  change (key_of extra_field_line) with "extra_field".
  cbn [parse_loop parsed]. rewrite dict_mem_set. reflexivity.
Qed.

Lemma unknown_field_errors_in k d :
  In k (dict_keys d) ->
  str_mem k REQUIRED_FIELDS = false -> str_mem k OPTIONAL_FIELDS = false ->
  In (msg_unknown_field k) (unknown_field_errors d).
Proof.
  intros I R O. unfold unknown_field_errors. apply in_map. apply filter_In.
  split; [exact I|]. now rewrite R, O.
Qed.

(** C3. When the structural result of a text is invalid, [validate_output]
    returns it together with the placeholder [valid], whose error lists are
    empty, and it does so whatever function is passed as the semantic
    validator: that function is not called.  In particular a structurally
    valid text to which the line [extra_field: nope] is appended (the text
    followed by a line feed and that line, or any text whose lines are those
    of the valid text followed by that line) gets an invalid structural
    result that contains the unknown-field error, paired with the
    placeholder. *)
Theorem structural_failure_short_circuits :
  (forall text r,
      validate_structural (Some text) = Ok r -> is_valid r = false ->
      (forall sem, validate_output_with sem (Some text) = Ok (r, valid))
      /\ validate_output (Some text) = Ok (r, valid)
      /\ is_valid valid = true
      /\ structural_errors valid = [] /\ semantic_errors valid = [])
  /\ (forall base text,
        validate_structural (Some base) = Ok valid ->
        text = base +++ nl +++ extra_field_line +++ nl
        \/ parser_lines text = parser_lines base ++ [extra_field_line] ->
        exists errs,
          In (msg_unknown_field "extra_field") errs
          /\ validate_structural (Some text) = Ok (invalid errs [])
          /\ forall sem, validate_output_with sem (Some text) = Ok (invalid errs [], valid)).
Proof.
  assert (SC : forall text r,
             validate_structural (Some text) = Ok r -> is_valid r = false ->
             forall sem, validate_output_with sem (Some text) = Ok (r, valid)).
  { intros text r Hr Hv sem. unfold validate_output_with. rewrite Hr. cbn [bind].
    now rewrite Hv. }
  split.
  - intros text r Hr Hv. repeat split; try reflexivity.
    + now apply SC.
    + now apply SC.
  - intros base text _ Hl.
    assert (Hl' : parser_lines text = parser_lines base ++ [extra_field_line]).
    { destruct Hl as [-> | Hl]; [|exact Hl]. now rewrite parser_lines_app_nl. }
    exists (structural_error_list text).
    assert (I : In (msg_unknown_field "extra_field") (structural_error_list text)).
    { apply structural_error_list_unknown. apply unknown_field_errors_in; try reflexivity.
      apply dict_mem_keys. rewrite parsed_of_parse_loop, Hl'.
      rewrite parse_loop_app by reflexivity. apply parse_loop_extra_field. }
    pose proof (validate_structural_invalid _ _ I) as V.
    repeat split; [exact I | exact V |].
    intros sem. now apply SC.
Qed.

Lemma structural_failure_short_circuits_witness :
  validate_output (Some "Here is my answer") =
    Ok (invalid ["Unexpected line format: 'Here is my answer'";
                 "Missing required field 'suggested_description'";
                 "Missing required field 'confidence'";
                 "Missing required field 'used_sources'";
                 "Unexpected non-key line: 'Here is my answer'"] [], valid)
  /\ exists errs,
      In (msg_unknown_field "extra_field") errs
      /\ validate_structural (Some (scenario_text_indented +++ extra_field_line +++ nl))
         = Ok (invalid errs []).
Proof.
  split.
  - apply (proj1 structural_failure_short_circuits "Here is my answer");
      vm_compute; reflexivity.
  - destruct (proj2 structural_failure_short_circuits
                    scenario_text_indented
                    (scenario_text_indented +++ extra_field_line +++ nl))
      as (errs & I & V & _);
      [vm_compute; reflexivity | right; vm_compute; reflexivity |].
    exists errs. split; [exact I | exact V].
Defined.

(** ** Duplicate keys (C8) *)

Lemma key_line_inv ln :
  key_line ln = true -> not_top_level ln = false /\ dash_led ln = false.
Proof.
  unfold key_line. intros H. apply andb_true_iff in H. destruct H as [H1 H2].
  split; [now apply negb_true_iff in H1 | now apply negb_true_iff in H2].
Qed.

Lemma key_line_boundary ln rest : key_line ln = true -> block_boundary (ln :: rest) = true.
Proof. intros H. apply key_line_inv in H. cbn [block_boundary]. now rewrite (proj2 H). Qed.

(** C8. Let the same field name stand on two key lines [l1] and [l2] of a
    text (lines at column 0 with a colon that are not array items), [l2]
    being the last line that carries the name.  Then the parser records the
    duplicate-key defect for that name, the value stored for the name is the
    one derived from [l2] and the array items under it, and the text does
    not validate structurally. *)
Theorem duplicate_key_recorded (text : string) (pre mid post : list string) (l1 l2 : string) :
  parser_lines text = pre ++ l1 :: mid ++ l2 :: post ->
  key_line l1 = true ->
  key_line l2 = true ->
  key_of l1 = key_of l2 ->
  (forall ln, In ln post -> not_top_level ln = false -> key_of ln <> key_of l2) ->
  In (msg_duplicate (key_of l2)) (parse_errors_of text)
  /\ dict_get (key_of l2) (parsed_of text) = Some (field_value l2 post)
  /\ exists errs,
      validate_structural (Some text) = Ok (invalid errs [])
      /\ In (msg_duplicate (key_of l2)) errs.
Proof.
  intros Hl K1 K2 Hk Hlast.
  pose proof (key_line_inv _ K1) as [T1 _].
  pose proof (key_line_inv _ K2) as [T2 _].
  remember (mkState [] (if existsb (fun ln => startswith (strip ln) "#") (parser_lines text)
                        then [msg_comments] else []) []) as st0 eqn:Hst0.
  assert (Hrun : parse_loop (parser_lines text) st0 =
                 parse_loop (l2 :: post) (parse_loop (l1 :: mid) (parse_loop pre st0))).
  { rewrite Hl.
    change (pre ++ l1 :: mid ++ l2 :: post) with (pre ++ (l1 :: mid) ++ l2 :: post).
    rewrite parse_loop_app.
    - rewrite parse_loop_app; [reflexivity | now apply key_line_boundary].
    - cbn [app]. now apply key_line_boundary. }
  set (st1 := parse_loop pre st0) in *.
  set (st2 := parse_loop (l1 :: mid) st1) in *.
  assert (M : dict_mem (key_of l2) (parsed st2) = true).
  { unfold st2. rewrite parse_loop_key by exact T1.
    apply parse_loop_mem_mono. cbn [parsed]. rewrite dict_mem_set, Hk.
    now rewrite String.eqb_refl. }
  assert (D : In (msg_duplicate (key_of l2)) (parse_errors_of text)).
  { rewrite parse_errors_of_parse_loop, <- Hst0, Hrun.
    rewrite parse_loop_key by exact T2.
    apply parse_loop_errors_in. cbn [errors]. unfold dup_errors. rewrite M.
    apply in_or_app. left. apply in_or_app. right. now left. }
  split; [exact D|]. split.
  - rewrite parsed_of_parse_loop, <- Hst0, Hrun.
    rewrite parse_loop_key by exact T2.
    rewrite parse_loop_get_other.
    + cbn [parsed]. apply dict_get_set_same.
    + intros ln I. apply Hlast. now apply (after_key_incl l2 post).
  - exists (structural_error_list text).
    pose proof (structural_error_list_parse _ _ D) as I.
    split; [now apply (validate_structural_invalid _ _ I) | exact I].
Qed.

Lemma duplicate_key_recorded_witness :
  In "Duplicate key 'warnings'"
     (parse_errors_of ("warnings: one" +++ nl +++ "confidence: low" +++ nl
                       +++ "warnings:" +++ nl +++ "- a" +++ nl +++ "-b" +++ nl
                       +++ "  - c" +++ nl +++ "confidence_note: x" +++ nl))
  /\ dict_get "warnings"
       (parsed_of ("warnings: one" +++ nl +++ "confidence: low" +++ nl
                   +++ "warnings:" +++ nl +++ "- a" +++ nl +++ "-b" +++ nl
                   +++ "  - c" +++ nl +++ "confidence_note: x" +++ nl))
     = Some (PList [PStr "a"; PStr "c"]).
Proof.
  pose proof (duplicate_key_recorded
                ("warnings: one" +++ nl +++ "confidence: low" +++ nl
                 +++ "warnings:" +++ nl +++ "- a" +++ nl +++ "-b" +++ nl
                 +++ "  - c" +++ nl +++ "confidence_note: x" +++ nl)
                [] ["confidence: low"] ["- a"; "-b"; "  - c"; "confidence_note: x"]
                "warnings: one" "warnings:") as H.
  destruct H as (D & G & _).
  - vm_compute; reflexivity.
  - vm_compute; reflexivity.
  - vm_compute; reflexivity.
  - vm_compute; reflexivity.
  - intros ln I T.
    cbn [In] in I. destruct I as [I|[I|[I|[I|[]]]]]; subst ln;
      vm_compute; discriminate.
  - split; [exact D | exact G].
Defined.

(** ** The array-block look-ahead (C2) *)

Lemma takewhile_dropwhile {A : Type} (p : A -> bool) l :
  l = takewhile p l ++ dropwhile p l.
Proof.
  induction l as [|x tl IH]; [reflexivity|]. cbn [takewhile dropwhile].
  destruct (p x); [cbn [app]; now rewrite <- IH | reflexivity].
Qed.

Lemma takewhile_all {A : Type} (p : A -> bool) l :
  Forall (fun x => p x = true) (takewhile p l).
Proof.
  induction l as [|x tl IH]; cbn [takewhile]; [constructor|].
  destruct (p x) eqn:E; [now constructor | constructor].
Qed.

Lemma dropwhile_boundary l : block_boundary (dropwhile dash_led l) = true.
Proof.
  induction l as [|x tl IH]; [reflexivity|]. cbn [dropwhile].
  destruct (dash_led x) eqn:E; [exact IH|]. cbn [block_boundary]. now rewrite E.
Qed.

(** The claim as worded fails: an item line at column 0 is not indented,
    and the parser collects it all the same. *)
Lemma lookahead_takes_unindented_item :
  ~ (forall rest, lookahead rest [] [] = lookahead_spec rest [] [])
  /\ indented "- a" = false
  /\ lookahead ["- a"] [] [] = (["a"], [], [])
  /\ lookahead_spec ["- a"] [] [] = ([], [], ["- a"])
  /\ _parse_yaml_subset (Some ("used_sources:" +++ nl +++ "- a" +++ nl))
     = ([("used_sources", PList [PStr "a"])], []).
Proof.
  split; [|repeat split; vm_compute; reflexivity].
  intros H. specialize (H ["- a"]). vm_compute in H. discriminate.
Qed.

(** C2, as the code has it.  On a key line whose trimmed value is empty the
    look-ahead takes the longest run [taken] of following lines that start
    with a dash once their leading whitespace is stripped, indented or not.
    Of these, the lines with a space after the dash give the items (their
    trimmed text, in order); the others each give the defect
    [Invalid array item format] and are skipped without ending the run.  The
    first line that does not start with a dash ends the block and is the
    next line of the top-level loop.  With no item the stored value is
    [None], which is not the empty list that [key: []] stores. *)
Theorem array_block_lookahead (ln : string) (rest : list string) (st : pstate) :
  not_top_level ln = false ->
  value_of ln = "" ->
  let taken := takewhile dash_led rest in
  let left := dropwhile dash_led rest in
  let items := map item_text (filter item_line taken) in
  parse_loop (ln :: rest) st =
    parse_loop left
      (mkState (dict_set (key_of ln) (if is_empty items then PNone else PList (map PStr items))
                         (parsed st))
               (dup_errors st (key_of ln) ++ map msg_bad_item (filter bad_item_line taken))
               (seen_keys st ++ [key_of ln]))
  /\ rest = taken ++ left
  /\ Forall (fun l => dash_led l = true) taken
  /\ block_boundary left = true
  /\ PNone <> PList []
  /\ (forall ln0, not_top_level ln0 = false -> value_of ln0 = "[]" ->
       parse_loop (ln0 :: rest) st =
         parse_loop rest
           (mkState (dict_set (key_of ln0) (PList []) (parsed st))
                    (dup_errors st (key_of ln0)) (seen_keys st ++ [key_of ln0]))).
Proof.
  intros T V taken left items. repeat split.
  - rewrite parse_loop_key by exact T.
    unfold after_key, field_value, item_defects. rewrite V. reflexivity.
  - apply takewhile_dropwhile.
  - apply takewhile_all.
  - apply dropwhile_boundary.
  - discriminate.
  - intros ln0 T0 V0. rewrite parse_loop_key by exact T0.
    unfold after_key, field_value, item_defects. rewrite V0. cbn.
    now rewrite app_nil_r.
Qed.

Lemma array_block_lookahead_witness :
  parse_loop ["used_sources:"; "- a"; "   -  b  "; "-c"; "- "; "warnings: []"; " - d"] empty_state
  = parse_loop ["warnings: []"; " - d"]
      (mkState [("used_sources", PList [PStr "a"; PStr "b"; PStr ""])]
               ["Invalid array item format: '-c'"] ["used_sources"]).
Proof.
  apply (array_block_lookahead "used_sources:"
           ["- a"; "   -  b  "; "-c"; "- "; "warnings: []"; " - d"] empty_state);
    vm_compute; reflexivity.
Defined.

(** ** The order check (C5) *)

Lemma list_str_eqb_true l1 l2 : list_str_eqb l1 l2 = true <-> l1 = l2.
Proof.
  unfold list_str_eqb. destruct (list_eq_dec string_dec l1 l2); split; congruence.
Qed.

Lemma valid_seen_order text :
  validate_structural (Some text) = Ok valid ->
  seen_order_of (order_lines text) = expected_seq (parsed_of text).
Proof.
  intros H. apply validate_structural_valid_inv in H.
  unfold structural_error_list in H. apply app_eq_nil in H. destruct H as [_ H].
  apply list_str_eqb_true.
  destruct (list_str_eqb (seen_order_of (order_lines text)) (expected_seq (parsed_of text)));
    [reflexivity | discriminate].
Qed.

Lemma expected_seq_NoDup d : NoDup (expected_seq d).
Proof.
  unfold expected_seq. apply NoDup_filter. unfold EXPECTED_ORDER.
  repeat constructor; cbn; intuition discriminate.
Qed.

Lemma swap_changes_nodup_list (p a m b q : list string) :
  a <> [] -> b <> [] ->
  NoDup (p ++ a ++ m ++ b ++ q) ->
  p ++ b ++ m ++ a ++ q <> p ++ a ++ m ++ b ++ q.
Proof.
  intros Ha Hb N E. apply app_inv_head in E.
  destruct a as [|x a]; [congruence|]. destruct b as [|y b]; [congruence|].
  cbn [app] in E. injection E as Exy _. subst y.
  apply NoDup_app_remove_l in N. cbn [app] in N.
  apply NoDup_cons_iff in N. destruct N as [N _]. apply N.
  apply in_or_app. right. apply in_or_app. right. now left.
Qed.

Lemma field_block_inv blk :
  field_block blk = true ->
  exists kl items, blk = kl :: items /\ key_line kl = true.
Proof.
  destruct blk as [|kl items]; cbn [field_block]; [discriminate|].
  intros H. apply andb_true_iff in H. destruct H as [H _]. eauto.
Qed.

Lemma field_block_order_keys blk :
  field_block blk = true -> flat_map order_key blk <> [].
Proof.
  intros H. apply field_block_inv in H. destruct H as (kl & items & -> & K).
  apply key_line_inv in K. destruct K as [T _].
  cbn [flat_map]. unfold order_key at 1. rewrite T. discriminate.
Qed.

Lemma field_block_boundary blk l :
  field_block blk = true -> block_boundary (blk ++ l) = true.
Proof.
  intros H. apply field_block_inv in H. destruct H as (kl & items & -> & K).
  cbn [app]. now apply key_line_boundary.
Qed.

Lemma block_boundary_app l1 l2 :
  block_boundary l1 = true -> block_boundary l2 = true -> block_boundary (l1 ++ l2) = true.
Proof. destruct l1; cbn [app block_boundary]; auto. Qed.

Lemma parse_loop_mem_app k l1 l2 :
  block_boundary l2 = true ->
  dict_mem k (parsed (parse_loop (l1 ++ l2) empty_state)) =
  dict_mem k (parsed (parse_loop l1 empty_state))
  || dict_mem k (parsed (parse_loop l2 empty_state)).
Proof. intros B. rewrite parse_loop_app by exact B. apply parse_loop_mem. Qed.

Lemma parsed_of_mem k text :
  dict_mem k (parsed_of text) =
  dict_mem k (parsed (parse_loop (parser_lines text) empty_state)).
Proof. rewrite parsed_of_parse_loop, parse_loop_mem. reflexivity. Qed.

(** Exchanging two blocks leaves the set of parsed keys as it is. *)
Lemma swap_blocks_same_keys k (pre A mid B post : list string) :
  field_block A = true -> field_block B = true ->
  block_boundary mid = true -> block_boundary post = true ->
  dict_mem k (parsed (parse_loop (pre ++ B ++ mid ++ A ++ post) empty_state)) =
  dict_mem k (parsed (parse_loop (pre ++ A ++ mid ++ B ++ post) empty_state)).
Proof.
  intros FA FB Bm Bp.
  rewrite !parse_loop_mem_app;
    auto using field_block_boundary, block_boundary_app.
  destruct (dict_mem k (parsed (parse_loop pre empty_state))),
           (dict_mem k (parsed (parse_loop A empty_state))),
           (dict_mem k (parsed (parse_loop mid empty_state))),
           (dict_mem k (parsed (parse_loop B empty_state))),
           (dict_mem k (parsed (parse_loop post empty_state))); reflexivity.
Qed.

(** *** No other structural error reads like the order error *)

Lemma not_order_neq e : not_order e -> e <> msg_order.
Proof. intros H E. subst e. discriminate H. Qed.

Lemma parse_loop_not_order l :
  forall st, Forall not_order (errors st) -> Forall not_order (errors (parse_loop l st)).
Proof.
  induction l as [| ln rest T IH | ln rest T IH] using parse_ind; intros st F.
  - exact F.
  - rewrite parse_loop_skip by exact T. apply IH. cbn [errors].
    apply Forall_app. split; [exact F|]. repeat constructor.
  - rewrite parse_loop_key by exact T. apply IH. cbn [errors].
    apply Forall_app. split.
    + unfold dup_errors. destruct (dict_mem (key_of ln) (parsed st)); [|exact F].
      apply Forall_app. split; [exact F|]. repeat constructor.
    + unfold item_defects.
      destruct (negb (String.eqb (value_of ln) "[]") && String.eqb (value_of ln) "");
        [|constructor].
      apply Forall_forall. intros e I. apply in_map_iff in I.
      destruct I as (x & <- & _). reflexivity.
Qed.

Lemma used_sources_item_errors_not_order val :
  forall idx, Forall not_order (used_sources_item_errors idx val).
Proof.
  induction val as [|item tl IH]; intros idx; cbn [used_sources_item_errors]; [constructor|].
  apply Forall_app. split; [|apply IH].
  destruct (not_nonblank_str item); repeat constructor.
Qed.

Lemma warnings_item_errors_not_order val :
  forall idx, Forall not_order (warnings_item_errors idx val).
Proof.
  induction val as [|item tl IH]; intros idx; cbn [warnings_item_errors]; [constructor|].
  apply Forall_app. split; [|apply IH].
  destruct (negb (isinstance_str item)); repeat constructor.
Qed.

Lemma type_errors_not_order d : Forall not_order (type_errors d).
Proof.
  unfold type_errors. repeat (apply Forall_app; split).
  - destruct (dict_get "suggested_description" d) as [v|]; [|constructor].
    destruct (negb (isinstance_str v)); repeat constructor.
  - destruct (dict_get "confidence" d) as [v|]; [|constructor].
    destruct (negb (isinstance_str v)); repeat constructor.
  - destruct (dict_get "used_sources" d) as [[ | | |val| ]|]; repeat constructor.
    apply Forall_app. split; [|apply used_sources_item_errors_not_order].
    destruct (List.length val =? 0)%nat; repeat constructor.
  - destruct (dict_get "warnings" d) as [[ | | |val| ]|]; repeat constructor.
    apply warnings_item_errors_not_order.
Qed.

Lemma errors_before_order_not_order text : Forall not_order (errors_before_order text).
Proof.
  unfold errors_before_order.
  apply Forall_app; split; [apply Forall_app; split; [apply Forall_app; split|]|].
  - rewrite parse_errors_of_parse_loop. apply parse_loop_not_order. cbn [errors].
    destruct (existsb _ _); repeat constructor.
  - unfold unknown_field_errors. apply Forall_forall. intros e I.
    apply in_map_iff in I. destruct I as (x & <- & _). reflexivity.
  - unfold missing_field_errors. apply Forall_forall. intros e I.
    apply in_map_iff in I. destruct I as (x & <- & _). reflexivity.
  - apply type_errors_not_order.
Qed.

Lemma order_defect_not_order lines : Forall not_order (flat_map order_defect lines).
Proof.
  induction lines as [|ln rest IH]; cbn [flat_map]; [constructor|].
  apply Forall_app. split; [|exact IH].
  unfold order_defect. destruct (not_top_level ln); [|constructor].
  destruct (startswith (lstrip ln) "- "); [constructor|].
  destruct (negb false && negb (startswith (strip ln) "#")); repeat constructor.
Qed.

Lemma count_occ_not_order l :
  Forall not_order l -> count_occ string_dec l msg_order = 0.
Proof.
  intros F. apply count_occ_not_In. intros I.
  rewrite Forall_forall in F. now apply (not_order_neq _ (F _ I)).
Qed.

(** The order error stands in the error list once when the orders differ,
    and not at all when they agree. *)
Lemma count_order_error text :
  count_occ string_dec (structural_error_list text) msg_order =
  if list_str_eqb (seen_order_of (order_lines text)) (expected_seq (parsed_of text))
  then 0 else 1.
Proof.
  unfold structural_error_list. rewrite !count_occ_app.
  rewrite (count_occ_not_order _ (errors_before_order_not_order text)).
  rewrite (count_occ_not_order _ (order_defect_not_order (order_lines text))).
  destruct (list_str_eqb _ _); reflexivity.
Qed.

Lemma order_mismatch_reported text :
  seen_order_of (order_lines text) <> expected_seq (parsed_of text) ->
  validate_structural (Some text) = Ok (invalid (structural_error_list text) [])
  /\ In msg_order (structural_error_list text)
  /\ count_occ string_dec (structural_error_list text) msg_order = 1.
Proof.
  intros N.
  assert (C : count_occ string_dec (structural_error_list text) msg_order = 1).
  { rewrite count_order_error.
    destruct (list_str_eqb _ _) eqn:E; [|reflexivity].
    apply list_str_eqb_true in E. contradiction. }
  assert (I : In msg_order (structural_error_list text)).
  { apply (count_occ_In string_dec). rewrite C. lia. }
  split; [now apply (validate_structural_invalid _ _ I) | now split].
Qed.

(** C5. Take a text that validates structurally and exchange two of its
    field blocks (a key line with the array items under it), all other
    lines staying where they are.  The result is invalid and its error list
    contains the order error, exactly once.  More generally, whenever the
    key order read from the lines differs from the expected order of the
    parsed fields, the structural result is invalid and holds the order
    error exactly once. *)
Theorem swapped_fields_rejected (text text' : string) (pre A mid B post : list string) :
  (parser_lines text = pre ++ A ++ mid ++ B ++ post ->
   parser_lines text' = pre ++ B ++ mid ++ A ++ post ->
   field_block A = true -> field_block B = true ->
   block_boundary mid = true -> block_boundary post = true ->
   validate_structural (Some text) = Ok valid ->
   exists errs,
     validate_structural (Some text') = Ok (invalid errs [])
     /\ In msg_order errs
     /\ count_occ string_dec errs msg_order = 1)
  /\ (seen_order_of (order_lines text) <> expected_seq (parsed_of text) ->
      exists errs,
        validate_structural (Some text) = Ok (invalid errs [])
        /\ In msg_order errs
        /\ count_occ string_dec errs msg_order = 1).
Proof.
  split.
  - intros Hl Hl' FA FB Bm Bp V.
    exists (structural_error_list text'). apply order_mismatch_reported.
    assert (Ex : expected_seq (parsed_of text') = expected_seq (parsed_of text)).
    { unfold expected_seq. apply filter_ext. intros k.
      rewrite !parsed_of_mem, Hl, Hl'. now apply swap_blocks_same_keys. }
    rewrite Ex, <- (valid_seen_order text V).
    rewrite !seen_order_of_flat_map, !order_lines_parser_lines, Hl, Hl'.
    rewrite !flat_map_app.
    apply swap_changes_nodup_list; auto using field_block_order_keys.
    rewrite <- !flat_map_app, <- Hl, <- order_lines_parser_lines,
      <- seen_order_of_flat_map, (valid_seen_order text V).
    apply expected_seq_NoDup.
  - intros N. exists (structural_error_list text). now apply order_mismatch_reported.
Qed.

Lemma swapped_fields_rejected_witness :
  exists errs,
    validate_structural
      (Some ("suggested_description: An annual report on emissions." +++ nl
             +++ "used_sources:" +++ nl +++ "  - report.pdf: page 1" +++ nl
             +++ "confidence: high" +++ nl
             +++ "warnings: []" +++ nl))
    = Ok (invalid errs [])
    /\ In msg_order errs
    /\ count_occ string_dec errs msg_order = 1.
Proof.
  apply (proj1 (swapped_fields_rejected
                  ("suggested_description: An annual report on emissions." +++ nl
                   +++ "confidence: high" +++ nl
                   +++ "used_sources:" +++ nl +++ "  - report.pdf: page 1" +++ nl
                   +++ "warnings: []" +++ nl)
                  ("suggested_description: An annual report on emissions." +++ nl
                   +++ "used_sources:" +++ nl +++ "  - report.pdf: page 1" +++ nl
                   +++ "confidence: high" +++ nl
                   +++ "warnings: []" +++ nl)
                  ["suggested_description: An annual report on emissions."]
                  ["confidence: high"]
                  []
                  ["used_sources:"; "  - report.pdf: page 1"]
                  ["warnings: []"]));
    vm_compute; reflexivity.
Defined.

(** ** The semantic gate (C6) *)

Lemma search_from_app r pre :
  forall prev s,
    rmatch r (last_before prev pre) s (fun _ _ => true) = true ->
    search_from r prev (pre +++ s) = true.
Proof.
  induction pre as [|c pre IH]; intros prev s H; cbn [String.append last_before] in *.
  - destruct s; cbn [search_from]; now rewrite H.
  - cbn [search_from]. rewrite (IH (Some c) s H). apply orb_true_r.
Qed.

Lemma rmatch_lits w :
  forall w' prev rest k,
    lower w' = lower w ->
    rmatch (lits w) prev (w' +++ rest) k = k (last_before prev w') rest.
Proof.
  induction w as [|c w IH]; intros w' prev rest k H; destruct w' as [|c' w'];
    cbn [lower] in H; try discriminate.
  - reflexivity.
  - injection H as Hc Hw.
    cbn [lits rmatch String.append last_before atom_match].
    rewrite Hc, Ascii.eqb_refl. cbn [andb]. now apply IH.
Qed.

Lemma is_word_lower c : is_word (lower_char c) = is_word c.
Proof. destruct c as [[] [] [] [] [] [] [] []]; reflexivity. Qed.

Lemma is_word_not_space c : is_word c = true -> isspace c = false.
Proof. destruct c as [[] [] [] [] [] [] [] []]; cbv; congruence. Qed.

Lemma all_word_lower w :
  forall w', lower w' = lower w -> all_chars is_word w = true -> all_chars is_word w' = true.
Proof.
  induction w as [|c w IH]; intros w' H A; destruct w' as [|c' w'];
    cbn [lower] in H; try discriminate.
  - reflexivity.
  - injection H as Hc Hw. cbn [all_chars] in *.
    apply andb_true_iff in A. destruct A as [A1 A2].
    rewrite <- is_word_lower, Hc, is_word_lower, A1. cbn [andb]. now apply IH.
Qed.

Lemma last_before_word w :
  forall prev, w <> "" -> all_chars is_word w = true ->
               is_word_opt (last_before prev w) = true.
Proof.
  induction w as [|c w IH]; intros prev N A; [contradiction|].
  cbn [all_chars last_before] in *. apply andb_true_iff in A. destruct A as [A1 A2].
  destruct w as [|c2 w2]; [exact A1|].
  apply IH; [discriminate | exact A2].
Qed.

(** [\bW\b] matches wherever a spelling of [W] stands as a whole word. *)
Lemma word_pat_search w w' pre post :
  w <> "" -> all_chars is_word w = true ->
  lower w' = lower w ->
  whole_word pre post ->
  re_search (word_pat w) (pre +++ w' +++ post) = true.
Proof.
  intros N A L [Wpre Wpost].
  assert (A' : all_chars is_word w' = true) by now apply (all_word_lower w).
  assert (N' : w' <> "").
  { intros E. subst w'. destruct w; [contradiction | discriminate]. }
  unfold re_search. apply search_from_app.
  unfold word_pat. cbn [seqs rmatch]. rewrite (rmatch_lits w w') by exact L.
  cbn [rmatch]. unfold word_boundary.
  rewrite Wpre, Wpost, (last_before_word w' _ N' A').
  destruct w' as [|c' w2]; [contradiction|].
  cbn [String.append head_char is_word_opt all_chars] in *.
  apply andb_true_iff in A'. destruct A' as [A1 _]. rewrite A1. reflexivity.
Qed.

Lemma forbidden_word_pattern w :
  In w FORBIDDEN_WORDS ->
  In (word_pat w) FORBIDDEN_PHRASES /\ w <> "" /\ all_chars is_word w = true.
Proof.
  unfold FORBIDDEN_WORDS, FORBIDDEN_PHRASES. cbn [In]. intros H.
  repeat (destruct H as [<- | H];
          [split; [cbn [In]; tauto | split; [discriminate | reflexivity]] |]).
  contradiction.
Qed.

Lemma all_chars_app p s t : all_chars p (s +++ t) = all_chars p s && all_chars p t.
Proof.
  induction s as [|c s IH]; cbn [String.append all_chars]; [reflexivity|].
  now rewrite IH, andb_assoc.
Qed.

Lemma word_not_blank w : w <> "" -> all_chars is_word w = true -> all_chars isspace w = false.
Proof.
  destruct w as [|c w]; [contradiction|]. intros _ A. cbn [all_chars] in *.
  apply andb_true_iff in A. destruct A as [A _].
  now rewrite (is_word_not_space c A).
Qed.

(** [validate_semantic] through its error list. *)
Lemma validate_semantic_closed_form d l :
  confidence_errors (get_default "confidence" d PNone) = Ok l ->
  validate_semantic d =
  Ok (if negb (is_empty (semantic_error_list d))
      then invalid [] (semantic_error_list d) else valid).
Proof.
  intros H. unfold validate_semantic, semantic_error_list. rewrite H. reflexivity.
Qed.

Lemma dict_mem_get k d : dict_mem k d = true -> exists v, dict_get k d = Some v.
Proof. unfold dict_mem. destruct (dict_get k d) as [v|]; [eauto | discriminate]. Qed.

Lemma structurally_valid_confidence d :
  structurally_valid d = true -> exists c, dict_get "confidence" d = Some (PStr c).
Proof.
  unfold structurally_valid. intros H.
  destruct (unknown_field_errors d ++ missing_field_errors d ++ type_errors d) eqn:E;
    [|discriminate].
  apply app_eq_nil in E. destruct E as [_ E].
  apply app_eq_nil in E. destruct E as [Em Et].
  assert (M : dict_mem "confidence" d = true).
  { unfold missing_field_errors, REQUIRED_FIELDS in Em. cbn [filter] in Em.
    destruct (dict_mem "confidence" d); [reflexivity|].
    destruct (negb (dict_mem "suggested_description" d)); cbn in Em; discriminate. }
  destruct (dict_mem_get _ _ M) as [v Hv].
  unfold type_errors in Et. apply app_eq_nil in Et. destruct Et as [_ Et].
  apply app_eq_nil in Et. destruct Et as [Et _]. rewrite Hv in Et.
  destruct v; cbn in Et; try discriminate. eauto.
Qed.

Lemma validate_semantic_rejects d e :
  structurally_valid d = true ->
  In e (semantic_error_list d) ->
  validate_semantic d = Ok (invalid [] (semantic_error_list d)).
Proof.
  intros V I. destruct (structurally_valid_confidence d V) as [c Hc].
  rewrite (validate_semantic_closed_form d
             (if negb (str_mem c CONFIDENCE_ALLOWED) then [msg_confidence] else [])).
  - destruct (semantic_error_list d); [contradiction | reflexivity].
  - unfold get_default. rewrite Hc. reflexivity.
Qed.

(** C6. For a parsed document that passes the structural checks,
    [validate_semantic] returns an invalid result holding
    - the trivially-generic error when the description is
      [This asset contains data];
    - the forbidden-concept error when the description contains, as a whole
      word and in any letter case, one of the one-word forbidden terms
      ([LLM], [AI], ...), whatever stands around it;
    - the closed-set error when [confidence] is [very_high], and more
      generally when it is none of [low], [medium], [high];
    - the per-index forbidden-source error when [used_sources] is
      [[general knowledge]]. *)
Theorem semantic_gate_rejects (d : dict) :
  structurally_valid d = true ->
  (dict_get "suggested_description" d = Some (PStr "This asset contains data") ->
   exists errs, validate_semantic d = Ok (invalid [] errs) /\ In msg_desc_generic errs)
  /\ (forall w w' pre post,
        In w FORBIDDEN_WORDS -> lower w' = lower w -> whole_word pre post ->
        dict_get "suggested_description" d = Some (PStr (pre +++ w' +++ post)) ->
        exists errs, validate_semantic d = Ok (invalid [] errs) /\ In msg_desc_forbidden errs)
  /\ (forall c,
        dict_get "confidence" d = Some (PStr c) ->
        c = "very_high" \/ (c <> "low" /\ c <> "medium" /\ c <> "high") ->
        exists errs, validate_semantic d = Ok (invalid [] errs) /\ In msg_confidence errs)
  /\ (dict_get "used_sources" d = Some (PList [PStr "general knowledge"]) ->
      exists errs, validate_semantic d = Ok (invalid [] errs)
                   /\ In (msg_source_forbidden 0) errs).
Proof.
  intros V.
  assert (R : forall e, In e (semantic_error_list d) ->
                        exists errs, validate_semantic d = Ok (invalid [] errs) /\ In e errs).
  { intros e I. exists (semantic_error_list d). split; [|exact I].
    now apply (validate_semantic_rejects d e). }
  repeat split.
  - intros H. apply R. unfold semantic_error_list, get_default. rewrite H.
    apply in_or_app. left. apply in_or_app. left. vm_compute. now left.
  - intros w w' pre post Iw L W H. apply R.
    unfold semantic_error_list, get_default. rewrite H.
    apply in_or_app. left. apply in_or_app. left.
    destruct (forbidden_word_pattern w Iw) as (Ip & Nw & Aw).
    assert (Aw' : all_chars is_word w' = true) by now apply (all_word_lower w).
    assert (Nw' : w' <> "").
    { intros E. subst w'. destruct w; [contradiction | discriminate]. }
    unfold description_errors. rewrite strip_blank, !all_chars_app.
    rewrite (word_not_blank w' Nw' Aw'), andb_false_r. cbn [andb].
    assert (S : existsb (fun pat => re_search pat (pre +++ w' +++ post)) FORBIDDEN_PHRASES
                = true).
    { apply existsb_exists. exists (word_pat w). split; [exact Ip|].
      now apply word_pat_search. }
    rewrite S. apply in_or_app. right. apply in_or_app. right.
    apply in_or_app. right. apply in_or_app. left. now left.
  - intros c H Hc. apply R. unfold semantic_error_list, get_default. rewrite H.
    apply in_or_app. left. apply in_or_app. right.
    cbn [confidence_errors].
    assert (M : str_mem c CONFIDENCE_ALLOWED = false).
    { destruct Hc as [-> | (N1 & N2 & N3)]; [reflexivity|].
      unfold str_mem, CONFIDENCE_ALLOWED. cbn [existsb].
      apply String.eqb_neq in N1, N2, N3. now rewrite N1, N2, N3. }
    rewrite M. now left.
  - intros H. apply R. unfold semantic_error_list, get_default. rewrite H.
    apply in_or_app. right. vm_compute. now left.
Qed.

Lemma semantic_gate_rejects_witness :
  (exists errs,
      validate_semantic
        [("suggested_description", PStr "This asset contains data");
         ("confidence", PStr "very_high");
         ("used_sources", PList [PStr "general knowledge"])] = Ok (invalid [] errs)
      /\ In msg_desc_generic errs)
  /\ (exists errs,
         validate_semantic
           [("suggested_description", PStr "Summary written by an llm, unchecked.");
            ("confidence", PStr "high");
            ("used_sources", PList [PStr "report.pdf, page 2"])] = Ok (invalid [] errs)
         /\ In msg_desc_forbidden errs).
Proof.
  split.
  - apply (proj1 (semantic_gate_rejects
                    [("suggested_description", PStr "This asset contains data");
                     ("confidence", PStr "very_high");
                     ("used_sources", PList [PStr "general knowledge"])] eq_refl)).
    reflexivity.
  - apply (proj1 (proj2 (semantic_gate_rejects
                           [("suggested_description",
                             PStr "Summary written by an llm, unchecked.");
                            ("confidence", PStr "high");
                            ("used_sources", PList [PStr "report.pdf, page 2"])] eq_refl))
                 "LLM" "llm" "Summary written by an " ", unchecked.").
    + cbn. tauto.
    + reflexivity.
    + split; reflexivity.
    + reflexivity.
Defined.

(** ** The decision law (C7) *)

(** The law as worded fails for the empty hash: an empty previous hash is
    treated as missing. *)
Lemma empty_hash_is_reprocessed :
  ~ (forall h, decide_reprocess_or_skip (PStr h) (PStr h) = Ok SKIP)
  /\ decide_reprocess_or_skip (PStr "") (PStr "") = Ok REPROCESS
  /\ decide_reprocess_or_skip (PStr "") (PDict [("hash", PStr "")]) = Ok REPROCESS.
Proof.
  split; [|split; reflexivity].
  intros H. specialize (H ""). discriminate H.
Qed.

(** C7, as the code has it.  For every string [h]: without previous state
    the decision is REPROCESS; with previous state [h], bare or under the
    key [hash], it is SKIP provided [h] is not empty; with an empty stored
    hash or a previous state of an unsupported type it is REPROCESS; and
    SKIP is returned only when the previous hash taken from the previous
    state is [h] itself. *)
Theorem decision_law (h : string) :
  decide_reprocess_or_skip (PStr h) PNone = Ok REPROCESS
  /\ (h <> "" -> decide_reprocess_or_skip (PStr h) (PStr h) = Ok SKIP)
  /\ (h <> "" -> decide_reprocess_or_skip (PStr h) (PDict [("hash", PStr h)]) = Ok SKIP)
  /\ decide_reprocess_or_skip (PStr h) (PDict [("hash", PStr "")]) = Ok REPROCESS
  /\ decide_reprocess_or_skip (PStr h) (PList [PStr "unsupported"]) = Ok REPROCESS
  /\ (forall previous_state,
        decide_reprocess_or_skip (PStr h) previous_state = Ok SKIP ->
        extract_previous_hash previous_state = Some h /\ h <> "").
Proof.
  repeat split.
  - intros N. cbn. apply String.eqb_neq in N. now rewrite N, String.eqb_refl.
  - intros N. cbn. apply String.eqb_neq in N. now rewrite N, N, String.eqb_refl.
  - unfold decide_reprocess_or_skip in H.
    destruct previous_state; try discriminate;
      destruct (extract_previous_hash _) as [p|]; try discriminate;
      destruct (String.eqb_spec p ""); try discriminate;
      destruct (String.eqb_spec p h); try discriminate; now subst.
  - unfold decide_reprocess_or_skip in H.
    destruct previous_state; try discriminate;
      destruct (extract_previous_hash _) as [p|]; try discriminate;
      destruct (String.eqb_spec p ""); try discriminate;
      destruct (String.eqb_spec p h); try discriminate; now subst.
Qed.

Lemma decision_law_witness :
  decide_reprocess_or_skip (PStr "deadbeef") (PStr "deadbeef") = Ok SKIP
  /\ decide_reprocess_or_skip (PStr "deadbeef") (PDict [("hash", PStr "deadbeef")]) = Ok SKIP
  /\ extract_previous_hash (PDict [("previousHash", PStr "deadbeef")]) = Some "deadbeef".
Proof.
  destruct (decision_law "deadbeef") as (_ & H1 & H2 & _ & _ & H3).
  split; [apply H1; discriminate|].
  split; [apply H2; discriminate|].
  apply (H3 (PDict [("previousHash", PStr "deadbeef")])). reflexivity.
Defined.

(** ** Hashing (C9) *)

Lemma dict_get_perm (r1 r2 : dict) :
  Permutation r1 r2 -> NoDup (dict_keys r1) ->
  forall f, dict_get f r1 = dict_get f r2.
Proof.
  induction 1 as [| [k v] l l' P IH | [k1 v1] [k2 v2] l | l l' l'' P1 IH1 P2 IH2];
    intros N f.
  - reflexivity.
  - cbn in *. apply NoDup_cons_iff in N. destruct N as [_ N].
    destruct (String.eqb k f); [reflexivity | now apply IH].
  - cbn in *. apply NoDup_cons_iff in N. destruct N as [N _].
    destruct (String.eqb_spec k1 f) as [E1|E1], (String.eqb_spec k2 f) as [E2|E2];
      try reflexivity.
    subst. exfalso. apply N. now left.
  - rewrite IH1 by exact N. apply IH2.
    apply (Permutation_NoDup (l := dict_keys l)); [|exact N].
    unfold dict_keys. now apply Permutation_map.
Qed.

Lemma MATERIAL_FIELDS_NoDup : NoDup MATERIAL_FIELDS.
Proof.
  unfold MATERIAL_FIELDS. repeat constructor; cbn; intuition discriminate.
Qed.

Section HashFacts.

Variable set_iter : list string -> list string.
Variable material_iter : list string.
Variable json_dumps : pyvalue -> option string.
Variable sha256_hexdigest : string -> string.

Lemma normalize_fields_cons field tl asset normalized :
  normalize_fields set_iter (field :: tl) asset normalized =
  match field_contribution set_iter field asset with
  | None => normalize_fields set_iter tl asset normalized
  | Some c => v <- c ;; normalize_fields set_iter tl asset (dict_set field v normalized)
  end.
Proof.
  cbn [normalize_fields]. unfold field_contribution.
  destruct (dict_get field asset) as [[ | | | | ]|]; reflexivity.
Qed.

(** Only the contributions of the listed fields matter. *)
Lemma normalize_fields_ext fields (r1 r2 : dict) :
  (forall f, In f fields -> field_contribution set_iter f r1 = field_contribution set_iter f r2) ->
  forall normalized,
    normalize_fields set_iter fields r1 normalized
    = normalize_fields set_iter fields r2 normalized.
Proof.
  induction fields as [|f tl IH]; intros H normalized; [reflexivity|].
  rewrite !normalize_fields_cons, (H f) by now left.
  assert (H' : forall g, In g tl ->
                         field_contribution set_iter g r1 = field_contribution set_iter g r2).
  { intros g I. apply H. now right. }
  destruct (field_contribution set_iter f r2) as [[v|e]|]; cbn [bind]; auto.
Qed.

Lemma compute_asset_hash_ext (r1 r2 : dict) :
  (forall f, In f material_iter ->
             field_contribution set_iter f r1 = field_contribution set_iter f r2) ->
  compute_asset_hash set_iter material_iter json_dumps sha256_hexdigest (PDict r1)
  = compute_asset_hash set_iter material_iter json_dumps sha256_hexdigest (PDict r2).
Proof.
  intros H. unfold compute_asset_hash, normalize_asset. cbn [isinstance_dict negb].
  now rewrite (normalize_fields_ext material_iter r1 r2 H).
Qed.

Lemma normalize_fields_get_other f fields asset :
  ~ In f fields ->
  forall normalized res,
    normalize_fields set_iter fields asset normalized = Ok res ->
    dict_get f res = dict_get f normalized.
Proof.
  induction fields as [|g tl IH]; intros N normalized res H.
  - cbn in H. now injection H as <-.
  - rewrite normalize_fields_cons in H.
    assert (Ng : g <> f) by (intros E; apply N; now left).
    assert (Nt : ~ In f tl) by (intros I; apply N; now right).
    destruct (field_contribution set_iter g asset) as [[v|e]|]; cbn [bind] in H;
      try discriminate.
    + rewrite (IH Nt _ _ H). now apply dict_get_set_other.
    + now apply (IH Nt _ _ H).
Qed.

Lemma normalize_fields_get f v v' fields asset :
  NoDup fields -> In f fields ->
  dict_get f asset = Some v -> v <> PNone ->
  normalize_field set_iter f v = Ok v' ->
  forall normalized res,
    normalize_fields set_iter fields asset normalized = Ok res ->
    dict_get f res = Some v'.
Proof.
  intros ND I G NN NF.
  induction fields as [|g tl IH]; intros normalized res H; [contradiction|].
  rewrite normalize_fields_cons in H.
  apply NoDup_cons_iff in ND. destruct ND as [Ng ND].
  destruct I as [->|I].
  - unfold field_contribution in H. rewrite G in H.
    assert (C : match v with
                | PNone => None
                | _ => Some (normalize_field set_iter f v)
                end = Some (Ok v')).
    { rewrite <- NF. destruct v; try reflexivity. contradiction. }
    assert (H2 : normalize_fields set_iter tl asset (dict_set f v' normalized) = Ok res).
    { destruct v; try contradiction; rewrite NF in H; exact H. }
    rewrite (normalize_fields_get_other f tl asset Ng _ _ H2).
    apply dict_get_set_same.
  - destruct (field_contribution set_iter g asset) as [[w|e]|]; cbn [bind] in H;
      try discriminate; now apply (IH ND I _ _ H).
Qed.

Lemma scalar_material_inv f :
  scalar_material f = true ->
  In f MATERIAL_FIELDS /\ forall v, normalize_field set_iter f v = Ok v.
Proof.
  unfold scalar_material. intros H.
  apply andb_true_iff in H. destruct H as [H H3].
  apply andb_true_iff in H. destruct H as [H H2].
  apply andb_true_iff in H. destruct H as [H0 H1].
  apply negb_true_iff in H1, H2, H3. split.
  - unfold str_mem in H0. apply existsb_exists in H0. destruct H0 as (x & I & E).
    apply String.eqb_eq in E. now subst.
  - intros v. unfold normalize_field. now rewrite H1, H2, H3.
Qed.

End HashFacts.

Lemma two_element_set (set_iter : list string -> list string) (a b : string) :
  set_order_admissible set_iter -> a <> b ->
  set_iter [a; b] = [a; b] \/ set_iter [a; b] = [b; a].
Proof.
  intros A N. destruct (A [a; b]) as [ND E].
  apply Permutation_length_2_inv. apply NoDup_Permutation.
  - repeat constructor; cbn; intuition.
  - exact ND.
  - intros x. symmetry. apply E.
Qed.

(** The claim as worded fails: a change of a material field need not change
    the digest.  Reordering the tags of a record is such a change, and for
    every admissible set order, every serializer and every digest function
    the two records get the same result. *)
Lemma reordered_tags_same_digest :
  dict_get "tags" [("id", PStr "asset-1"); ("tags", PList [PStr "sales"; PStr "analytics"])]
  <> dict_get "tags" [("id", PStr "asset-1"); ("tags", PList [PStr "analytics"; PStr "sales"])]
  /\ (forall set_iter material_iter json_dumps sha256_hexdigest,
         set_order_admissible set_iter ->
         compute_asset_hash set_iter material_iter json_dumps sha256_hexdigest
           (PDict [("id", PStr "asset-1"); ("tags", PList [PStr "sales"; PStr "analytics"])])
         = compute_asset_hash set_iter material_iter json_dumps sha256_hexdigest
             (PDict [("id", PStr "asset-1"); ("tags", PList [PStr "analytics"; PStr "sales"])])).
Proof.
  split; [discriminate|].
  intros set_iter material_iter json_dumps sha256_hexdigest A.
  apply compute_asset_hash_ext. intros f _.
  unfold field_contribution. cbn [dict_get].
  destruct (String.eqb "id" f); [reflexivity|].
  destruct (String.eqb_spec "tags" f) as [<-|]; [|reflexivity].
  f_equal. unfold normalize_field. cbn [String.eqb Ascii.eqb Bool.eqb].
  unfold _normalize_tags. cbn [check_tags bind].
  destruct (two_element_set set_iter "sales" "analytics" A) as [E1|E1];
    [discriminate | | ];
    (destruct (two_element_set set_iter "analytics" "sales" A) as [E2|E2];
     [discriminate | | ]);
    rewrite E1, E2; reflexivity.
Qed.

(** ** Sorting, and what a second normalization does *)

Section SortedBy.

Variable A : Type.
Variable le : A -> A -> bool.


Lemma insert_by_perm x l : Permutation (insert_by le x l) (x :: l).
Proof.
  induction l as [|y ys IH]; cbn [insert_by]; [reflexivity|].
  destruct (le x y); [reflexivity|].
  rewrite IH. apply perm_swap.
Qed.

Lemma sorted_by_perm l : Permutation (sorted_by le l) l.
Proof.
  induction l as [|x l IH]; cbn; [reflexivity|].
  fold (sorted_by le l). rewrite insert_by_perm. now constructor.
Qed.

Lemma sorted_by_fixed l : Sorted (le_rel le) l -> sorted_by le l = l.
Proof.
  induction 1 as [|a l S IH H]; [reflexivity|].
  cbn. fold (sorted_by le l). rewrite IH.
  destruct H as [|b l' H]; cbn [insert_by]; [reflexivity|].
  unfold le_rel in H. now rewrite H.
Qed.

Hypothesis le_total : forall a b, le a b = true \/ le b a = true.

Lemma insert_by_hdrel x y l :
  le_rel le y x -> HdRel (le_rel le) y l -> HdRel (le_rel le) y (insert_by le x l).
Proof.
  intros Hyx H. destruct H as [|b l' H]; cbn [insert_by]; [now constructor|].
  destruct (le x b); now constructor.
Qed.

Lemma insert_by_sorted x l : Sorted (le_rel le) l -> Sorted (le_rel le) (insert_by le x l).
Proof.
  induction 1 as [|y l S IH H]; cbn [insert_by]; [repeat constructor|].
  destruct (le x y) eqn:E.
  - constructor; [now constructor | now constructor].
  - constructor; [exact IH|]. apply insert_by_hdrel; [|exact H].
    destruct (le_total x y) as [T|T]; [congruence | exact T].
Qed.

Lemma sorted_by_sorted l : Sorted (le_rel le) (sorted_by le l).
Proof.
  induction l as [|x l IH]; cbn; [constructor|].
  fold (sorted_by le l). now apply insert_by_sorted.
Qed.

Hypothesis le_trans : forall a b c, le a b = true -> le b c = true -> le a c = true.

(** Two sorted arrangements of the same elements are equal when no two
    different elements have equal keys. *)
Lemma sorted_perm_unique l1 :
  forall l2,
    Sorted (le_rel le) l1 -> Sorted (le_rel le) l2 -> Permutation l1 l2 ->
    (forall a b, In a l1 -> In b l1 -> le a b = true -> le b a = true -> a = b) ->
    l1 = l2.
Proof.
  assert (T : Transitive (le_rel le)) by (intros a b c; apply le_trans).
  induction l1 as [|a l1 IH]; intros l2 S1 S2 P AS.
  - apply Permutation_nil in P. now subst.
  - destruct l2 as [|b l2].
    { apply Permutation_sym, Permutation_nil in P. discriminate. }
    apply Sorted_StronglySorted in S1, S2; try exact T.
    apply StronglySorted_inv in S1, S2. destruct S1 as [S1 F1], S2 as [S2 F2].
    rewrite Forall_forall in F1, F2.
    assert (E : a = b).
    { assert (Ia : In a (b :: l2)) by (apply (Permutation_in _ P); now left).
      assert (Ib : In b (a :: l1))
        by (apply (Permutation_in _ (Permutation_sym P)); now left).
      destruct Ia as [->|Ia]; [reflexivity|].
      destruct Ib as [->|Ib]; [reflexivity|].
      apply AS; [now left | now right | now apply F1 | now apply F2]. }
    subst b. f_equal.
    apply IH.
    + now apply StronglySorted_Sorted.
    + now apply StronglySorted_Sorted.
    + now apply Permutation_cons_inv in P.
    + intros x y Ix Iy. apply AS; now right.
Qed.

End SortedBy.

Lemma ascii_compare_N a b : Ascii.compare a b = N.compare (N_of_ascii a) (N_of_ascii b).
Proof. reflexivity. Qed.

Lemma string_compare_trans_le a :
  forall b c, String.compare a b <> Gt -> String.compare b c <> Gt -> String.compare a c <> Gt.
Proof.
  induction a as [|x a IH]; intros [|y b] [|z c]; cbn [String.compare]; try congruence.
  rewrite !ascii_compare_N.
  destruct (N.compare_spec (N_of_ascii x) (N_of_ascii y)) as [Exy|Exy|Exy];
    destruct (N.compare_spec (N_of_ascii y) (N_of_ascii z)) as [Eyz|Eyz|Eyz];
    destruct (N.compare_spec (N_of_ascii x) (N_of_ascii z)) as [Exz|Exz|Exz];
    try congruence; try lia.
  apply IH.
Qed.

Lemma string_leb_trans a b c :
  String.leb a b = true -> String.leb b c = true -> String.leb a c = true.
Proof.
  unfold String.leb. intros H1 H2.
  pose proof (string_compare_trans_le a b c) as T.
  destruct (String.compare a b); try discriminate;
    destruct (String.compare b c); try discriminate;
    destruct (String.compare a c); try reflexivity;
    exfalso; apply T; congruence.
Qed.

(** ** Tags *)


Lemma check_tags_map ss : check_tags (map PStr ss) = Ok ss.
Proof. induction ss as [|s ss IH]; cbn; [reflexivity | now rewrite IH]. Qed.

Lemma check_tags_inv l : forall ss, check_tags l = Ok ss -> l = map PStr ss.
Proof.
  induction l as [|v l IH]; intros ss H; cbn in H.
  - now injection H as <-.
  - destruct v; try discriminate.
    destruct (check_tags l) as [ss'|]; cbn in H; [|discriminate].
    injection H as <-. cbn. now rewrite (IH ss' eq_refl).
Qed.

Lemma tags_idempotent set_iter ss :
  set_order_admissible set_iter ->
  (forall a b, In a ss -> In b ss -> lower a = lower b -> a = b) ->
  let T := sorted_by tag_le (set_iter ss) in
  sorted_by tag_le (set_iter T) = T.
Proof.
  intros A Inj T.
  destruct (A ss) as [ND E]. destruct (A T) as [NDT ET].
  assert (PT : Permutation T (set_iter ss)) by apply sorted_by_perm.
  assert (total : forall a b, tag_le a b = true \/ tag_le b a = true)
    by (intros a b; apply String.leb_total).
  assert (trans : forall a b c, tag_le a b = true -> tag_le b c = true -> tag_le a c = true)
    by (intros a b c; apply string_leb_trans).
  apply (sorted_perm_unique string tag_le trans).
  - now apply sorted_by_sorted.
  - now apply sorted_by_sorted.
  - rewrite sorted_by_perm. apply NoDup_Permutation.
    + exact NDT.
    + apply (Permutation_NoDup (Permutation_sym PT) ND).
    + intros x. apply ET.
  - intros a b Ia Ib L1 L2.
    assert (In_ss : forall x, In x (sorted_by tag_le (set_iter T)) -> In x ss).
    { intros x Ix. apply E. apply (Permutation_in _ PT). apply ET.
      now apply (Permutation_in _ (sorted_by_perm _ tag_le (set_iter T))). }
    apply Inj; [now apply In_ss | now apply In_ss |].
    now apply String.leb_antisym.
Qed.

(** ** Relationships and columns *)

Lemma key_eqb_eq a b : key_eqb a b = true -> a = b.
Proof.
  destruct a, b; cbn; try discriminate; intros H.
  - reflexivity.
  - apply Z.eqb_eq in H. now subst.
  - apply String.eqb_eq in H. now subst.
Qed.

Lemma key_eqb_refl a : hashable a = true -> key_eqb a a = true.
Proof.
  destruct a; cbn; try discriminate; intros _.
  - reflexivity.
  - apply Z.eqb_refl.
  - apply String.eqb_refl.
Qed.

Lemma existsb_key_eqb k seen :
  hashable k = true -> existsb (key_eqb k) seen = false <-> ~ In k seen.
Proof.
  intros H. split.
  - intros E I. assert (T : existsb (key_eqb k) seen = true).
    { apply existsb_exists. exists k. split; [exact I | now apply key_eqb_refl]. }
    congruence.
  - intros N. destruct (existsb (key_eqb k) seen) eqn:E; [|reflexivity].
    apply existsb_exists in E. destruct E as (x & I & Ex).
    apply key_eqb_eq in Ex. subst x. contradiction.
Qed.

Lemma check_items_ok field l :
  forall ds, check_items field l = Ok ds ->
             l = map PDict ds /\ Forall (fun d => dict_mem field d = true) ds.
Proof.
  induction l as [|v l IH]; intros ds H; cbn in H.
  - injection H as <-. split; [reflexivity | constructor].
  - destruct v; try discriminate.
    destruct (dict_mem field d) eqn:M; [|discriminate].
    destruct (check_items field l) as [ds'|]; cbn in H; [|discriminate].
    injection H as <-. destruct (IH ds' eq_refl) as [-> F].
    split; [reflexivity | now constructor].
Qed.

Lemma check_items_map field ds :
  Forall (fun d => dict_mem field d = true) ds -> check_items field (map PDict ds) = Ok ds.
Proof.
  induction 1 as [|d ds M F IH]; cbn [map check_items]; [reflexivity|].
  now rewrite M, IH.
Qed.

Lemma unique_by_spec field l :
  forall seen u,
    unique_by field l seen = Ok u ->
    incl u l
    /\ Forall (fun d => hashable (item_key field d) = true) u
    /\ NoDup (map (item_key field) u)
    /\ (forall d, In d u -> ~ In (item_key field d) seen).
Proof.
  induction l as [|d l IH]; intros seen u H; cbn [unique_by] in H.
  - injection H as <-. split; [apply incl_refl|]. split; [constructor|].
    split; [constructor|]. intros d [].
  - fold (item_key field d) in H.
    destruct (hashable (item_key field d)) eqn:Hh; cbn [negb] in H; [|discriminate].
    destruct (existsb (key_eqb (item_key field d)) seen) eqn:Ex.
    + destruct (IH _ _ H) as (I & F & N & S).
      repeat split; auto. now apply incl_tl.
    + destruct (unique_by field l (item_key field d :: seen)) as [u'|] eqn:U;
        cbn [bind] in H; [|discriminate].
      injection H as <-.
      destruct (IH _ _ U) as (I & F & N & S).
      apply existsb_key_eqb in Ex; [|exact Hh].
      repeat split.
      * intros x [<-|Ix]; [now left | right; now apply I].
      * now constructor.
      * cbn [map]. constructor; [|exact N].
        intros In1. apply in_map_iff in In1. destruct In1 as (x & Kx & Ix).
        apply (S x Ix). left. now symmetry.
      * intros x [<-|Ix]; [exact Ex|].
        intros In1. apply (S x Ix). now right.
Qed.

Lemma unique_by_fixed field l :
  forall seen,
    Forall (fun d => hashable (item_key field d) = true) l ->
    NoDup (map (item_key field) l) ->
    (forall d, In d l -> ~ In (item_key field d) seen) ->
    unique_by field l seen = Ok l.
Proof.
  induction l as [|d l IH]; intros seen F N S; [reflexivity|].
  cbn [unique_by]. fold (item_key field d).
  apply Forall_cons_iff in F. destruct F as [Hh F].
  cbn [map] in N. apply NoDup_cons_iff in N. destruct N as [Nd N].
  rewrite Hh. cbn [negb].
  assert (Ex : existsb (key_eqb (item_key field d)) seen = false).
  { apply existsb_key_eqb; [exact Hh|]. apply S. now left. }
  rewrite Ex, IH; [reflexivity | exact F | exact N |].
  intros x Ix [E|I].
  - apply Nd. rewrite E. now apply in_map.
  - apply (S x); [now right | exact I].
Qed.

Lemma key_leb_total a b : key_leb a b = true \/ key_leb b a = true.
Proof.
  destruct a, b; cbn; auto.
  - destruct (Z.leb_spec z z0); [now left | right; apply Z.leb_le; lia].
  - apply String.leb_total.
Qed.

Lemma forallb_perm {A : Type} (p : A -> bool) l1 l2 :
  Permutation l1 l2 -> forallb p l1 = forallb p l2.
Proof.
  induction 1; cbn; try congruence.
  - destruct (p x), (p y); reflexivity.
Qed.

Lemma keys_comparable_perm k1 k2 :
  Permutation k1 k2 -> keys_comparable k1 = keys_comparable k2.
Proof.
  intros P. unfold keys_comparable.
  now rewrite (Permutation_length P), (forallb_perm _ _ _ P),
    (forallb_perm (fun k => match k with PInt _ => true | _ => false end) _ _ P).
Qed.

Lemma items_idempotent field v v' :
  normalize_items field v = Ok v' -> normalize_items field v' = Ok v'.
Proof.
  unfold normalize_items at 1. destruct v as [ | | |l| ]; try discriminate.
  destruct (check_items field l) as [ds|] eqn:C; cbn [bind]; [|discriminate].
  destruct (unique_by field ds []) as [u|] eqn:U; cbn [bind]; [|discriminate].
  unfold sorted_by_field at 1.
  destruct (keys_comparable (map (fun d => get_default field d PNone) u)) eqn:K;
    cbn [bind]; [|discriminate].



  intros H. injection H as <-.
  remember (sorted_by (fun a b => key_leb (get_default field a PNone)
                                          (get_default field b PNone)) u) as s eqn:Hs.
  assert (P : Permutation s u) by (subst s; apply sorted_by_perm).
  assert (S : Sorted (le_rel (fun a b => key_leb (get_default field a PNone)
                                                       (get_default field b PNone))) s).
  { subst s. apply sorted_by_sorted. intros a b. apply key_leb_total. }
  destruct (check_items_ok _ _ _ C) as [_ Fm].
  destruct (unique_by_spec _ _ _ _ U) as (I & Fh & N & _).
  unfold normalize_items. rewrite check_items_map.
  2:{ rewrite Forall_forall in *. intros d Id. apply Fm, I.
      now apply (Permutation_in _ P). }
  cbn [bind]. rewrite unique_by_fixed.
  2:{ rewrite Forall_forall in *. intros d Id. apply Fh.
      now apply (Permutation_in _ P). }
  2:{ apply (Permutation_NoDup (l := map (item_key field) u)); [|exact N].
      apply Permutation_map. now apply Permutation_sym. }
  2:{ intros d _ []. }
  cbn [bind]. unfold sorted_by_field.
  rewrite (keys_comparable_perm _ _
             (Permutation_map (fun d => get_default field d PNone) P)), K.
  cbn [bind]. now rewrite (sorted_by_fixed _ _ s S).
Qed.

Lemma normalize_items_not_none field v v' :
  normalize_items field v = Ok v' -> v' <> PNone.
Proof.
  unfold normalize_items. destruct v as [ | | |l| ]; try discriminate.
  destruct (check_items field l) as [ds|]; cbn [bind]; [|discriminate].
  destruct (unique_by field ds []) as [u|]; cbn [bind]; [|discriminate].
  destruct (sorted_by_field field u) as [s|]; cbn [bind]; [|discriminate].
  intros H. injection H as <-. discriminate.
Qed.

Lemma flat_map_ext_on {A B : Type} (f g : A -> list B) l :
  (forall a, In a l -> f a = g a) -> flat_map f l = flat_map g l.
Proof.
  induction l as [|x l IH]; intros H; [reflexivity|].
  cbn [flat_map]. rewrite (H x) by now left.
  rewrite IH; [reflexivity|]. intros a I. apply H. now right.
Qed.

(** ** The whole record *)




Section Idempotence.

Variable set_iter : list string -> list string.
Hypothesis set_iter_admissible : set_order_admissible set_iter.

Lemma dict_get_app k d1 d2 :
  dict_get k (d1 ++ d2) = match dict_get k d1 with Some v => Some v | None => dict_get k d2 end.
Proof.
  induction d1 as [|[k' v'] d1 IH]; cbn; [reflexivity|].
  destruct (String.eqb k' k); [reflexivity | exact IH].
Qed.

Lemma dict_set_fresh f v acc : dict_mem f acc = false -> dict_set f v acc = acc ++ [(f, v)].
Proof.
  unfold dict_mem. induction acc as [|[k' v'] acc IH]; cbn; [reflexivity|].
  destruct (String.eqb k' f); [discriminate|].
  intros H. now rewrite IH.
Qed.

Lemma dict_mem_snoc g f v acc :
  g <> f -> dict_mem g acc = false -> dict_mem g (acc ++ [(f, v)]) = false.
Proof.
  unfold dict_mem. rewrite dict_get_app. intros N H.
  destruct (dict_get g acc); [discriminate|]. cbn.
  destruct (String.eqb_spec f g); [now subst | reflexivity].
Qed.

Lemma normalize_fields_entries fields r :
  NoDup fields ->
  forall acc res,
    (forall f, In f fields -> dict_mem f acc = false) ->
    normalize_fields set_iter fields r acc = Ok res ->
    res = acc ++ entries set_iter fields r.
Proof.
  induction 1 as [|f tl Nf ND IH]; intros acc res Fr H.
  - cbn in *. injection H as <-. now rewrite app_nil_r.
  - rewrite normalize_fields_cons in H. cbn [entries flat_map]. unfold field_entry at 1.
    assert (Fr' : forall g, In g tl -> dict_mem g acc = false)
      by (intros g I; apply Fr; now right).
    destruct (field_contribution set_iter f r) as [[v|e]|]; cbn [bind] in H.
    + rewrite dict_set_fresh in H by (apply Fr; now left).
      rewrite (IH (acc ++ [(f, v)]) res); [now rewrite <- app_assoc | | exact H].
      intros g I. apply dict_mem_snoc; [|now apply Fr'].
      intros E. subst g. contradiction.
    + discriminate.
    + now apply IH.
Qed.

Lemma normalize_fields_total fields r :
  NoDup fields ->
  forall acc,
    (forall f, In f fields -> dict_mem f acc = false) ->
    (forall f e, In f fields -> field_contribution set_iter f r <> Some (Raise e)) ->
    normalize_fields set_iter fields r acc = Ok (acc ++ entries set_iter fields r).
Proof.
  induction 1 as [|f tl Nf ND IH]; intros acc Fr NR.
  - cbn. now rewrite app_nil_r.
  - rewrite normalize_fields_cons. cbn [entries flat_map]. unfold field_entry at 1.
    assert (Fr' : forall g, In g tl -> dict_mem g acc = false)
      by (intros g I; apply Fr; now right).
    assert (NR' : forall g e, In g tl -> field_contribution set_iter g r <> Some (Raise e))
      by (intros g e I; apply NR; now right).
    destruct (field_contribution set_iter f r) as [[v|e]|] eqn:C; cbn [bind].
    + rewrite dict_set_fresh by (apply Fr; now left).
      rewrite IH; [now rewrite <- app_assoc | | exact NR'].
      intros g I. apply dict_mem_snoc; [|now apply Fr'].
      intros E. subst g. contradiction.
    + exfalso. apply (NR f e); [now left | exact C].
    + now apply IH.
Qed.

Lemma field_entry_get_other f g r :
  g <> f -> dict_get f (field_entry set_iter r g) = None.
Proof.
  intros N. unfold field_entry.
  destruct (field_contribution set_iter g r) as [[v|e]|]; cbn; try reflexivity.
  destruct (String.eqb_spec g f); [contradiction | reflexivity].
Qed.

Lemma field_entry_get_same f r :
  dict_get f (field_entry set_iter r f) =
  match field_contribution set_iter f r with
  | Some (Ok v) => Some v
  | _ => None
  end.
Proof.
  unfold field_entry.
  destruct (field_contribution set_iter f r) as [[v|e]|]; cbn; try reflexivity.
  now rewrite String.eqb_refl.
Qed.

Lemma entries_get_absent f fields r :
  ~ In f fields -> dict_get f (entries set_iter fields r) = None.
Proof.
  induction fields as [|g tl IH]; intros N; [reflexivity|].
  cbn [entries flat_map]. rewrite dict_get_app.
  rewrite field_entry_get_other by (intros E; apply N; now left).
  apply IH. intros I. apply N. now right.
Qed.

Lemma entries_get f fields r :
  NoDup fields -> In f fields ->
  dict_get f (entries set_iter fields r) =
  match field_contribution set_iter f r with
  | Some (Ok v) => Some v
  | _ => None
  end.
Proof.
  induction 1 as [|g tl Ng ND IH]; intros I; [contradiction|].
  cbn [entries flat_map]. rewrite dict_get_app.
  destruct I as [->|I].
  - rewrite field_entry_get_same.
    destruct (field_contribution set_iter f r) as [[v|e]|]; try reflexivity;
      now apply entries_get_absent.
  - rewrite field_entry_get_other by (intros E; subst; contradiction).
    now apply IH.
Qed.

(** A normalized field value is left as it is by a second normalization. *)
Lemma normalize_field_idempotent f r v :
  tags_case_distinct r ->
  field_contribution set_iter f r = Some (Ok v) ->
  normalize_field set_iter f v = Ok v /\ v <> PNone.
Proof.
  intros TD. unfold field_contribution.
  destruct (dict_get f r) as [v0|] eqn:G; [|discriminate].
  assert (H0 : v0 <> PNone -> normalize_field set_iter f v0 = Ok v ->
               normalize_field set_iter f v = Ok v /\ v <> PNone).
  { intros N0. unfold normalize_field.
    destruct (String.eqb_spec f "tags") as [->|Nt].
    - unfold _normalize_tags at 1. destruct v0 as [ | | |l| ]; try discriminate.
      destruct (check_tags l) as [ss|] eqn:C; cbn [bind]; [|discriminate].
      intros H. injection H as <-. split; [|discriminate].
      unfold _normalize_tags. rewrite check_tags_map. cbn [bind].
      do 3 f_equal. apply (tags_idempotent set_iter ss set_iter_admissible).
      intros a b Ia Ib. apply (TD l G); rewrite (check_tags_inv l ss C);
        now apply in_map.
    - destruct (String.eqb f "relationships").
      + intros H. split; [now apply (items_idempotent "id" v0)|].
        now apply (normalize_items_not_none "id" v0).
      + destruct (String.eqb f "columns").
        * intros H. split; [now apply (items_idempotent "name" v0)|].
          now apply (normalize_items_not_none "name" v0).
        * intros H. injection H as <-. split; [reflexivity | exact N0]. }
  destruct v0; try discriminate; intros H; injection H as H;
    apply H0; try discriminate; exact H.
Qed.

Variable material_iter : list string.
Hypothesis material_iter_perm : Permutation material_iter MATERIAL_FIELDS.

(** Normalizing an already normalized record changes nothing, provided no
    two different tags of the record are equal up to letter case. *)
Lemma normalize_asset_idempotent (r : dict) (n : pyvalue) :
  tags_case_distinct r ->
  normalize_asset set_iter material_iter (PDict r) = Ok n ->
  normalize_asset set_iter material_iter n = Ok n.
Proof.
  intros TD H. unfold normalize_asset in H.
  destruct (normalize_fields set_iter material_iter r []) as [d|] eqn:E;
    cbn [bind] in H; [|discriminate].
  injection H as <-.
  assert (ND : NoDup material_iter).
  { apply (Permutation_NoDup (Permutation_sym material_iter_perm)).
    apply MATERIAL_FIELDS_NoDup. }
  apply (normalize_fields_entries material_iter r ND [] d (fun _ _ => eq_refl)) in E.
  cbn [app] in E.
  assert (C : forall f, In f material_iter ->
                        field_contribution set_iter f d =
                        match field_contribution set_iter f r with
                        | Some (Ok v) => Some (Ok v)
                        | _ => None
                        end).
  { intros f I. unfold field_contribution at 1. rewrite E, (entries_get f _ r ND I).
    destruct (field_contribution set_iter f r) as [[v|e]|] eqn:Cf; try reflexivity.
    destruct (normalize_field_idempotent f r v TD Cf) as [Hn Hv].
    rewrite Hn. destruct v; try reflexivity. contradiction. }
  unfold normalize_asset.
  rewrite (normalize_fields_total material_iter d ND []).
  - cbn [bind app]. do 2 f_equal. rewrite E at 2. unfold entries.
    apply flat_map_ext_on. intros f I. unfold field_entry. rewrite (C f I).
    destruct (field_contribution set_iter f r) as [[v|e]|]; reflexivity.
  - reflexivity.
  - intros f e I. rewrite (C f I).
    destruct (field_contribution set_iter f r) as [[v|e']|]; discriminate.
Qed.

End Idempotence.

(** ** Idempotence of the normalizer (C10) *)

Lemma first_seen_spec l :
  forall seen,
    NoDup (first_seen l seen)
    /\ (forall x, In x (first_seen l seen) <-> In x l /\ ~ In x seen).
Proof.
  induction l as [|a l IH]; intros seen; cbn [first_seen].
  - split; [constructor|]. intros x. cbn. tauto.
  - destruct (str_mem a seen) eqn:M.
    + destruct (IH seen) as [ND E]. split; [exact ND|].
      intros x. rewrite E. cbn [In]. split; [tauto|].
      intros [[->|I] N]; [|tauto].
      exfalso. apply N. unfold str_mem in M. apply existsb_exists in M.
      destruct M as (y & Iy & Ey). apply String.eqb_eq in Ey. now subst.
    + destruct (IH (a :: seen)) as [ND E]. split.
      * constructor; [|exact ND]. rewrite E. cbn [In]. tauto.
      * intros x. cbn [In]. rewrite E. cbn [In].
        assert (Na : ~ In a seen).
        { intros I. unfold str_mem in M.
          assert (T : existsb (String.eqb a) seen = true).
          { apply existsb_exists. exists a. split; [exact I | apply String.eqb_refl]. }
          congruence. }
        destruct (string_dec a x) as [->|Nx]; [tauto|]. tauto.
Qed.

Lemma last_seen_first_admissible : set_order_admissible last_seen_first.
Proof.
  intros l. unfold last_seen_first. destruct (first_seen_spec l []) as [ND E]. split.
  - now apply NoDup_rev.
  - intros x. rewrite <- in_rev, E. cbn. tauto.
Qed.

(** C10.  The order in which [sorted(set(tags), key=str.lower)] leaves two
    tags that differ only in letter case is the order in which Python
    iterates over the set, which depends on how the set was filled.  Under
    the admissible order [last_seen_first] the record with tags [A], [a] is
    normalized to tags [a], [A], and normalizing that result again gives
    tags [A], [a]: the second application changes the record. *)
Theorem case_variant_tags_not_idempotent :
  set_order_admissible last_seen_first
  /\ normalize_asset last_seen_first MATERIAL_FIELDS
       (PDict [("id", PStr "asset-1"); ("tags", PList [PStr "A"; PStr "a"])])
     = Ok (PDict [("id", PStr "asset-1"); ("tags", PList [PStr "a"; PStr "A"])])
  /\ normalize_asset last_seen_first MATERIAL_FIELDS
       (PDict [("id", PStr "asset-1"); ("tags", PList [PStr "a"; PStr "A"])])
     = Ok (PDict [("id", PStr "asset-1"); ("tags", PList [PStr "A"; PStr "a"])]).
Proof.
  split; [exact last_seen_first_admissible|]. split; vm_compute; reflexivity.
Qed.

(* ================================================================= *)
(** * Further properties of the code *)

(** ** The orchestrator on every text *)

Lemma validate_output_with_closed_form sem text :
  validate_output_with sem (Some text) =
  if negb (is_empty (structural_error_list text))
  then Ok (invalid (structural_error_list text) [], valid)
  else if negb (is_empty (parse_errors_of text))
       then Ok (invalid (parse_errors_of text) [], valid)
       else semantic <- sem (parsed_of text) ;; Ok (valid, semantic).
Proof.
  unfold validate_output_with. rewrite validate_structural_closed_form. cbn [bind].
  destruct (is_empty (structural_error_list text)); cbn [negb is_valid invalid valid];
    [|reflexivity].
  unfold parse_errors_of, parsed_of.
  destruct (_parse_yaml_subset (Some text)) as [pd pe]. reflexivity.
Qed.

Lemma structural_error_list_nil text :
  structural_error_list text = [] ->
  parse_errors_of text = [] /\ structurally_valid (parsed_of text) = true
  /\ seen_order_of (order_lines text) = expected_seq (parsed_of text).
Proof.
  intros H. pose proof H as H0. unfold structural_error_list in H.
  apply app_eq_nil in H. destruct H as [H Ho].
  apply app_eq_nil in H. destruct H as [H _].
  unfold errors_before_order in H.
  apply app_eq_nil in H. destruct H as [H Ht].
  apply app_eq_nil in H. destruct H as [H Hm].
  apply app_eq_nil in H. destruct H as [Hp Hu].
  split; [exact Hp|]. split.
  - unfold structurally_valid. now rewrite Hu, Hm, Ht.
  - apply list_str_eqb_true.
    destruct (list_str_eqb _ _); [reflexivity | discriminate].
Qed.

Lemma validate_semantic_on_valid_structure d :
  structurally_valid d = true -> exists semantic, validate_semantic d = Ok semantic.
Proof.
  intros V. destruct (structurally_valid_confidence d V) as [c Hc].
  eexists. apply (validate_semantic_closed_form d
                    (if negb (str_mem c CONFIDENCE_ALLOWED) then [msg_confidence] else [])).
  unfold get_default. now rewrite Hc.
Qed.

(** X1. On a text [validate_output] never raises: it returns a pair of
    results, and the second one is the placeholder whenever the first one is
    invalid. *)
Theorem validate_output_never_raises (text : string) :
  exists structural semantic,
    validate_output (Some text) = Ok (structural, semantic)
    /\ validate_structural (Some text) = Ok structural
    /\ (is_valid structural = false -> semantic = valid).
Proof.
  unfold validate_output. rewrite validate_output_with_closed_form.
  rewrite validate_structural_closed_form.
  destruct (structural_error_list text) as [|e l] eqn:E; cbn [is_empty negb].
  - destruct (structural_error_list_nil text E) as (Hp & Hv & _).
    rewrite Hp. cbn [is_empty negb].
    destruct (validate_semantic_on_valid_structure _ Hv) as [semantic S].
    rewrite S. cbn [bind].
    exists valid, semantic. split; [reflexivity|]. split; [reflexivity|]. discriminate.
  - eexists. eexists. split; [reflexivity|]. split; [reflexivity|]. reflexivity.
Qed.

(** X2. When the structural result of a text is valid, the parser has
    recorded no defect (the defensive second check of [validate_output]
    never fires), the semantic validator does not raise on the parsed
    fields, and [validate_output] returns the valid structural result with
    the result of [validate_semantic] on those fields. *)
Theorem valid_structure_runs_semantic (text : string) :
  validate_structural (Some text) = Ok valid ->
  snd (_parse_yaml_subset (Some text)) = []
  /\ exists semantic,
      validate_semantic (fst (_parse_yaml_subset (Some text))) = Ok semantic
      /\ validate_output (Some text) = Ok (valid, semantic).
Proof.
  intros V. apply validate_structural_valid_inv in V.
  destruct (structural_error_list_nil text V) as (Hp & Hv & _).
  split; [exact Hp|].
  fold (parsed_of text).
  destruct (validate_semantic_on_valid_structure _ Hv) as [semantic S].
  exists semantic. split; [exact S|].
  unfold validate_output. rewrite validate_output_with_closed_form, V, Hp, S. reflexivity.
Qed.

Lemma valid_structure_runs_semantic_witness :
  validate_output (Some scenario_text_indented) = Ok (valid, valid).
Proof.
  destruct (valid_structure_runs_semantic scenario_text_indented) as (_ & sem & S & O).
  - vm_compute; reflexivity.
  - rewrite O. f_equal. f_equal. vm_compute in S. now injection S as <-.
Defined.

(** ** What a valid structural result guarantees *)

Lemma filter_nil_all {A : Type} (p : A -> bool) l :
  filter p l = [] -> forall x, In x l -> p x = false.
Proof.
  induction l as [|a l IH]; intros H x I; [contradiction|].
  cbn [filter] in H. destruct (p a) eqn:E; [discriminate|].
  destruct I as [<-|I]; [exact E | now apply IH].
Qed.

Lemma used_sources_item_errors_nil val :
  forall idx, used_sources_item_errors idx val = [] ->
              Forall (fun v => exists s, v = PStr s /\ strip s <> "") val.
Proof.
  induction val as [|item tl IH]; intros idx H; [constructor|].
  cbn [used_sources_item_errors] in H. apply app_eq_nil in H. destruct H as [H1 H2].
  constructor; [|now apply (IH (S idx))].
  destruct item as [ | |s| | ]; cbn in H1; try discriminate.
  exists s. split; [reflexivity|].
  destruct (String.eqb_spec (strip s) ""); [discriminate | assumption].
Qed.

Lemma warnings_item_errors_nil val :
  forall idx, warnings_item_errors idx val = [] ->
              Forall (fun v => exists s, v = PStr s) val.
Proof.
  induction val as [|item tl IH]; intros idx H; [constructor|].
  cbn [warnings_item_errors] in H. apply app_eq_nil in H. destruct H as [H1 H2].
  constructor; [|now apply (IH (S idx))].
  destruct item as [ | |s| | ]; cbn in H1; try discriminate. now exists s.
Qed.

Lemma structurally_valid_shape d :
  structurally_valid d = true ->
  (exists desc, dict_get "suggested_description" d = Some (PStr desc))
  /\ (exists conf, dict_get "confidence" d = Some (PStr conf))
  /\ (exists srcs, dict_get "used_sources" d = Some (PList srcs)
                   /\ srcs <> []
                   /\ Forall (fun v => exists s, v = PStr s /\ strip s <> "") srcs)
  /\ (dict_get "warnings" d = None
      \/ exists ws, dict_get "warnings" d = Some (PList ws)
                    /\ Forall (fun v => exists s, v = PStr s) ws)
  /\ (forall k, In k (dict_keys d) -> In k EXPECTED_ORDER).
Proof.
  unfold structurally_valid. intros H.
  destruct (unknown_field_errors d ++ missing_field_errors d ++ type_errors d) eqn:E;
    [clear H|discriminate].
  apply app_eq_nil in E. destruct E as [Eu E].
  apply app_eq_nil in E. destruct E as [Em Et].
  assert (M : forall k, In k REQUIRED_FIELDS -> exists v, dict_get k d = Some v).
  { intros k I. apply dict_mem_get. unfold missing_field_errors in Em.
    apply map_eq_nil in Em. pose proof (filter_nil_all _ _ Em k I) as F.
    now apply negb_false_iff in F. }
  unfold type_errors in Et.
  apply app_eq_nil in Et. destruct Et as [T1 Et].
  apply app_eq_nil in Et. destruct Et as [T2 Et].
  apply app_eq_nil in Et. destruct Et as [T3 T4].
  repeat split.
  - destruct (M "suggested_description") as [v Hv]; [cbn; tauto|].
    rewrite Hv in T1. destruct v; cbn in T1; try discriminate. eauto.
  - destruct (M "confidence") as [v Hv]; [cbn; tauto|].
    rewrite Hv in T2. destruct v; cbn in T2; try discriminate. eauto.
  - destruct (M "used_sources") as [v Hv]; [cbn; tauto|].
    rewrite Hv in T3. destruct v as [ | | |val| ]; try discriminate.
    apply app_eq_nil in T3. destruct T3 as [L I].
    exists val. split; [exact Hv|]. split.
    + intros ->. discriminate L.
    + now apply (used_sources_item_errors_nil val 0).
  - destruct (dict_get "warnings" d) as [v|]; [|now left]. right.
    destruct v as [ | | |val| ]; try discriminate.
    exists val. split; [reflexivity | now apply (warnings_item_errors_nil val 0)].
  - intros k I. unfold unknown_field_errors in Eu. apply map_eq_nil in Eu.
    pose proof (filter_nil_all _ _ Eu k I) as F.
    unfold EXPECTED_ORDER. unfold REQUIRED_FIELDS, OPTIONAL_FIELDS, str_mem in F.
    cbn [existsb] in F. cbn [In].
    destruct (String.eqb_spec k "suggested_description"); [subst; tauto|].
    destruct (String.eqb_spec k "confidence"); [subst; tauto|].
    destruct (String.eqb_spec k "used_sources"); [subst; tauto|].
    destruct (String.eqb_spec k "warnings"); [subst; tauto|].
    discriminate F.
Qed.

(** X3. A text with a valid structural result has been parsed into fields
    of the contract only: [suggested_description] and [confidence] are
    strings, [used_sources] is a non-empty list of strings none of which is
    blank, [warnings] is absent or a list of strings, and every parsed key
    is one of the four catalog names. *)
Theorem valid_structure_shape (text : string) :
  validate_structural (Some text) = Ok valid ->
  let d := fst (_parse_yaml_subset (Some text)) in
  (exists desc, dict_get "suggested_description" d = Some (PStr desc))
  /\ (exists conf, dict_get "confidence" d = Some (PStr conf))
  /\ (exists srcs, dict_get "used_sources" d = Some (PList srcs)
                   /\ srcs <> []
                   /\ Forall (fun v => exists s, v = PStr s /\ strip s <> "") srcs)
  /\ (dict_get "warnings" d = None
      \/ exists ws, dict_get "warnings" d = Some (PList ws)
                    /\ Forall (fun v => exists s, v = PStr s) ws)
  /\ (forall k, In k (dict_keys d) -> In k EXPECTED_ORDER).
Proof.
  intros V d. apply validate_structural_valid_inv in V.
  destruct (structural_error_list_nil text V) as (_ & Hv & _).
  now apply structurally_valid_shape.
Qed.

Lemma valid_structure_shape_witness :
  exists conf, dict_get "confidence" (fst (_parse_yaml_subset (Some scenario_text_indented)))
               = Some (PStr conf).
Proof.
  apply (valid_structure_shape scenario_text_indented). vm_compute; reflexivity.
Defined.

(** ** Lines that are not fields *)

(** X4. A text with a line that starts with [#] once stripped is rejected:
    the parser records the comment defect and the structural result is
    invalid and carries it. *)
Theorem comment_line_rejected (text ln : string) :
  In ln (parser_lines text) ->
  startswith (strip ln) "#" = true ->
  In msg_comments (snd (_parse_yaml_subset (Some text)))
  /\ exists errs, validate_structural (Some text) = Ok (invalid errs [])
                  /\ In msg_comments errs.
Proof.
  intros I C.
  assert (P : In msg_comments (parse_errors_of text)).
  { rewrite parse_errors_of_parse_loop. apply parse_loop_errors_in. cbn [errors].
    assert (E : existsb (fun l => startswith (strip l) "#") (parser_lines text) = true).
    { apply existsb_exists. now exists ln. }
    rewrite E. now left. }
  split; [exact P|].
  exists (structural_error_list text).
  pose proof (structural_error_list_parse _ _ P) as S.
  split; [now apply (validate_structural_invalid _ _ S) | exact S].
Qed.

Lemma comment_line_rejected_witness :
  In msg_comments
     (snd (_parse_yaml_subset (Some ("confidence: high" +++ nl +++ "  # a note" +++ nl)))).
Proof.
  apply (comment_line_rejected ("confidence: high" +++ nl +++ "  # a note" +++ nl)
                               "  # a note").
  - vm_compute. tauto.
  - reflexivity.
Defined.

Lemma not_dash_led_not_item ln : dash_led ln = false -> item_line ln = false.
Proof.
  intros D. destruct (item_line ln) eqn:I; [|reflexivity].
  apply item_line_dash_led in I. congruence.
Qed.

(** X5. A line that starts with a space or has no colon, and is not an
    array item, is reported wherever it stands: the parser records
    [Unexpected line format] for it, and unless it is a comment the ordering
    loop records [Unexpected non-key line] as well; the text is invalid. *)
Theorem stray_line_rejected (text : string) (pre post : list string) (ln : string) :
  parser_lines text = pre ++ ln :: post ->
  not_top_level ln = true ->
  dash_led ln = false ->
  exists errs,
    validate_structural (Some text) = Ok (invalid errs [])
    /\ In (msg_unexpected_format ln) errs
    /\ (startswith (strip ln) "#" = false -> In (msg_non_key_line ln) errs).
Proof.
  intros Hl T D.
  assert (P : In (msg_unexpected_format ln) (structural_error_list text)).
  { apply structural_error_list_parse. rewrite parse_errors_of_parse_loop, Hl.
    rewrite parse_loop_app by (cbn [block_boundary]; now rewrite D).
    rewrite parse_loop_skip by exact T.
    apply parse_loop_errors_in. cbn [errors]. apply in_or_app. right. now left. }
  exists (structural_error_list text).
  split; [now apply (validate_structural_invalid _ _ P)|]. split; [exact P|].
  intros C. unfold structural_error_list. apply in_or_app. left. apply in_or_app. right.
  rewrite order_lines_parser_lines, Hl. apply in_flat_map. exists ln.
  split; [apply in_or_app; right; now left|].
  unfold order_defect. rewrite T.
  fold (item_line ln). rewrite (not_dash_led_not_item ln D), C. now left.
Qed.

Lemma stray_line_rejected_witness :
  exists errs,
    validate_structural
      (Some ("Here is my answer:" +++ nl +++ scenario_text_indented +++ "Thanks" +++ nl))
    = Ok (invalid errs [])
    /\ In "Unexpected line format: 'Thanks'" errs.
Proof.
  destruct (stray_line_rejected
              ("Here is my answer:" +++ nl +++ scenario_text_indented +++ "Thanks" +++ nl)
              (parser_lines ("Here is my answer:" +++ nl +++ scenario_text_indented))
              [] "Thanks") as (errs & V & I & _);
    try (vm_compute; reflexivity).
  exists errs. split; [exact V | exact I].
Defined.

(** ** Unknown and missing fields *)

Lemma parse_loop_key_line_mem pre ln post st :
  key_line ln = true ->
  dict_mem (key_of ln) (parsed (parse_loop (pre ++ ln :: post) st)) = true.
Proof.
  intros K. rewrite parse_loop_app by now apply key_line_boundary.
  rewrite parse_loop_key by apply (key_line_inv ln K).
  apply parse_loop_mem_mono. cbn [parsed]. rewrite dict_mem_set.
  now rewrite String.eqb_refl.
Qed.

(** X6. A key line whose name is not in the field catalog makes the text
    invalid with the unknown-field error for that name, wherever the line
    stands in the text. *)
Theorem unknown_field_rejected (text : string) (pre post : list string) (ln : string) :
  parser_lines text = pre ++ ln :: post ->
  key_line ln = true ->
  str_mem (key_of ln) REQUIRED_FIELDS = false ->
  str_mem (key_of ln) OPTIONAL_FIELDS = false ->
  exists errs,
    validate_structural (Some text) = Ok (invalid errs [])
    /\ In (msg_unknown_field (key_of ln)) errs.
Proof.
  intros Hl K R O. exists (structural_error_list text).
  assert (I : In (msg_unknown_field (key_of ln)) (structural_error_list text)).
  { apply structural_error_list_unknown. apply unknown_field_errors_in; [|exact R|exact O].
    apply dict_mem_keys. rewrite parsed_of_parse_loop, Hl.
    now apply parse_loop_key_line_mem. }
  split; [now apply (validate_structural_invalid _ _ I) | exact I].
Qed.

Lemma unknown_field_rejected_witness :
  exists errs,
    validate_structural
      (Some ("author: someone" +++ nl +++ scenario_text_indented)) = Ok (invalid errs [])
    /\ In "Unknown field 'author' not permitted by contract" errs.
Proof.
  apply (unknown_field_rejected ("author: someone" +++ nl +++ scenario_text_indented)
           [] (parser_lines scenario_text_indented) "author: someone");
    vm_compute; reflexivity.
Defined.

(** X7. When no line of the text carries the name of a required field, the
    text is invalid with the missing-field error for that name. *)
Theorem missing_field_rejected (text k : string) :
  In k REQUIRED_FIELDS ->
  (forall ln, In ln (parser_lines text) -> not_top_level ln = false -> key_of ln <> k) ->
  exists errs,
    validate_structural (Some text) = Ok (invalid errs [])
    /\ In (msg_missing_field k) errs.
Proof.
  intros R H. exists (structural_error_list text).
  assert (I : In (msg_missing_field k) (structural_error_list text)).
  { apply structural_error_list_before. unfold errors_before_order.
    apply in_or_app. left. apply in_or_app. right.
    unfold missing_field_errors. apply in_map. apply filter_In. split; [exact R|].
    unfold dict_mem. rewrite parsed_of_parse_loop, (parse_loop_get_other k _ H).
    reflexivity. }
  split; [now apply (validate_structural_invalid _ _ I) | exact I].
Qed.

Lemma missing_field_rejected_witness :
  exists errs,
    validate_structural (Some ("confidence: high" +++ nl +++ "used_sources:" +++ nl
                               +++ "- suggested_description: none" +++ nl))
    = Ok (invalid errs [])
    /\ In "Missing required field 'suggested_description'" errs.
Proof.
  apply (missing_field_rejected
           ("confidence: high" +++ nl +++ "used_sources:" +++ nl
            +++ "- suggested_description: none" +++ nl) "suggested_description").
  - cbn. tauto.
  - intros ln I T. vm_compute in I. destruct I as [I|[I|[I|[]]]]; subst ln;
      vm_compute; discriminate.
Defined.

(** X8. A text without a non-blank line gets exactly the three
    missing-field errors, in the order of [REQUIRED_FIELDS]. *)
Theorem blank_text_rejected (text : string) :
  parser_lines text = [] ->
  validate_structural (Some text) =
  Ok (invalid [ "Missing required field 'suggested_description'";
                "Missing required field 'confidence'";
                "Missing required field 'used_sources'" ] []).
Proof.
  intros H. rewrite validate_structural_closed_form.
  assert (E : structural_error_list text =
              [ "Missing required field 'suggested_description'";
                "Missing required field 'confidence'";
                "Missing required field 'used_sources'" ]).
  { unfold structural_error_list, errors_before_order.
    rewrite order_lines_parser_lines, parsed_of_parse_loop, parse_errors_of_parse_loop, H.
    reflexivity. }
  rewrite E. reflexivity.
Qed.

Lemma blank_text_rejected_witness :
  validate_structural (Some ("   " +++ nl +++ cr +++ nl +++ " ")) =
  Ok (invalid [ "Missing required field 'suggested_description'";
                "Missing required field 'confidence'";
                "Missing required field 'used_sources'" ] []).
Proof. apply blank_text_rejected. vm_compute; reflexivity. Defined.

(** ** The value stored for a field *)

Lemma parse_loop_get_last pre l post st :
  key_line l = true ->
  (forall ln, In ln post -> not_top_level ln = false -> key_of ln <> key_of l) ->
  dict_get (key_of l) (parsed (parse_loop (pre ++ l :: post) st)) = Some (field_value l post).
Proof.
  intros K H. rewrite parse_loop_app by now apply key_line_boundary.
  rewrite parse_loop_key by apply (key_line_inv l K).
  rewrite parse_loop_get_other.
  - cbn [parsed]. apply dict_get_set_same.
  - intros ln I. apply H. now apply (after_key_incl l post).
Qed.

(** X9. The value the parser stores for a field is the one of the last key
    line that carries its name: the empty list for [[]], the items under
    the line (or [None] when there is none) for an empty value, and
    otherwise the scalar without its surrounding quotes. *)
Theorem stored_value_of_last_key_line (text : string) (pre post : list string) (l : string) :
  parser_lines text = pre ++ l :: post ->
  key_line l = true ->
  (forall ln, In ln post -> not_top_level ln = false -> key_of ln <> key_of l) ->
  dict_get (key_of l) (fst (_parse_yaml_subset (Some text))) =
  Some (if String.eqb (value_of l) "[]" then PList []
        else if String.eqb (value_of l) ""
             then items_or_none (map item_text (filter item_line (takewhile dash_led post)))
             else PStr (unquote (value_of l))).
Proof.
  intros Hl K H. fold (parsed_of text). rewrite parsed_of_parse_loop, Hl.
  now apply parse_loop_get_last.
Qed.

Lemma stored_value_of_last_key_line_witness :
  dict_get (key_of "suggested_description: 'Quarterly revenue summary'  ")
    (fst (_parse_yaml_subset
            (Some ("suggested_description: 'Quarterly revenue summary'  " +++ nl
                   +++ "confidence: low" +++ nl))))
  = Some (PStr "Quarterly revenue summary").
Proof.
  etransitivity.
  - apply (stored_value_of_last_key_line
             ("suggested_description: 'Quarterly revenue summary'  " +++ nl
              +++ "confidence: low" +++ nl)
             [] ["confidence: low"] "suggested_description: 'Quarterly revenue summary'  ").
    + vm_compute; reflexivity.
    + vm_compute; reflexivity.
    + intros ln [<-|[]] _. vm_compute. discriminate.
  - vm_compute; reflexivity.
Defined.

Lemma structural_error_list_type text e :
  In e (type_errors (parsed_of text)) -> In e (structural_error_list text).
Proof.
  intros H. apply structural_error_list_before. unfold errors_before_order.
  apply in_or_app. now right.
Qed.

Lemma items_or_none_not_str items : isinstance_str (items_or_none items) = false.
Proof. unfold items_or_none. destruct items; reflexivity. Qed.

(** X10. The shape of the last key line of a field decides its type error.
    [used_sources: []] gives [must contain at least one item];
    [used_sources] with a scalar value, or with an empty value and no item
    under it, gives [must be a non-empty array]; [suggested_description] or
    [confidence] written as [[]] or with an empty value (with or without
    items) gives [must be a string]; [warnings] with a scalar value, or an
    empty value and no item, gives [must be an array when present]. *)
Theorem field_shape_errors (text : string) (pre post : list string) (l : string) :
  parser_lines text = pre ++ l :: post ->
  key_line l = true ->
  (forall ln, In ln post -> not_top_level ln = false -> key_of ln <> key_of l) ->
  let no_item := filter item_line (takewhile dash_led post) = [] in
  let errs := structural_error_list text in
  validate_structural (Some text) =
    Ok (if negb (is_empty errs) then invalid errs [] else valid)
  /\ (key_of l = "used_sources" -> value_of l = "[]" ->
      In "Field 'used_sources' must contain at least one item" errs)
  /\ (key_of l = "used_sources" -> value_of l <> "[]" ->
      value_of l <> "" \/ no_item ->
      In "Field 'used_sources' must be a non-empty array" errs)
  /\ (key_of l = "suggested_description" -> value_of l = "[]" \/ value_of l = "" ->
      In "Field 'suggested_description' must be a string" errs)
  /\ (key_of l = "confidence" -> value_of l = "[]" \/ value_of l = "" ->
      In "Field 'confidence' must be a string" errs)
  /\ (key_of l = "warnings" -> value_of l <> "[]" ->
      value_of l <> "" \/ no_item ->
      In "Field 'warnings' must be an array when present" errs).
Proof.
  intros Hl K H no_item errs.
  assert (G : dict_get (key_of l) (parsed_of text) = Some (field_value l post)).
  { rewrite parsed_of_parse_loop, Hl. now apply parse_loop_get_last. }
  split; [apply validate_structural_closed_form|].
  assert (Scalar_or_none :
            value_of l <> "[]" -> value_of l <> "" \/ no_item ->
            isinstance_list (field_value l post) = false).
  { intros N1 N2. unfold field_value.
    destruct (String.eqb_spec (value_of l) "[]"); [contradiction|].
    destruct (String.eqb_spec (value_of l) "") as [E|E]; [|reflexivity].
    destruct N2 as [N2|N2]; [contradiction|]. unfold no_item in N2. now rewrite N2. }
  assert (Not_str :
            value_of l = "[]" \/ value_of l = "" ->
            isinstance_str (field_value l post) = false).
  { intros [E|E]; unfold field_value; rewrite E; cbn [String.eqb]; [reflexivity|].
    apply items_or_none_not_str. }
  repeat split.
  - intros Ek Ev. apply structural_error_list_type. unfold type_errors.
    rewrite Ek in G. rewrite G. unfold field_value. rewrite Ev. cbn [String.eqb].
    apply in_or_app. right. apply in_or_app. right. apply in_or_app. left.
    cbn. now left.
  - intros Ek N1 N2. apply structural_error_list_type. unfold type_errors.
    rewrite Ek in G. rewrite G. specialize (Scalar_or_none N1 N2).
    apply in_or_app. right. apply in_or_app. right. apply in_or_app. left.
    destruct (field_value l post); try discriminate; now left.
  - intros Ek Ev. apply structural_error_list_type. unfold type_errors.
    rewrite Ek in G. rewrite G, (Not_str Ev). apply in_or_app. left. now left.
  - intros Ek Ev. apply structural_error_list_type. unfold type_errors.
    rewrite Ek in G. rewrite G, (Not_str Ev).
    apply in_or_app. right. apply in_or_app. left. now left.
  - intros Ek N1 N2. apply structural_error_list_type. unfold type_errors.
    rewrite Ek in G. rewrite G. specialize (Scalar_or_none N1 N2).
    apply in_or_app. right. apply in_or_app. right. apply in_or_app. right.
    destruct (field_value l post); try discriminate; now left.
Qed.

Lemma field_shape_errors_witness :
  In "Field 'used_sources' must be a non-empty array"
     (structural_error_list ("used_sources:" +++ nl +++ "-x" +++ nl +++ "confidence:" +++ nl)).
Proof.
  destruct (field_shape_errors
              ("used_sources:" +++ nl +++ "-x" +++ nl +++ "confidence:" +++ nl)
              [] ["-x"; "confidence:"] "used_sources:") as (_ & _ & W & _).
  - vm_compute; reflexivity.
  - vm_compute; reflexivity.
  - intros ln [<-|[<-|[]]] _; vm_compute; discriminate.
  - apply W.
    + vm_compute; reflexivity.
    + vm_compute; discriminate.
    + right. vm_compute; reflexivity.
Defined.

(** ** Blank lines and line endings *)

Lemma structural_error_list_lines t1 t2 :
  parser_lines t1 = parser_lines t2 ->
  structural_error_list t1 = structural_error_list t2
  /\ parse_errors_of t1 = parse_errors_of t2
  /\ parsed_of t1 = parsed_of t2.
Proof.
  intros H.
  assert (P : parsed_of t1 = parsed_of t2) by (rewrite !parsed_of_parse_loop; now rewrite H).
  assert (E : parse_errors_of t1 = parse_errors_of t2)
    by (rewrite !parse_errors_of_parse_loop; now rewrite H).
  split; [|now split].
  unfold structural_error_list, errors_before_order.
  now rewrite !order_lines_parser_lines, P, E, H.
Qed.

Lemma validate_output_with_lines sem t1 t2 :
  parser_lines t1 = parser_lines t2 ->
  validate_output_with sem (Some t1) = validate_output_with sem (Some t2).
Proof.
  intros H. destruct (structural_error_list_lines t1 t2 H) as (S & E & P).
  unfold validate_output_with. rewrite !validate_structural_closed_form, S. cbn [bind].
  destruct (negb (is_valid _)); [reflexivity|].
  fold (parsed_of t1) (parsed_of t2).
  change (_parse_yaml_subset (Some t1)) with (_parse_yaml_subset (Some t1)).
  unfold parsed_of, parse_errors_of in *.
  destruct (_parse_yaml_subset (Some t1)) as [p1 e1],
           (_parse_yaml_subset (Some t2)) as [p2 e2].
  cbn [fst snd] in *. now subst.
Qed.

(** A carriage return after [base] ends its last line, adding at most one
    empty line. *)
Lemma splitlines_app_cr n :
  forall base, String.length base <= n ->
  exists e, (e = [] \/ e = [""]) /\ splitlines (base +++ cr) = splitlines base ++ e.
Proof.
  induction n as [n IH] using lt_wf_ind. intros base Hn.
  destruct base as [|c b].
  - exists [""]. split; [now right | reflexivity].
  - cbn [String.length] in Hn. cbn [String.append].
    rewrite !splitlines_cons.
    destruct (Ascii.eqb c "013") eqn:Ecr.
    + destruct b as [|c' b'].
      * exists [""]. split; [now right | reflexivity].
      * cbn [String.append]. destruct (Ascii.eqb c' "010").
        -- destruct (IH (String.length b') ltac:(cbn in Hn; lia) b' (le_n _))
             as (e & He & E).
           exists e. split; [exact He|]. now rewrite E.
        -- destruct (IH (String.length (String c' b')) ltac:(lia) (String c' b') (le_n _))
             as (e & He & E).
           exists e. split; [exact He|]. cbn [String.append] in E. now rewrite E.
    + destruct (IH (String.length b) ltac:(lia) b (le_n _)) as (e & He & E).
      destruct (is_linebreak c).
      * exists e. split; [exact He|]. now rewrite E.
      * destruct (splitlines b) as [|l ls] eqn:Sb.
        -- apply splitlines_nil in Sb. subst b. exists []. split; [now left|].
           reflexivity.
        -- exists e. split; [exact He|]. rewrite E. reflexivity.
Qed.

Lemma parser_lines_app_cr base : parser_lines (base +++ cr) = parser_lines base.
Proof.
  unfold parser_lines.
  destruct (splitlines_app_cr _ base (le_n _)) as (e & He & E).
  rewrite E, map_app, filter_app.
  destruct He as [-> | ->]; cbn; now rewrite app_nil_r.
Qed.

Lemma append_assoc a b c : (a +++ b) +++ c = a +++ b +++ c.
Proof. induction a as [|x a IH]; cbn; [reflexivity | now rewrite IH]. Qed.

(** X11. The result of [validate_output] depends on the non-blank lines of
    the text only: an added empty line, a carriage return before a line
    feed, or a final line feed changes nothing. *)
Theorem blank_lines_and_line_endings_ignored (a b : string) :
  validate_output (Some (a +++ nl +++ nl +++ b)) = validate_output (Some (a +++ nl +++ b))
  /\ validate_output (Some (a +++ cr +++ nl +++ b)) = validate_output (Some (a +++ nl +++ b))
  /\ validate_output (Some (a +++ nl)) = validate_output (Some a)
  /\ (forall t1 t2, parser_lines t1 = parser_lines t2 ->
                    validate_output (Some t1) = validate_output (Some t2)).
Proof.
  repeat split.
  - apply validate_output_with_lines.
    rewrite !parser_lines_app_nl.
    change (parser_lines (nl +++ b)) with (parser_lines ("" +++ nl +++ b)).
    now rewrite parser_lines_app_nl.
  - apply validate_output_with_lines.
    rewrite <- append_assoc, !parser_lines_app_nl. now rewrite parser_lines_app_cr.
  - apply validate_output_with_lines.
    change (a +++ nl) with (a +++ nl +++ ""). rewrite parser_lines_app_nl.
    cbn. now rewrite app_nil_r.
  - intros t1 t2 H. now apply validate_output_with_lines.
Qed.

(** ** Quotes around a scalar *)

Lemma substring_0_app s t : substring 0 (String.length s) (s +++ t) = s.
Proof.
  induction s as [|c s IH]; cbn.
  - destruct t; reflexivity.
  - now rewrite IH.
Qed.

Lemma length_app s t : String.length (s +++ t) = String.length s + String.length t.
Proof. induction s as [|c s IH]; cbn; [reflexivity | now rewrite IH]. Qed.

Lemma substring_skip s t n : substring (String.length s) n (s +++ t) = substring 0 n t.
Proof. induction s as [|c s IH]; cbn; [reflexivity | exact IH]. Qed.

Lemma endswith_last s c : endswith (s +++ String c "") (String c "") = true.
Proof.
  unfold endswith. rewrite length_app. cbn [String.length].
  replace (String.length s + 1 - 1) with (String.length s) by lia.
  rewrite substring_skip.
  replace (substring 0 1 (String c "")) with (String c "") by reflexivity.
  rewrite String.eqb_refl, andb_true_r. apply Nat.leb_le. lia.
Qed.

Lemma endswith_last_other s c c' :
  c <> c' -> endswith (s +++ String c "") (String c' "") = false.
Proof.
  intros N. unfold endswith. rewrite length_app. cbn [String.length].
  replace (String.length s + 1 - 1) with (String.length s) by lia.
  rewrite substring_skip.
  replace (substring 0 1 (String c "")) with (String c "") by reflexivity.
  assert (E : String.eqb (String c "") (String c' "") = false).
  { apply String.eqb_neq. intros H. injection H as H. contradiction. }
  rewrite E. apply andb_false_r.
Qed.

Lemma slice_1_m1_wrapped q q' s : slice_1_m1 (String q (s +++ String q' "")) = s.
Proof.
  unfold slice_1_m1. cbn [String.length]. rewrite length_app. cbn [String.length].
  replace (S (String.length s + 1) - 2) with (String.length s) by lia.
  cbn [substring]. destruct (String.length s) eqn:L.
  - destruct s; [reflexivity | discriminate].
  - rewrite <- L. apply substring_0_app.
Qed.

(** X12. Exactly one pair of matching quotes is taken off a scalar: a
    value between two double quotes, or between two single quotes, is
    stored as the text between them (a value that is one quote character
    alone becomes empty), while a value with different quotes at its ends,
    or one that does not start with a quote, is stored as it is. *)
Theorem unquote_strips_one_pair (s : string) :
  unquote (dq +++ s +++ dq) = s
  /\ unquote (sq +++ s +++ sq) = s
  /\ unquote dq = "" /\ unquote sq = ""
  /\ unquote (dq +++ s +++ sq) = dq +++ s +++ sq
  /\ unquote (sq +++ s +++ dq) = sq +++ s +++ dq
  /\ (startswith s dq = false -> startswith s sq = false -> unquote s = s).
Proof.
  unfold dq, sq. cbn [String.append].
  repeat split; try reflexivity.
  - unfold unquote, dq, sq. cbn [startswith]. rewrite Ascii.eqb_refl. cbn [andb].
    change (String "034" (s +++ String "034" ""))
      with ((String "034" s) +++ String "034" "").
    rewrite endswith_last. cbn [orb].
    apply (slice_1_m1_wrapped "034" "034").
  - unfold unquote, dq, sq. cbn [startswith].
    change (String "039" (s +++ String "039" ""))
      with ((String "039" s) +++ String "039" "").
    rewrite endswith_last. rewrite Ascii.eqb_refl. cbn [andb].
    replace (Ascii.eqb "034" "039") with false by reflexivity. cbn [andb orb].
    apply (slice_1_m1_wrapped "039" "039").
  - unfold unquote, dq, sq. cbn [startswith].
    change (String "034" (s +++ String "039" ""))
      with ((String "034" s) +++ String "039" "").
    rewrite (endswith_last_other (String "034" s) "039" "034") by discriminate.
    replace (Ascii.eqb "039" "034") with false by reflexivity.
    now rewrite andb_false_r.
  - unfold unquote, dq, sq. cbn [startswith].
    change (String "039" (s +++ String "034" ""))
      with ((String "039" s) +++ String "034" "").
    rewrite (endswith_last_other (String "039" s) "034" "039") by discriminate.
    replace (Ascii.eqb "034" "039") with false by reflexivity.
    now rewrite andb_false_r.
  - intros H1 H2. unfold unquote, dq, sq in *. now rewrite H1, H2.
Qed.

Lemma unquote_strips_one_pair_witness : unquote "plain text" = "plain text".
Proof.
  destruct (unquote_strips_one_pair "plain text") as (_ & _ & _ & _ & _ & _ & W).
  apply W; reflexivity.
Defined.

(** ** The semantic validator *)

Lemma validate_semantic_result d :
  validate_semantic d =
  match confidence_errors (get_default "confidence" d PNone) with
  | Ok _ => Ok (if negb (is_empty (semantic_error_list d))
                then invalid [] (semantic_error_list d) else valid)
  | Raise e => Raise e
  end.
Proof.
  unfold validate_semantic, semantic_error_list.
  destruct (confidence_errors (get_default "confidence" d PNone)); reflexivity.
Qed.

(** X13. [validate_semantic] raises exactly when the value of [confidence]
    cannot be hashed (a list or a dict), and then it raises [TypeError];
    on every other dict it returns a result. *)
Theorem semantic_raises_on_unhashable_confidence (d : dict) :
  let conf := get_default "confidence" d PNone in
  (hashable conf = false -> validate_semantic d = Raise TypeError)
  /\ (hashable conf = true -> exists r, validate_semantic d = Ok r)
  /\ (forall e, validate_semantic d = Raise e -> e = TypeError /\ hashable conf = false).
Proof.
  intros conf. rewrite validate_semantic_result. fold conf.
  destruct conf; cbn [confidence_errors hashable]; repeat split;
    intros; try discriminate; try congruence; eauto.
Qed.

Lemma semantic_raises_on_unhashable_confidence_witness :
  validate_semantic [("suggested_description", PStr "Monthly churn figures by region.");
                     ("confidence", PList [PStr "high"]);
                     ("used_sources", PList [PStr "churn.csv"])] = Raise TypeError.
Proof.
  apply (proj1 (semantic_raises_on_unhashable_confidence
                  [("suggested_description", PStr "Monthly churn figures by region.");
                   ("confidence", PList [PStr "high"]);
                   ("used_sources", PList [PStr "churn.csv"])])).
  reflexivity.
Defined.

Lemma source_item_errors_nil l :
  forall idx,
    source_item_errors idx l = [] <->
    Forall (fun v => exists s, v = PStr s /\ strip s <> ""
                               /\ re_search FORBIDDEN_SOURCES s = false) l.
Proof.
  induction l as [|v l IH]; intros idx; cbn [source_item_errors].
  - split; [constructor | reflexivity].
  - split.
    + intros H. apply app_eq_nil in H. destruct H as [H1 H2].
      constructor; [|now apply (IH (S idx))].
      destruct v as [ | |s| | ]; try discriminate.
      exists s. split; [reflexivity|].
      destruct (String.eqb_spec (strip s) ""); [discriminate|].
      split; [assumption|].
      destruct (re_search FORBIDDEN_SOURCES s); [discriminate | reflexivity].
    + intros H. apply Forall_cons_iff in H. destruct H as [(s & -> & N & R) H].
      apply (IH (S idx)) in H. rewrite H, R.
      destruct (String.eqb_spec (strip s) ""); [contradiction | reflexivity].
Qed.

(** X14. [validate_semantic] returns the valid result exactly for the dicts
    whose description is a non-blank string of 10 to 500 characters that
    matches none of the generic, forbidden-concept and speculative
    patterns, whose confidence is [low], [medium] or [high], and whose
    sources are a non-empty list of non-blank strings none of which matches
    the forbidden-source pattern. *)
Theorem semantic_valid_iff (d : dict) :
  validate_semantic d = Ok valid <->
  (exists desc conf srcs,
      dict_get "suggested_description" d = Some (PStr desc)
      /\ strip desc <> ""
      /\ 10 <= String.length desc <= 500
      /\ existsb (fun pat => re_search pat desc) GENERIC_PATTERNS = false
      /\ existsb (fun pat => re_search pat desc) FORBIDDEN_PHRASES = false
      /\ existsb (fun pat => re_search pat desc) FORBIDDEN_LANGUAGE = false
      /\ dict_get "confidence" d = Some (PStr conf)
      /\ In conf CONFIDENCE_ALLOWED
      /\ dict_get "used_sources" d = Some (PList srcs)
      /\ srcs <> []
      /\ Forall (fun v => exists s, v = PStr s /\ strip s <> ""
                                    /\ re_search FORBIDDEN_SOURCES s = false) srcs).
Proof.
  rewrite validate_semantic_result. unfold semantic_error_list, get_default. split.
  - intros H.
    destruct (confidence_errors match dict_get "confidence" d with
                                | Some v => v
                                | None => PNone
                                end) as [ce|] eqn:C; [|discriminate].
    match type of H with
    | Ok (if negb (is_empty ?l) then _ else _) = _ => destruct l eqn:E; [|discriminate]
    end.
    clear H. apply app_eq_nil in E. destruct E as [E Es].
    apply app_eq_nil in E. destruct E as [Ed Ec]. subst ce.
    destruct (dict_get "suggested_description" d) as [[ | |desc| | ]|];
      cbn [description_errors] in Ed; try discriminate.
    destruct (String.eqb_spec (strip desc) "") as [|Nb]; [discriminate|].
    apply app_eq_nil in Ed. destruct Ed as [E1 Ed].
    apply app_eq_nil in Ed. destruct Ed as [E2 Ed].
    apply app_eq_nil in Ed. destruct Ed as [E3 Ed].
    apply app_eq_nil in Ed. destruct Ed as [E4 E5].
    destruct (Nat.ltb_spec (String.length desc) 10); [discriminate|].
    destruct (Nat.ltb_spec 500 (String.length desc)); [discriminate|].
    destruct (existsb _ GENERIC_PATTERNS) eqn:G1; [discriminate|].
    destruct (existsb _ FORBIDDEN_PHRASES) eqn:G2; [discriminate|].
    destruct (existsb _ FORBIDDEN_LANGUAGE) eqn:G3; [discriminate|].
    destruct (dict_get "confidence" d) as [[ | |conf| | ]|];
      cbn [confidence_errors] in C; try discriminate.
    injection C as C.
    assert (M : str_mem conf CONFIDENCE_ALLOWED = true).
    { destruct (str_mem conf CONFIDENCE_ALLOWED) eqn:M'; [reflexivity|].
      unfold str_mem, CONFIDENCE_ALLOWED in M'. cbn [existsb] in M'.
      rewrite M' in C. discriminate C. }
    destruct (dict_get "used_sources" d) as [[ | | |srcs| ]|];
      cbn [sources_errors] in Es; try discriminate.
    destruct srcs as [|s0 srcs]; [discriminate|]. cbn [List.length Nat.eqb] in Es.
    exists desc, conf, (s0 :: srcs).
    repeat split; try assumption; try lia; try discriminate.
    + unfold str_mem in M. apply existsb_exists in M. destruct M as (x & I & Ex).
      apply String.eqb_eq in Ex. now subst x.
    + now apply (source_item_errors_nil (s0 :: srcs) 0).
  - intros (desc & conf & srcs & Hd & Nb & [L1 L2] & G1 & G2 & G3 & Hc & Ic & Hs & Ns & F).
    rewrite Hd, Hc, Hs. cbn [confidence_errors description_errors sources_errors].
    destruct (String.eqb_spec (strip desc) ""); [contradiction|].
    destruct (Nat.ltb_spec (String.length desc) 10); [lia|].
    destruct (Nat.ltb_spec 500 (String.length desc)); [lia|].
    rewrite G1, G2, G3.
    assert (M : str_mem conf CONFIDENCE_ALLOWED = true).
    { unfold str_mem. apply existsb_exists. exists conf. split; [exact Ic|].
      apply String.eqb_refl. }
    rewrite M. cbn [negb app].
    destruct srcs as [|s0 srcs]; [contradiction|]. cbn [List.length Nat.eqb].
    apply (source_item_errors_nil (s0 :: srcs) 0) in F. rewrite F. reflexivity.
Qed.

Lemma source_errors_prefix v :
  Forall (fun e => startswith e "used_sources" = true) (sources_errors v).
Proof.
  assert (H : forall l idx,
             Forall (fun e => startswith e "used_sources" = true) (source_item_errors idx l)).
  { induction l as [|x l IH]; intros idx; cbn [source_item_errors]; [constructor|].
    apply Forall_app. split; [|apply IH].
    destruct x as [ | |t| | ]; repeat constructor.
    destruct (String.eqb (strip t) ""); [repeat constructor|].
    destruct (re_search FORBIDDEN_SOURCES t); repeat constructor. }
  unfold sources_errors. destruct v as [ | | |l| ]; repeat constructor.
  destruct (List.length l =? 0)%nat; [repeat constructor | apply H].
Qed.

Lemma confidence_errors_cases v l :
  confidence_errors v = Ok l -> l = [] \/ l = [msg_confidence].
Proof.
  destruct v as [ | |s| | ]; cbn [confidence_errors]; intros H; try discriminate;
    injection H as H; subst l.
  - now right.
  - now right.
  - destruct (negb _); [now right | now left].
Qed.

(** X15. The length bounds of the description are inclusive: for a
    non-blank description the too-short error is reported exactly when its
    length is below 10, and the too-long error exactly when it is above
    500. *)
Theorem description_length_bounds (d : dict) (desc : string) :
  dict_get "suggested_description" d = Some (PStr desc) ->
  strip desc <> "" ->
  hashable (get_default "confidence" d PNone) = true ->
  exists r,
    validate_semantic d = Ok r
    /\ (In msg_desc_short (semantic_errors r) <-> String.length desc < 10)
    /\ (In msg_desc_long (semantic_errors r) <-> 500 < String.length desc).
Proof.
  intros Hd Nb Hh. rewrite validate_semantic_result.
  destruct (confidence_errors (get_default "confidence" d PNone)) as [ce|e] eqn:C.
  2:{ destruct (get_default "confidence" d PNone); discriminate. }
  eexists. split; [reflexivity|].
  assert (S : semantic_errors (if negb (is_empty (semantic_error_list d))
                               then invalid [] (semantic_error_list d) else valid)
              = semantic_error_list d).
  { destruct (semantic_error_list d); reflexivity. }
  rewrite S. unfold semantic_error_list. rewrite C.
  replace (get_default "suggested_description" d (PStr "")) with (PStr desc)
    by (unfold get_default; now rewrite Hd).
  cbn [description_errors].
  destruct (String.eqb_spec (strip desc) ""); [contradiction|].
  pose proof (source_errors_prefix (get_default "used_sources" d (PList []))) as Fs.
  rewrite Forall_forall in Fs.
  assert (Other : forall m,
             startswith m "used_sources" = false -> m <> msg_confidence ->
             m <> msg_desc_generic -> m <> msg_desc_forbidden -> m <> msg_desc_language ->
             forall a b,
               In m ((a ++ b
                        ++ (if existsb (fun pat => re_search pat desc) GENERIC_PATTERNS
                            then [msg_desc_generic] else [])
                        ++ (if existsb (fun pat => re_search pat desc) FORBIDDEN_PHRASES
                            then [msg_desc_forbidden] else [])
                        ++ (if existsb (fun pat => re_search pat desc) FORBIDDEN_LANGUAGE
                            then [msg_desc_language] else []))
                       ++ ce)
                  \/ In m (sources_errors (get_default "used_sources" d (PList [])))
               -> In m a \/ In m b).
  { intros m P N0 N1 N2 N3 a b [I|I].
    - apply in_app_or in I. destruct I as [I|I].
      + apply in_app_or in I. destruct I as [I|I]; [now left|].
        apply in_app_or in I. destruct I as [I|I]; [now right|].
        exfalso. repeat (apply in_app_or in I; destruct I as [I|I]);
          match type of I with
          | In _ (if ?c then _ else _) => destruct c
          end; cbn in I; intuition congruence.
      + exfalso. destruct (confidence_errors_cases _ _ C) as [->| ->]; cbn in I;
          intuition congruence.
    - exfalso. specialize (Fs m I). congruence. }
  split.
  - split.
    + intros I. apply in_app_or in I.
      apply (Other msg_desc_short) in I; try reflexivity; try discriminate.
      destruct (Nat.ltb_spec (String.length desc) 10); [assumption|].
      destruct I as [[]|I].
      destruct (500 <? String.length desc)%nat; cbn in I; intuition discriminate.
    + intros L. destruct (Nat.ltb_spec (String.length desc) 10); [|lia].
      apply in_or_app. left. apply in_or_app. left. now left.
  - split.
    + intros I. apply in_app_or in I.
      apply (Other msg_desc_long) in I; try reflexivity; try discriminate.
      destruct (Nat.ltb_spec 500 (String.length desc)); [assumption|].
      destruct I as [I|[]].
      destruct (String.length desc <? 10)%nat; cbn in I; intuition discriminate.
    + intros L. destruct (Nat.ltb_spec 500 (String.length desc)); [|lia].
      apply in_or_app. left. apply in_or_app. left. apply in_or_app. right.
      apply in_or_app. left. now left.
Qed.

Lemma description_length_bounds_witness :
  exists r,
    validate_semantic [("suggested_description", PStr "Ten chars.");
                       ("confidence", PStr "low");
                       ("used_sources", PList [PStr "notes.md"])] = Ok r
    /\ (In msg_desc_short (semantic_errors r) <-> String.length "Ten chars." < 10).
Proof.
  destruct (description_length_bounds
              [("suggested_description", PStr "Ten chars.");
               ("confidence", PStr "low");
               ("used_sources", PList [PStr "notes.md"])] "Ten chars.")
    as (r & V & S & _).
  - reflexivity.
  - vm_compute; discriminate.
  - reflexivity.
  - exists r. split; [exact V | exact S].
Defined.

Lemma semantic_valid_iff_witness :
  validate_semantic [("suggested_description", PStr "Annual report detailing emissions.");
                     ("confidence", PStr "high");
                     ("used_sources", PList [PStr "Document: report.pdf, Page 1"])]
  = Ok valid.
Proof.
  apply (proj2 (semantic_valid_iff
                  [("suggested_description", PStr "Annual report detailing emissions.");
                   ("confidence", PStr "high");
                   ("used_sources", PList [PStr "Document: report.pdf, Page 1"])])).
  exists "Annual report detailing emissions.", "high", [PStr "Document: report.pdf, Page 1"].
  repeat split; try (vm_compute; reflexivity); try (vm_compute; discriminate).
  - cbn. lia.
  - cbn. lia.
  - cbn. tauto.
  - constructor; [|constructor]. eexists. split; [reflexivity|].
    split; [vm_compute; discriminate | vm_compute; reflexivity].
Defined.

Lemma isspace_lower c : isspace (lower_char c) = isspace c.
Proof. destruct c as [[] [] [] [] [] [] [] []]; reflexivity. Qed.

Lemma lower_not_blank t :
  forall t', lower t' = lower t -> all_chars isspace t = false -> all_chars isspace t' = false.
Proof.
  induction t as [|c t IH]; intros t' H A; destruct t' as [|c' t'];
    cbn [lower] in H; try discriminate.
  injection H as Hc Ht. cbn [all_chars] in *.
  rewrite <- isspace_lower, Hc, isspace_lower.
  destruct (isspace c); [|reflexivity]. cbn [andb] in *. now apply IH.
Qed.

Lemma forbidden_source_search t t' pre post :
  In t FORBIDDEN_SOURCE_TERMS -> lower t' = lower t ->
  re_search FORBIDDEN_SOURCES (pre +++ t' +++ post) = true.
Proof.
  intros I L. unfold re_search. apply search_from_app.
  unfold FORBIDDEN_SOURCES. cbn [rmatch].
  unfold FORBIDDEN_SOURCE_TERMS in I. cbn [In] in I.
  destruct I as [<-|[<-|[<-|[<-|[]]]]];
    [ rewrite (rmatch_lits "general knowledge" t') by exact L
    | rewrite (rmatch_lits "training data" t') by exact L
    | rewrite (rmatch_lits "internet" t') by exact L
    | rewrite (rmatch_lits "wikipedia" t') by exact L ];
    rewrite ?orb_true_r; reflexivity.
Qed.

Lemma source_item_errors_nth l :
  forall idx i s,
    nth_error l i = Some (PStr s) ->
    strip s <> "" -> re_search FORBIDDEN_SOURCES s = true ->
    In (msg_source_forbidden (idx + i)) (source_item_errors idx l).
Proof.
  induction l as [|v l IH]; intros idx i s N B R; [destruct i; discriminate|].
  cbn [source_item_errors]. apply in_or_app. destruct i as [|i]; cbn [nth_error] in N.
  - left. injection N as ->. rewrite R.
    destruct (String.eqb_spec (strip s) ""); [contradiction|].
    rewrite Nat.add_0_r. now left.
  - right. replace (idx + S i) with (S idx + i) by lia. now apply (IH (S idx) i s).
Qed.

(** X16. A source that contains one of the terms [general knowledge],
    [training data], [internet], [wikipedia] anywhere in its text, in any
    letter case and also inside a longer word, is rejected with the
    forbidden-source error that carries its index in [used_sources]. *)
Theorem forbidden_source_rejected
        (d : dict) (srcs : list pyvalue) (i : nat) (t t' pre post : string) :
  hashable (get_default "confidence" d PNone) = true ->
  dict_get "used_sources" d = Some (PList srcs) ->
  nth_error srcs i = Some (PStr (pre +++ t' +++ post)) ->
  In t FORBIDDEN_SOURCE_TERMS ->
  lower t' = lower t ->
  exists errs,
    validate_semantic d = Ok (invalid [] errs)
    /\ In (msg_source_forbidden i) errs.
Proof.
  intros Hh Hs N It L. exists (semantic_error_list d).
  assert (I : In (msg_source_forbidden i) (semantic_error_list d)).
  { unfold semantic_error_list. apply in_or_app. right.
    unfold get_default. rewrite Hs. cbn [sources_errors].
    destruct srcs as [|s0 srcs]; [destruct i; discriminate|].
    cbn [List.length Nat.eqb].
    apply (source_item_errors_nth (s0 :: srcs) 0 i (pre +++ t' +++ post) N).
    - intros E. apply String.eqb_eq in E. rewrite strip_blank, !all_chars_app in E.
      assert (B : all_chars isspace t' = false).
      { apply (lower_not_blank t t' L).
        unfold FORBIDDEN_SOURCE_TERMS in It. cbn [In] in It.
        destruct It as [<-|[<-|[<-|[<-|[]]]]]; reflexivity. }
      rewrite B in E. rewrite andb_false_r in E. cbn [andb] in E.
      destruct (all_chars isspace pre); discriminate.
    - now apply (forbidden_source_search t). }
  split; [|exact I].
  rewrite validate_semantic_result.
  destruct (confidence_errors (get_default "confidence" d PNone)) eqn:C.
  - destruct (semantic_error_list d); [contradiction | reflexivity].
  - destruct (get_default "confidence" d PNone); discriminate.
Qed.

Lemma forbidden_source_rejected_witness :
  exists errs,
    validate_semantic [("suggested_description", PStr "Annual report detailing emissions.");
                       ("confidence", PStr "high");
                       ("used_sources", PList [PStr "report.pdf"; PStr "the Wikipedian wiki"])]
    = Ok (invalid [] errs)
    /\ In "used_sources[1] references forbidden source identifiers" errs.
Proof.
  apply (forbidden_source_rejected
           [("suggested_description", PStr "Annual report detailing emissions.");
            ("confidence", PStr "high");
            ("used_sources", PList [PStr "report.pdf"; PStr "the Wikipedian wiki"])]
           [PStr "report.pdf"; PStr "the Wikipedian wiki"] 1
           "wikipedia" "Wikipedia" "the " "n wiki").
  - reflexivity.
  - reflexivity.
  - reflexivity.
  - cbn. tauto.
  - reflexivity.
Defined.

(** X17. A key that is missing from the dict is reported, not raised: a
    missing description gives the non-empty-string error, a missing
    confidence the closed-set error, and missing sources the
    non-empty-array error. *)
Theorem semantic_missing_keys (d : dict) :
  hashable (get_default "confidence" d PNone) = true ->
  exists r,
    validate_semantic d = Ok r
    /\ (dict_get "suggested_description" d = None -> In msg_desc_nonempty (semantic_errors r))
    /\ (dict_get "confidence" d = None -> In msg_confidence (semantic_errors r))
    /\ (dict_get "used_sources" d = None -> In msg_sources_nonempty (semantic_errors r)).
Proof.
  intros Hh. rewrite validate_semantic_result.
  destruct (confidence_errors (get_default "confidence" d PNone)) as [ce|e] eqn:C.
  2:{ destruct (get_default "confidence" d PNone); discriminate. }
  eexists. split; [reflexivity|].
  assert (S : forall e, In e (semantic_error_list d) ->
                        In e (semantic_errors
                                (if negb (is_empty (semantic_error_list d))
                                 then invalid [] (semantic_error_list d) else valid))).
  { intros e I. destruct (semantic_error_list d); [contradiction | exact I]. }
  repeat split; intros H; apply S; unfold semantic_error_list, get_default in *;
    rewrite H in *.
  - apply in_or_app. left. apply in_or_app. left. now left.
  - apply in_or_app. left. apply in_or_app. right. now left.
  - apply in_or_app. right. now left.
Qed.

Lemma semantic_missing_keys_witness :
  exists r, validate_semantic [] = Ok r /\ In msg_sources_nonempty (semantic_errors r).
Proof.
  destruct (semantic_missing_keys []) as (r & V & _ & _ & S); [reflexivity|].
  exists r. split; [exact V | now apply S].
Defined.

(** ** The decision function *)

(** X18. [decide_reprocess_or_skip] raises [TypeError] when the current
    hash is not a string, whatever the previous state is, and for a string
    it always returns a decision. *)
Theorem decision_raises_only_on_current_hash (current_hash previous_state : pyvalue) :
  (isinstance_str current_hash = false ->
   decide_reprocess_or_skip current_hash previous_state = Raise TypeError)
  /\ (isinstance_str current_hash = true ->
      exists r, decide_reprocess_or_skip current_hash previous_state = Ok r).
Proof.
  split; intros H; destruct current_hash; try discriminate; try reflexivity.
  unfold decide_reprocess_or_skip.
  destruct previous_state; try (eexists; reflexivity);
    destruct (extract_previous_hash _) as [p|]; try (eexists; reflexivity);
    destruct (String.eqb p ""); try (eexists; reflexivity);
    destruct (String.eqb p s); eexists; reflexivity.
Qed.

Lemma decision_raises_only_on_current_hash_witness :
  decide_reprocess_or_skip (PInt 123) PNone = Raise TypeError.
Proof.
  apply (proj1 (decision_raises_only_on_current_hash (PInt 123) PNone)). reflexivity.
Defined.

Lemma decide_closed_form h p :
  decide_reprocess_or_skip (PStr h) p =
  Ok (match extract_previous_hash p with
      | Some x => if String.eqb x "" then REPROCESS
                  else if String.eqb x h then SKIP else REPROCESS
      | None => REPROCESS
      end).
Proof.
  unfold decide_reprocess_or_skip.
  destruct p; try reflexivity;
    destruct (extract_previous_hash _) as [x|]; try reflexivity;
    destruct (String.eqb x ""); try reflexivity;
    destruct (String.eqb x h); reflexivity.
Qed.

Lemma decision_skip_iff_helper h p :
  (decide_reprocess_or_skip (PStr h) p = Ok SKIP
   <-> extract_previous_hash p = Some h /\ h <> "")
  /\ (decide_reprocess_or_skip (PStr h) p = Ok REPROCESS
      <-> ~ (extract_previous_hash p = Some h /\ h <> "")).
Proof.
  rewrite decide_closed_form.
  destruct (extract_previous_hash p) as [x|].
  - destruct (String.eqb_spec x "") as [E0|E0].
    + subst x. split; split; intros H; try discriminate; try reflexivity.
      * destruct H as [E N]. injection E as <-. contradiction.
      * intros [E N]. injection E as <-. contradiction.
    + destruct (String.eqb_spec x h) as [E1|E1].
      * subst x. split; split; intros H; try discriminate; try reflexivity.
        -- now split.
        -- exfalso. apply H. now split.
      * split; split; intros H; try discriminate; try reflexivity.
        -- destruct H as [E _]. injection E as E. contradiction.
        -- intros [E _]. injection E as E. contradiction.
  - split; split; intros H; try discriminate; try reflexivity.
    + destruct H as [E _]. discriminate.
    + intros [E _]. discriminate.
Qed.

(** X19. For a string [h] the decision is SKIP exactly when the previous
    hash taken from the previous state is [h] and [h] is not empty; in
    every other case it is REPROCESS. *)
Theorem decision_skip_iff (h : string) (previous_state : pyvalue) :
  (decide_reprocess_or_skip (PStr h) previous_state = Ok SKIP
   <-> extract_previous_hash previous_state = Some h /\ h <> "")
  /\ (decide_reprocess_or_skip (PStr h) previous_state = Ok REPROCESS
      <-> ~ (extract_previous_hash previous_state = Some h /\ h <> "")).
Proof. apply decision_skip_iff_helper. Qed.

Lemma decision_skip_iff_witness :
  decide_reprocess_or_skip (PStr "deadbeef") (PDict [("hash", PStr "cafe")]) = Ok REPROCESS.
Proof.
  apply (proj2 (proj2 (decision_skip_iff "deadbeef" (PDict [("hash", PStr "cafe")])))).
  intros [E _]. discriminate.
Defined.

(** X20. In a dict the key [hash] comes first: its value is the previous
    hash when it is a non-empty string, and only otherwise (absent, not a
    string, or empty) is the value of [previousHash] used.  So the decision
    for a dict is SKIP exactly when the current hash is not empty and is
    either the value of [hash], or the value of [previousHash] while [hash]
    holds no non-empty string. *)
Theorem decision_on_dict (h : string) (d : dict) :
  decide_reprocess_or_skip (PStr h) (PDict d) = Ok SKIP
  <-> h <> ""
      /\ (dict_get "hash" d = Some (PStr h)
          \/ ((forall x, dict_get "hash" d = Some (PStr x) -> x = "")
              /\ dict_get "previousHash" d = Some (PStr h))).
Proof.
  rewrite (proj1 (decision_skip_iff_helper h (PDict d))).
  cbn [extract_previous_hash]. split.
  - intros [E N]. split; [exact N|].
    destruct (dict_get "hash" d) as [[ | |x| | ]|] eqn:G;
      try (right; split; [intros y Hy; discriminate|];
           destruct (dict_get "previousHash" d) as [[ | |y| | ]|]; try discriminate;
           now injection E as ->).
    destruct (String.eqb_spec x "").
    + subst x. right. split; [intros y Hy; now injection Hy as <-|].
      destruct (dict_get "previousHash" d) as [[ | |y| | ]|]; try discriminate.
      now injection E as ->.
    + left. now injection E as ->.
  - intros [N [G|[G P]]]; split; try exact N.
    + rewrite G. destruct (String.eqb_spec h ""); [contradiction | reflexivity].
    + destruct (dict_get "hash" d) as [[ | |x| | ]|]; try (now rewrite P).
      rewrite (G x eq_refl). cbn. now rewrite P.
Qed.

Lemma decision_on_dict_witness :
  decide_reprocess_or_skip (PStr "deadbeef")
    (PDict [("hash", PInt 7); ("previousHash", PStr "deadbeef")]) = Ok SKIP.
Proof.
  apply (proj2 (decision_on_dict "deadbeef"
                  [("hash", PInt 7); ("previousHash", PStr "deadbeef")])).
  split; [discriminate|]. right. split; [|reflexivity].
  intros x H. discriminate.
Defined.

(** ** The normalized record *)

Lemma material_not_volatile k : In k MATERIAL_FIELDS -> is_volatile_field k = false.
Proof.
  unfold MATERIAL_FIELDS. cbn [In]. intros H.
  repeat (destruct H as [<-|H]; [reflexivity|]). contradiction.
Qed.

Lemma first_seen_admissible : set_order_admissible (fun l => first_seen l []).
Proof.
  intros l. destruct (first_seen_spec l []) as [ND E]. split; [exact ND|].
  intros x. rewrite E. cbn. tauto.
Qed.

Lemma material_iter_NoDup material_iter :
  Permutation material_iter MATERIAL_FIELDS -> NoDup material_iter.
Proof.
  intros P. apply (Permutation_NoDup (Permutation_sym P)). apply MATERIAL_FIELDS_NoDup.
Qed.

Lemma dict_mem_iff_get k d : dict_mem k d = true <-> exists v, dict_get k d = Some v.
Proof.
  unfold dict_mem. destruct (dict_get k d) as [v|]; split; try discriminate.
  - intros _. now exists v.
  - reflexivity.
  - intros [v H]. discriminate.
Qed.

Lemma entries_keys_incl set_iter fields r k :
  In k (dict_keys (entries set_iter fields r)) -> In k fields.
Proof.
  unfold dict_keys, entries. induction fields as [|f tl IH]; cbn [flat_map]; [tauto|].
  rewrite map_app, in_app_iff. intros [H|H]; [left | right; now apply IH].
  unfold field_entry in H.
  destruct (field_contribution set_iter f r) as [[v|e]|]; cbn in H; tauto.
Qed.

Lemma entries_keys_NoDup set_iter fields r :
  NoDup fields -> NoDup (dict_keys (entries set_iter fields r)).
Proof.
  induction 1 as [|f tl Nf ND IH]; [constructor|].
  unfold dict_keys, entries in *. cbn [flat_map]. rewrite map_app.
  unfold field_entry at 1.
  destruct (field_contribution set_iter f r) as [[v|e]|]; cbn [map app]; try exact IH.
  constructor; [|exact IH].
  intros I. apply Nf. now apply (entries_keys_incl set_iter tl r f).
Qed.

Lemma normalize_fields_raise set_iter fields r :
  forall acc e,
    normalize_fields set_iter fields r acc = Raise e ->
    exists g, In g fields /\ field_contribution set_iter g r = Some (Raise e).
Proof.
  induction fields as [|f tl IH]; intros acc e H; [discriminate|].
  rewrite normalize_fields_cons in H.
  destruct (field_contribution set_iter f r) as [[v|e']|] eqn:C; cbn [bind] in H.
  - destruct (IH _ _ H) as (g & I & Cg). exists g. split; [now right | exact Cg].
  - injection H as ->. exists f. split; [now left | exact C].
  - destruct (IH _ _ H) as (g & I & Cg). exists g. split; [now right | exact Cg].
Qed.

Lemma normalize_fields_ok_no_raise set_iter fields r :
  forall acc res,
    normalize_fields set_iter fields r acc = Ok res ->
    forall g e, In g fields -> field_contribution set_iter g r <> Some (Raise e).
Proof.
  induction fields as [|f tl IH]; intros acc res H g e I; [contradiction|].
  rewrite normalize_fields_cons in H.
  destruct I as [->|I].
  - destruct (field_contribution set_iter g r) as [[v|e']|]; cbn [bind] in H;
      discriminate.
  - destruct (field_contribution set_iter f r) as [[v|e']|]; cbn [bind] in H;
      try discriminate; now apply (IH _ _ H).
Qed.

Lemma normalize_field_not_none set_iter f v0 v :
  v0 <> PNone -> normalize_field set_iter f v0 = Ok v -> v <> PNone.
Proof.
  intros N0. unfold normalize_field.
  destruct (String.eqb f "tags").
  - unfold _normalize_tags. destruct v0 as [ | | |l| ]; try discriminate.
    destruct (check_tags l) as [ss|]; cbn [bind]; [|discriminate].
    intros H. injection H as <-. discriminate.
  - destruct (String.eqb f "relationships");
      [apply (normalize_items_not_none "id")|].
    destruct (String.eqb f "columns");
      [apply (normalize_items_not_none "name")|].
    intros H. now injection H as <-.
Qed.

Lemma field_contribution_inv set_iter f r c :
  field_contribution set_iter f r = Some c ->
  exists v0, dict_get f r = Some v0 /\ v0 <> PNone /\ c = normalize_field set_iter f v0.
Proof.
  unfold field_contribution. destruct (dict_get f r) as [v0|]; [|discriminate].
  intros H. exists v0. split; [reflexivity|].
  destruct v0; try discriminate; injection H as <-; split; try reflexivity; discriminate.
Qed.

Lemma field_contribution_some set_iter f r v0 :
  dict_get f r = Some v0 -> v0 <> PNone ->
  field_contribution set_iter f r = Some (normalize_field set_iter f v0).
Proof.
  intros G N. unfold field_contribution. rewrite G.
  destruct v0; try reflexivity. contradiction.
Qed.

Lemma raising_field_is_collection set_iter f r e :
  field_contribution set_iter f r = Some (Raise e) ->
  f = "tags" \/ f = "relationships" \/ f = "columns".
Proof.
  intros C. destruct (field_contribution_inv _ _ _ _ C) as (v0 & _ & _ & E).
  unfold normalize_field in E.
  destruct (String.eqb_spec f "tags"); [now left|].
  destruct (String.eqb_spec f "relationships"); [right; now left|].
  destruct (String.eqb_spec f "columns"); [right; now right|].
  discriminate.
Qed.

Lemma collection_is_material f :
  f = "tags" \/ f = "relationships" \/ f = "columns" -> In f MATERIAL_FIELDS.
Proof. intros [->|[->| ->]]; cbn; tauto. Qed.

(** X21. The record [normalize_asset] returns holds material fields only,
    each once and none of them volatile; it never holds [None]; each of its
    values is the normalized value of the same field of the input; and
    every material field of the input that is not [None] is in it. *)
Theorem normalized_record_shape (set_iter : list string -> list string)
        (material_iter : list string) (asset n : pyvalue) :
  Permutation material_iter MATERIAL_FIELDS ->
  normalize_asset set_iter material_iter asset = Ok n ->
  exists r d,
    asset = PDict r /\ n = PDict d
    /\ NoDup (dict_keys d)
    /\ (forall k, dict_mem k d = true ->
                  In k MATERIAL_FIELDS /\ is_volatile_field k = false)
    /\ (forall k v, dict_get k d = Some v ->
                    v <> PNone
                    /\ exists v0, dict_get k r = Some v0 /\ v0 <> PNone
                                  /\ normalize_field set_iter k v0 = Ok v)
    /\ (forall k v0, In k MATERIAL_FIELDS -> dict_get k r = Some v0 -> v0 <> PNone ->
                     dict_mem k d = true).
Proof.
  intros P H. destruct asset as [ | | | |r]; try discriminate.
  unfold normalize_asset in H.
  destruct (normalize_fields set_iter material_iter r []) as [d|] eqn:E;
    cbn [bind] in H; [|discriminate].
  injection H as <-. exists r, d.
  pose proof (material_iter_NoDup _ P) as ND.
  pose proof (normalize_fields_entries set_iter material_iter r ND [] d
                (fun _ _ => eq_refl) E) as Ed.
  cbn [app] in Ed.
  assert (K : forall k v, dict_get k d = Some v ->
                          In k material_iter
                          /\ field_contribution set_iter k r = Some (Ok v)).
  { intros k v G. rewrite Ed in G.
    destruct (in_dec string_dec k material_iter) as [I|NI].
    - split; [exact I|]. rewrite (entries_get set_iter k _ r ND I) in G.
      destruct (field_contribution set_iter k r) as [[w|e]|]; try discriminate.
      now injection G as ->.
    - rewrite (entries_get_absent set_iter k _ r NI) in G. discriminate. }
  repeat split.
  - rewrite Ed. now apply entries_keys_NoDup.
  - apply dict_mem_iff_get in H. destruct H as [v G]. destruct (K k v G) as [I _].
    now apply (Permutation_in k P).
  - apply dict_mem_iff_get in H. destruct H as [v G]. destruct (K k v G) as [I _].
    apply material_not_volatile. now apply (Permutation_in k P).
  - destruct (K k v H) as [_ C].
    destruct (field_contribution_inv _ _ _ _ C) as (v0 & G0 & N0 & Ev).
    now apply (normalize_field_not_none set_iter k v0).
  - destruct (K k v H) as [_ C].
    destruct (field_contribution_inv _ _ _ _ C) as (v0 & G0 & N0 & Ev).
    exists v0. repeat split; [exact G0 | exact N0 | now symmetry].
  - intros k v0 I G N0.
    assert (I' : In k material_iter) by now apply (Permutation_in k (Permutation_sym P)).
    apply dict_mem_iff_get. rewrite Ed, (entries_get set_iter k _ r ND I').
    rewrite (field_contribution_some set_iter k r v0 G N0).
    destruct (normalize_field set_iter k v0) as [v|e] eqn:Nf; [now exists v|].
    exfalso. apply (normalize_fields_ok_no_raise _ _ _ _ _ E k e I').
    now rewrite (field_contribution_some set_iter k r v0 G N0), Nf.
Qed.

Lemma normalized_record_shape_witness :
  exists r d,
    PDict [("scanId", PStr "s1"); ("tags", PList [PStr "b"; PStr "a"]);
           ("domain", PNone); ("id", PStr "asset-1")] = PDict r
    /\ PDict [("id", PStr "asset-1"); ("tags", PList [PStr "a"; PStr "b"])] = PDict d
    /\ NoDup (dict_keys d)
    /\ (forall k, dict_mem k d = true ->
                  In k MATERIAL_FIELDS /\ is_volatile_field k = false)
    /\ (forall k v, dict_get k d = Some v ->
                    v <> PNone
                    /\ exists v0, dict_get k r = Some v0 /\ v0 <> PNone
                                  /\ normalize_field (fun l => first_seen l []) k v0 = Ok v)
    /\ (forall k v0, In k MATERIAL_FIELDS -> dict_get k r = Some v0 -> v0 <> PNone ->
                     dict_mem k d = true).
Proof.
  apply (normalized_record_shape (fun l => first_seen l []) MATERIAL_FIELDS).
  - apply Permutation_refl.
  - vm_compute. reflexivity.
Defined.

(** X22. On a dict [normalize_asset] raises exactly when one of [tags],
    [relationships] and [columns] is present, not [None], and rejected by
    its normalizer; the exception is the one raised on such a field, and
    [compute_asset_hash] raises it too.  A record whose three collection
    fields are absent or [None] is always normalized. *)
Theorem normalization_fails_on_collections_only
        (set_iter : list string -> list string) (material_iter : list string)
        (json_dumps : pyvalue -> option string) (sha256_hexdigest : string -> string)
        (r : dict) :
  Permutation material_iter MATERIAL_FIELDS ->
  ((exists e, normalize_asset set_iter material_iter (PDict r) = Raise e)
   <-> (exists g v e, (g = "tags" \/ g = "relationships" \/ g = "columns")
                      /\ dict_get g r = Some v /\ v <> PNone
                      /\ normalize_field set_iter g v = Raise e))
  /\ (forall e, normalize_asset set_iter material_iter (PDict r) = Raise e ->
                compute_asset_hash set_iter material_iter json_dumps sha256_hexdigest (PDict r)
                = Raise e
                /\ exists g v, (g = "tags" \/ g = "relationships" \/ g = "columns")
                               /\ dict_get g r = Some v /\ v <> PNone
                               /\ normalize_field set_iter g v = Raise e)
  /\ ((forall g, g = "tags" \/ g = "relationships" \/ g = "columns" ->
                 dict_get g r = None \/ dict_get g r = Some PNone) ->
      exists d, normalize_asset set_iter material_iter (PDict r) = Ok (PDict d)).
Proof.
  intros P.
  assert (R : forall e, normalize_asset set_iter material_iter (PDict r) = Raise e ->
                        exists g v, (g = "tags" \/ g = "relationships" \/ g = "columns")
                                    /\ dict_get g r = Some v /\ v <> PNone
                                    /\ normalize_field set_iter g v = Raise e).
  { intros e H. unfold normalize_asset in H.
    destruct (normalize_fields set_iter material_iter r []) as [d|e'] eqn:E;
      cbn [bind] in H; [discriminate|].
    injection H as ->.
    destruct (normalize_fields_raise _ _ _ _ _ E) as (g & I & C).
    destruct (field_contribution_inv _ _ _ _ C) as (v0 & G0 & N0 & Ev).
    exists g, v0. repeat split; try assumption.
    - now apply (raising_field_is_collection set_iter g r e).
    - now symmetry. }
  assert (S : (exists g v e, (g = "tags" \/ g = "relationships" \/ g = "columns")
                             /\ dict_get g r = Some v /\ v <> PNone
                             /\ normalize_field set_iter g v = Raise e) ->
              exists e, normalize_asset set_iter material_iter (PDict r) = Raise e).
  { intros (g & v & e & Cg & G & N & Nf). unfold normalize_asset.
    destruct (normalize_fields set_iter material_iter r []) as [d|e'] eqn:E;
      cbn [bind]; [|now exists e'].
    exfalso.
    apply (normalize_fields_ok_no_raise _ _ _ _ _ E g e).
    - apply (Permutation_in g (Permutation_sym P)). now apply collection_is_material.
    - now rewrite (field_contribution_some set_iter g r v G N), Nf. }
  split; [|split].
  - split; [|exact S]. intros [e H]. destruct (R e H) as (g & v & Hg).
    now exists g, v, e.
  - intros e H. split; [|now apply R].
    unfold compute_asset_hash. cbn [isinstance_dict negb]. now rewrite H.
  - intros H. destruct (normalize_asset set_iter material_iter (PDict r)) as [n|e] eqn:E.
    + unfold normalize_asset in E.
      destruct (normalize_fields set_iter material_iter r []) as [d|]; cbn [bind] in E;
        [|discriminate].
      injection E as <-. now exists d.
    + exfalso. destruct (R e eq_refl) as (g & v & Cg & G & N & _).
      destruct (H g Cg) as [G'|G']; rewrite G' in G; [discriminate|].
      injection G as <-. now apply N.
Qed.

Lemma normalization_fails_on_collections_only_witness :
  exists e, normalize_asset (fun l => first_seen l []) MATERIAL_FIELDS
              (PDict [("id", PStr "asset-1"); ("tags", PStr "not-a-list")]) = Raise e.
Proof.
  apply (proj2 (proj1 (normalization_fails_on_collections_only
                         (fun l => first_seen l []) MATERIAL_FIELDS
                         (fun _ => Some "") (fun s => s)
                         [("id", PStr "asset-1"); ("tags", PStr "not-a-list")]
                         (Permutation_refl _)))).
  exists "tags", (PStr "not-a-list"), TypeError.
  repeat split; [now left | discriminate].
Defined.

(** ** Tags, relationships and columns on their own *)

Lemma check_tags_raise l e :
  check_tags l = Raise e ->
  e = TypeError /\ exists x, In x l /\ isinstance_str x = false.
Proof.
  induction l as [|v l IH]; cbn [check_tags]; [discriminate|].
  destruct v as [ | |s| | ];
    try (intros H; injection H as <-; split; [reflexivity|];
         eexists; split; [now left | reflexivity]).
  destruct (check_tags l) as [ss|e'] eqn:C; cbn [bind]; [discriminate|].
  intros H. injection H as ->. destruct (IH eq_refl) as [-> (x & I & S)].
  split; [reflexivity|]. exists x. split; [now right | exact S].
Qed.

(** X23. When [_normalize_tags] returns, its argument was a list of
    strings and the result lists the same strings, each once, in
    non-decreasing order of their lower-case forms. *)
Theorem tags_normal_form (set_iter : list string -> list string) (tags v' : pyvalue) :
  set_order_admissible set_iter ->
  _normalize_tags set_iter tags = Ok v' ->
  exists l T,
    tags = PList l /\ v' = PList (map PStr T)
    /\ NoDup T
    /\ Sorted (le_rel tag_le) T
    /\ (forall x, In x l <-> exists s, x = PStr s /\ In s T).
Proof.
  intros A H. unfold _normalize_tags in H.
  destruct tags as [ | | |l| ]; try discriminate.
  destruct (check_tags l) as [ss|] eqn:C; cbn [bind] in H; [|discriminate].
  injection H as <-. fold tag_le.
  exists l, (sorted_by tag_le (set_iter ss)).
  destruct (A ss) as [ND E].
  pose proof (sorted_by_perm _ tag_le (set_iter ss)) as P.
  repeat split.
  - apply (Permutation_NoDup (Permutation_sym P) ND).
  - apply sorted_by_sorted. intros a b. apply String.leb_total.
  - intros I. rewrite (check_tags_inv l ss C) in I. apply in_map_iff in I.
    destruct I as (s & <- & Is). exists s. split; [reflexivity|].
    apply (Permutation_in s (Permutation_sym P)). now apply E.
  - intros (s & -> & Is). rewrite (check_tags_inv l ss C). apply in_map.
    apply E. now apply (Permutation_in s P).
Qed.

Lemma tags_normal_form_witness :
  exists l T,
    PList [PStr "b"; PStr "a"; PStr "b"] = PList l
    /\ PList [PStr "a"; PStr "b"] = PList (map PStr T)
    /\ NoDup T
    /\ Sorted (le_rel tag_le) T
    /\ (forall x, In x l <-> exists s, x = PStr s /\ In s T).
Proof.
  apply (tags_normal_form (fun l => first_seen l [])).
  - exact first_seen_admissible.
  - vm_compute. reflexivity.
Defined.

(** X24. [_normalize_tags] raises exactly when its argument is not a list
    or holds an item that is not a string, and what it raises is
    [TypeError]. *)
Theorem tags_type_error (set_iter : list string -> list string) (tags : pyvalue) :
  ((exists e, _normalize_tags set_iter tags = Raise e)
   <-> (isinstance_list tags = false
        \/ exists l x, tags = PList l /\ In x l /\ isinstance_str x = false))
  /\ (forall e, _normalize_tags set_iter tags = Raise e -> e = TypeError).
Proof.
  unfold _normalize_tags. destruct tags as [ | | |l| ];
    try (split; [split; [intros _; now left | intros _; now exists TypeError]
                | intros e H; now injection H as <-]).
  destruct (check_tags l) as [ss|e'] eqn:C; cbn [bind].
  - split; [split|]; try discriminate.
    + intros [e H]. discriminate.
    + intros [H|(l' & x & E & I & S)]; [discriminate|]. exfalso.
      injection E as <-. rewrite (check_tags_inv l ss C) in I.
      apply in_map_iff in I. destruct I as (s & <- & _). discriminate.
  - destruct (check_tags_raise l e' C) as [-> (x & I & S)]. split; [split|].
    + intros _. right. now exists l, x.
    + intros _. now exists TypeError.
    + intros e H. now injection H as <-.
Qed.

Lemma tags_type_error_witness :
  exists e, _normalize_tags (fun l => first_seen l []) (PList [PStr "a"; PInt 1]) = Raise e.
Proof.
  apply (proj2 (proj1 (tags_type_error (fun l => first_seen l [])
                         (PList [PStr "a"; PInt 1])))).
  right. exists [PStr "a"; PInt 1], (PInt 1). repeat split. cbn. tauto.
Defined.

Lemma unique_by_first field l :
  forall seen u,
    unique_by field l seen = Ok u ->
    forall d, In d u ->
              find (fun x => key_eqb (item_key field x) (item_key field d)) l = Some d.
Proof.
  induction l as [|x l IH]; intros seen u H d I; cbn [unique_by] in H.
  - injection H as <-. contradiction.
  - fold (item_key field x) in H.
    destruct (hashable (item_key field x)) eqn:Hh; cbn [negb] in H; [|discriminate].
    cbn [find].
    destruct (existsb (key_eqb (item_key field x)) seen) eqn:Ex.
    + destruct (unique_by_spec _ _ _ _ H) as (_ & _ & _ & S).
      destruct (key_eqb (item_key field x) (item_key field d)) eqn:K.
      * exfalso. apply key_eqb_eq in K. apply (S d I). rewrite <- K.
        apply existsb_exists in Ex. destruct Ex as (y & Iy & Ey).
        apply key_eqb_eq in Ey. now subst y.
      * now apply (IH seen u).
    + destruct (unique_by field l (item_key field x :: seen)) as [u'|] eqn:U;
        cbn [bind] in H; [|discriminate].
      injection H as <-. destruct I as [<-|I].
      * now rewrite key_eqb_refl.
      * destruct (unique_by_spec _ _ _ _ U) as (_ & _ & _ & S).
        destruct (key_eqb (item_key field x) (item_key field d)) eqn:K.
        -- exfalso. apply key_eqb_eq in K. apply (S d I). now left.
        -- now apply (IH _ u' U).
Qed.

Lemma unique_by_complete field l :
  forall seen u,
    unique_by field l seen = Ok u ->
    forall d, In d l ->
              In (item_key field d) seen
              \/ exists d', In d' u /\ item_key field d' = item_key field d.
Proof.
  induction l as [|x l IH]; intros seen u H d I; [contradiction|].
  cbn [unique_by] in H. fold (item_key field x) in H.
  destruct (hashable (item_key field x)) eqn:Hh; cbn [negb] in H; [|discriminate].
  destruct (existsb (key_eqb (item_key field x)) seen) eqn:Ex.
  - destruct I as [<-|I]; [|now apply (IH seen u)].
    left. apply existsb_exists in Ex. destruct Ex as (y & Iy & Ey).
    apply key_eqb_eq in Ey. now subst y.
  - destruct (unique_by field l (item_key field x :: seen)) as [u'|] eqn:U;
      cbn [bind] in H; [|discriminate].
    injection H as <-. destruct I as [<-|I].
    + right. exists x. split; [now left | reflexivity].
    + destruct (IH _ _ U d I) as [[E|Is]|(d' & Id & E)].
      * right. exists x. split; [now left | exact E].
      * now left.
      * right. exists d'. split; [now right | exact E].
Qed.

(** X25. When [_normalize_relationships] ([field] is [id]) or
    [_normalize_columns] ([field] is [name]) returns, its argument was a
    list of dicts; the result holds items of that list only, all with the
    field, no two with the same identifier, in non-decreasing order of
    identifier; the item kept for an identifier is the first of the list
    that has it; and every identifier of the list is kept. *)
Theorem items_normal_form (field : string) (v v' : pyvalue) :
  normalize_items field v = Ok v' ->
  exists l s,
    v = PList (map PDict l) /\ v' = PList (map PDict s)
    /\ NoDup (map (item_key field) s)
    /\ Sorted (le_rel (item_le field)) s
    /\ (forall d, In d s ->
                  In d l /\ dict_mem field d = true
                  /\ find (fun x => key_eqb (item_key field x) (item_key field d)) l
                     = Some d)
    /\ (forall d, In d l ->
                  exists d', In d' s /\ item_key field d' = item_key field d).
Proof.
  unfold normalize_items. destruct v as [ | | |l| ]; try discriminate.
  destruct (check_items field l) as [ds|] eqn:C; cbn [bind]; [|discriminate].
  destruct (unique_by field ds []) as [u|] eqn:U; cbn [bind]; [|discriminate].
  unfold sorted_by_field.
  destruct (keys_comparable (map (fun d => get_default field d PNone) u)) eqn:K;
    cbn [bind]; [|discriminate].
  intros H. injection H as <-.
  change (fun a b : dict => key_leb (get_default field a PNone) (get_default field b PNone))
    with (item_le field).
  pose proof (sorted_by_perm _ (item_le field) u) as P.
  destruct (check_items_ok _ _ _ C) as [-> Fm].
  destruct (unique_by_spec _ _ _ _ U) as (I & Fh & N & _).
  exists ds, (sorted_by (item_le field) u). repeat split.
  - apply (Permutation_NoDup (l := map (item_key field) u)); [|exact N].
    apply Permutation_map. now apply Permutation_sym.
  - apply sorted_by_sorted. intros a b. apply key_leb_total.
  - apply I. now apply (Permutation_in d P).
  - rewrite Forall_forall in Fm. apply Fm, I. now apply (Permutation_in d P).
  - apply (unique_by_first field ds [] u U). now apply (Permutation_in d P).
  - intros d Id. destruct (unique_by_complete field ds [] u U d Id) as [[]|(d' & Id' & E)].
    exists d'. split; [|exact E]. now apply (Permutation_in d' (Permutation_sym P)).
Qed.

Lemma items_normal_form_witness :
  exists l s,
    PList [PDict [("id", PStr "r2")]; PDict [("id", PStr "r1"); ("type", PStr "a")];
           PDict [("id", PStr "r2"); ("type", PStr "b")]] = PList (map PDict l)
    /\ PList [PDict [("id", PStr "r1"); ("type", PStr "a")]; PDict [("id", PStr "r2")]]
       = PList (map PDict s)
    /\ NoDup (map (item_key "id") s)
    /\ Sorted (le_rel (item_le "id")) s
    /\ (forall d, In d s ->
                  In d l /\ dict_mem "id" d = true
                  /\ find (fun x => key_eqb (item_key "id" x) (item_key "id" d)) l
                     = Some d)
    /\ (forall d, In d l ->
                  exists d', In d' s /\ item_key "id" d' = item_key "id" d).
Proof.
  apply (items_normal_form "id"). vm_compute. reflexivity.
Defined.

Lemma check_items_app field good x rest :
  Forall (fun d => dict_mem field d = true) good ->
  check_items field (map PDict good ++ x :: rest)
  = ds <- check_items field (x :: rest) ;; Ok (good ++ ds).
Proof.
  remember (x :: rest) as tl eqn:Etl. clear Etl.
  induction 1 as [|d good M F IH]; cbn [map app].
  - destruct (check_items field tl); reflexivity.
  - cbn [check_items]. rewrite M, IH.
    destruct (check_items field tl); reflexivity.
Qed.

Lemma check_items_value_error field l :
  check_items field l = Raise ValueError ->
  exists d, In (PDict d) l /\ dict_mem field d = false.
Proof.
  induction l as [|v l IH]; cbn [check_items]; [discriminate|].
  destruct v as [ | | | |d]; try discriminate.
  destruct (dict_mem field d) eqn:M.
  - destruct (check_items field l) as [ds|e]; cbn [bind]; [discriminate|].
    intros H. injection H as ->. destruct (IH eq_refl) as (d' & I & M').
    exists d'. split; [now right | exact M'].
  - intros _. exists d. split; [now left | exact M].
Qed.

Lemma unique_by_raise field l :
  forall seen e, unique_by field l seen = Raise e -> e = TypeError.
Proof.
  induction l as [|d l IH]; intros seen e; cbn [unique_by]; [discriminate|].
  destruct (negb (hashable _)); [intros H; now injection H as <-|].
  destruct (existsb _ seen); [apply IH|].
  destruct (unique_by field l _) eqn:U; cbn [bind]; [discriminate|].
  intros H. injection H as ->. now apply (IH _ _ U).
Qed.

(** X26. The errors of [_normalize_relationships] and
    [_normalize_columns].  An argument that is not a list raises
    [TypeError].  In a list, the first item that is not a dict having the
    field decides: [TypeError] when it is not a dict, [ValueError] when it
    is a dict without the field.  [ValueError] is raised in no other
    case. *)
Theorem items_first_defect_decides (field : string) (good : list dict) (x : pyvalue)
        (rest : list pyvalue) :
  Forall (fun d => dict_mem field d = true) good ->
  (isinstance_dict x = false ->
   normalize_items field (PList (map PDict good ++ x :: rest)) = Raise TypeError)
  /\ (forall d, x = PDict d -> dict_mem field d = false ->
                normalize_items field (PList (map PDict good ++ x :: rest))
                = Raise ValueError)
  /\ (forall v, isinstance_list v = false -> normalize_items field v = Raise TypeError)
  /\ (forall v, normalize_items field v = Raise ValueError ->
                exists l d, v = PList l /\ In (PDict d) l /\ dict_mem field d = false).
Proof.
  intros F. repeat split.
  - intros H. unfold normalize_items. rewrite (check_items_app field good x rest F).
    destruct x; try discriminate; reflexivity.
  - intros d -> M. unfold normalize_items. rewrite (check_items_app field good _ rest F).
    cbn [check_items]. now rewrite M.
  - intros v H. destruct v; try discriminate; reflexivity.
  - intros v H. unfold normalize_items in H. destruct v as [ | | |l| ]; try discriminate.
    destruct (check_items field l) as [ds|e] eqn:C; cbn [bind] in H.
    + exfalso. destruct (unique_by field ds []) as [u|e] eqn:U; cbn [bind] in H.
      * unfold sorted_by_field in H.
        destruct (keys_comparable _); cbn [bind] in H; discriminate.
      * injection H as ->. now apply (unique_by_raise field ds [] ValueError) in U.
    + injection H as ->. destruct (check_items_value_error field l C) as (d & I & M).
      now exists l, d.
Qed.

Lemma items_first_defect_decides_witness :
  normalize_items "name"
    (PList (map PDict [[("name", PStr "c1")]] ++ PDict [("type", PStr "int")] :: [PInt 3]))
  = Raise ValueError.
Proof.
  destruct (items_first_defect_decides "name" [[("name", PStr "c1")]]
              (PDict [("type", PStr "int")]) [PInt 3]) as (_ & W & _).
  - repeat constructor.
  - apply (W [("type", PStr "int")]); reflexivity.
Defined.

(** ** Hashing and comparing *)

Lemma normalize_asset_dict set_iter material_iter asset n :
  normalize_asset set_iter material_iter asset = Ok n ->
  isinstance_dict asset = true /\ isinstance_dict n = true.
Proof.
  unfold normalize_asset. destruct asset as [ | | | |r]; try discriminate.
  destruct (normalize_fields set_iter material_iter r []); cbn [bind]; [|discriminate].
  intros H. injection H as <-. now split.
Qed.

(** X27. The record [get_asset_hash_components] returns is a fixed point
    of the normalizer and has the digest of the asset it was taken from,
    provided no two different tags of the asset are equal up to letter
    case. *)
Theorem hash_of_components (set_iter : list string -> list string)
        (material_iter : list string) (json_dumps : pyvalue -> option string)
        (sha256_hexdigest : string -> string) (r : dict) (n : pyvalue) :
  set_order_admissible set_iter ->
  Permutation material_iter MATERIAL_FIELDS ->
  tags_case_distinct r ->
  get_asset_hash_components set_iter material_iter (PDict r) = Ok n ->
  get_asset_hash_components set_iter material_iter n = Ok n
  /\ compute_asset_hash set_iter material_iter json_dumps sha256_hexdigest n
     = compute_asset_hash set_iter material_iter json_dumps sha256_hexdigest (PDict r).
Proof.
  unfold get_asset_hash_components. intros A P TD H.
  pose proof (normalize_asset_idempotent set_iter A material_iter P r n TD H) as I.
  split; [exact I|].
  destruct (normalize_asset_dict _ _ _ _ H) as [_ Dn].
  unfold compute_asset_hash. rewrite Dn. cbn [isinstance_dict negb]. now rewrite I, H.
Qed.

Lemma hash_of_components_witness :
  get_asset_hash_components (fun l => first_seen l []) MATERIAL_FIELDS
    (PDict [("id", PStr "asset-1"); ("tags", PList [PStr "a"; PStr "b"])])
  = Ok (PDict [("id", PStr "asset-1"); ("tags", PList [PStr "a"; PStr "b"])])
  /\ compute_asset_hash (fun l => first_seen l []) MATERIAL_FIELDS (fun _ => Some "") (fun s => s)
       (PDict [("id", PStr "asset-1"); ("tags", PList [PStr "a"; PStr "b"])])
     = compute_asset_hash (fun l => first_seen l []) MATERIAL_FIELDS (fun _ => Some "")
         (fun s => s)
         (PDict [("scanId", PStr "s"); ("tags", PList [PStr "b"; PStr "a"]);
                 ("id", PStr "asset-1")]).
Proof.
  apply (hash_of_components (fun l => first_seen l []) MATERIAL_FIELDS (fun _ => Some "")
           (fun s => s)
           [("scanId", PStr "s"); ("tags", PList [PStr "b"; PStr "a"]);
            ("id", PStr "asset-1")]).
  - exact first_seen_admissible.
  - apply Permutation_refl.
  - intros l G a b Ia Ib. injection G as <-. cbn in Ia, Ib.
    destruct Ia as [Ea|[Ea|[]]], Ib as [Eb|[Eb|[]]];
      injection Ea as <-; injection Eb as <-; intros E; try reflexivity;
      vm_compute in E; discriminate.
  - vm_compute. reflexivity.
Defined.

Lemma sorted_tags_eq set_iter t1 t2 :
  set_order_admissible set_iter ->
  (forall s, In s t1 <-> In s t2) ->
  (forall a b, In a t1 -> In b t1 -> lower a = lower b -> a = b) ->
  sorted_by tag_le (set_iter t1) = sorted_by tag_le (set_iter t2).
Proof.
  intros A S Inj.
  destruct (A t1) as [N1 E1]. destruct (A t2) as [N2 E2].
  assert (total : forall a b, tag_le a b = true \/ tag_le b a = true)
    by (intros a b; apply String.leb_total).
  assert (trans : forall a b c, tag_le a b = true -> tag_le b c = true -> tag_le a c = true)
    by (intros a b c; apply string_leb_trans).
  apply (sorted_perm_unique string tag_le trans).
  - now apply sorted_by_sorted.
  - now apply sorted_by_sorted.
  - rewrite !sorted_by_perm. apply NoDup_Permutation; [exact N1 | exact N2 |].
    intros x. rewrite E1, E2. apply S.
  - intros a b Ia Ib L1 L2.
    apply Inj.
    + apply E1. now apply (Permutation_in _ (sorted_by_perm _ tag_le (set_iter t1))).
    + apply E1. now apply (Permutation_in _ (sorted_by_perm _ tag_le (set_iter t1))).
    + now apply String.leb_antisym.
Qed.

(** X28. Neither the order of the tags nor their repetition reaches the
    digest: two records that agree on every other field and whose tags are
    the same strings, in any order and any number of times, get the same
    result from [compute_asset_hash], provided no two different tags are
    equal up to letter case. *)
Theorem tag_order_irrelevant (set_iter : list string -> list string)
        (material_iter : list string) (json_dumps : pyvalue -> option string)
        (sha256_hexdigest : string -> string) (r1 r2 : dict) (t1 t2 : list string) :
  set_order_admissible set_iter ->
  dict_get "tags" r1 = Some (PList (map PStr t1)) ->
  dict_get "tags" r2 = Some (PList (map PStr t2)) ->
  (forall s, In s t1 <-> In s t2) ->
  (forall a b, In a t1 -> In b t1 -> lower a = lower b -> a = b) ->
  (forall f, f <> "tags" -> dict_get f r1 = dict_get f r2) ->
  compute_asset_hash set_iter material_iter json_dumps sha256_hexdigest (PDict r1)
  = compute_asset_hash set_iter material_iter json_dumps sha256_hexdigest (PDict r2).
Proof.
  intros A G1 G2 S Inj O. apply compute_asset_hash_ext. intros f _.
  unfold field_contribution. destruct (String.eqb_spec f "tags") as [->|N].
  - rewrite G1, G2. unfold normalize_field. cbn [String.eqb Ascii.eqb Bool.eqb].
    unfold _normalize_tags. rewrite !check_tags_map. cbn [bind].
    fold tag_le. now rewrite (sorted_tags_eq set_iter t1 t2 A S Inj).
  - now rewrite (O f N).
Qed.

Lemma tag_order_irrelevant_witness :
  compute_asset_hash last_seen_first MATERIAL_FIELDS (fun _ => Some "") (fun s => s)
    (PDict [("id", PStr "asset-1"); ("tags", PList (map PStr ["pii"; "Finance"; "pii"]))])
  = compute_asset_hash last_seen_first MATERIAL_FIELDS (fun _ => Some "") (fun s => s)
      (PDict [("tags", PList (map PStr ["Finance"; "pii"])); ("id", PStr "asset-1")]).
Proof.
  apply (tag_order_irrelevant last_seen_first MATERIAL_FIELDS (fun _ => Some "") (fun s => s)
           _ _ ["pii"; "Finance"; "pii"] ["Finance"; "pii"]).
  - exact last_seen_first_admissible.
  - reflexivity.
  - reflexivity.
  - intros s. cbn. tauto.
  - intros a b Ia Ib. cbn in Ia, Ib.
    destruct Ia as [<-|[<-|[<-|[]]]], Ib as [<-|[<-|[<-|[]]]]; intros E;
      try reflexivity; vm_compute in E; discriminate.
  - intros f N. cbn [dict_get].
    destruct (String.eqb_spec "tags" f) as [E|_]; [now subst|].
    destruct (String.eqb "id" f); reflexivity.
Defined.

(** X29. [are_assets_equal_by_hash] answers [True] for an asset compared
    with itself whenever the asset can be hashed, gives the same answer
    when its arguments are swapped, answers [True] for two records that
    agree on the material fields, and raises what hashing the first
    argument raises, [TypeError] when that is not a dict. *)
Theorem assets_equal_by_hash_laws (set_iter : list string -> list string)
        (material_iter : list string) (json_dumps : pyvalue -> option string)
        (sha256_hexdigest : string -> string) (a b : pyvalue) :
  (forall h, compute_asset_hash set_iter material_iter json_dumps sha256_hexdigest a = Ok h ->
             are_assets_equal_by_hash set_iter material_iter json_dumps sha256_hexdigest a a
             = Ok true)
  /\ (forall x,
        are_assets_equal_by_hash set_iter material_iter json_dumps sha256_hexdigest a b = Ok x ->
        are_assets_equal_by_hash set_iter material_iter json_dumps sha256_hexdigest b a = Ok x)
  /\ (forall r1 r2 h,
        Permutation material_iter MATERIAL_FIELDS ->
        a = PDict r1 -> b = PDict r2 ->
        (forall f, In f MATERIAL_FIELDS -> dict_get f r1 = dict_get f r2) ->
        compute_asset_hash set_iter material_iter json_dumps sha256_hexdigest a = Ok h ->
        are_assets_equal_by_hash set_iter material_iter json_dumps sha256_hexdigest a b
        = Ok true)
  /\ (forall e,
        compute_asset_hash set_iter material_iter json_dumps sha256_hexdigest a = Raise e ->
        are_assets_equal_by_hash set_iter material_iter json_dumps sha256_hexdigest a b
        = Raise e)
  /\ (isinstance_dict a = false ->
      are_assets_equal_by_hash set_iter material_iter json_dumps sha256_hexdigest a b
      = Raise TypeError).
Proof.
  unfold are_assets_equal_by_hash. repeat split.
  - intros h H. rewrite H. cbn [bind]. now rewrite String.eqb_refl.
  - intros x.
    destruct (compute_asset_hash set_iter material_iter json_dumps sha256_hexdigest a);
      cbn [bind]; [|discriminate].
    destruct (compute_asset_hash set_iter material_iter json_dumps sha256_hexdigest b);
      cbn [bind]; [|discriminate].
    now rewrite String.eqb_sym.
  - intros r1 r2 h P -> -> Ag H.
    rewrite <- (compute_asset_hash_ext set_iter material_iter json_dumps sha256_hexdigest
                  r1 r2).
    + rewrite H. cbn [bind]. now rewrite String.eqb_refl.
    + intros f I. unfold field_contribution. rewrite (Ag f); [reflexivity|].
      now apply (Permutation_in f P).
  - intros e H. now rewrite H.
  - intros H. unfold compute_asset_hash at 1. now rewrite H.
Qed.

Lemma assets_equal_by_hash_laws_witness :
  are_assets_equal_by_hash (fun l => first_seen l []) MATERIAL_FIELDS (fun _ => Some "")
    (fun s => s)
    (PDict [("id", PStr "asset-1"); ("scanId", PStr "s1")])
    (PDict [("id", PStr "asset-1"); ("scanId", PStr "s2")])
  = Ok true.
Proof.
  destruct (assets_equal_by_hash_laws (fun l => first_seen l []) MATERIAL_FIELDS
              (fun _ => Some "") (fun s => s)
              (PDict [("id", PStr "asset-1"); ("scanId", PStr "s1")])
              (PDict [("id", PStr "asset-1"); ("scanId", PStr "s2")]))
    as (_ & _ & W & _).
  apply (W [("id", PStr "asset-1"); ("scanId", PStr "s1")]
           [("id", PStr "asset-1"); ("scanId", PStr "s2")] "").
  - apply Permutation_refl.
  - reflexivity.
  - reflexivity.
  - intros f I. cbn in I.
    repeat (destruct I as [<-|I]; [reflexivity|]). contradiction.
  - vm_compute. reflexivity.
Defined.

(** ** The digest and the material fields (C9) *)

Section DigestLaw.

Variable set_iter : list string -> list string.
Variable material_iter : list string.
Variable json_dumps : pyvalue -> option string.
Variable sha256_hexdigest : string -> string.
Hypothesis material_iter_perm : Permutation material_iter MATERIAL_FIELDS.

Lemma normalized_determines_contributions r1 r2 d :
  normalize_fields set_iter material_iter r1 [] = Ok d ->
  normalize_fields set_iter material_iter r2 [] = Ok d ->
  forall f, In f MATERIAL_FIELDS ->
            field_contribution set_iter f r1 = field_contribution set_iter f r2.
Proof.
  intros E1 E2 f I.
  pose proof (material_iter_NoDup _ material_iter_perm) as ND.
  assert (I' : In f material_iter)
    by now apply (Permutation_in f (Permutation_sym material_iter_perm)).
  pose proof (normalize_fields_entries set_iter material_iter r1 ND [] d
                (fun _ _ => eq_refl) E1) as D1.
  pose proof (normalize_fields_entries set_iter material_iter r2 ND [] d
                (fun _ _ => eq_refl) E2) as D2.
  cbn [app] in D1, D2.
  pose proof (entries_get set_iter f material_iter r1 ND I') as G1.
  pose proof (entries_get set_iter f material_iter r2 ND I') as G2.
  rewrite <- D1 in G1. rewrite <- D2, G1 in G2.
  pose proof (normalize_fields_ok_no_raise _ _ _ _ _ E1 f) as N1.
  pose proof (normalize_fields_ok_no_raise _ _ _ _ _ E2 f) as N2.
  destruct (field_contribution set_iter f r1) as [[v1|e1]|];
    destruct (field_contribution set_iter f r2) as [[v2|e2]|];
    try discriminate; try reflexivity;
    try (exfalso; now apply (N1 e1 I')); try (exfalso; now apply (N2 e2 I')).
  now injection G2 as ->.
Qed.

Lemma compute_asset_hash_ok r h :
  compute_asset_hash set_iter material_iter json_dumps sha256_hexdigest (PDict r) = Ok h ->
  exists d s, normalize_fields set_iter material_iter r [] = Ok d
              /\ json_dumps (PDict d) = Some s /\ h = sha256_hexdigest s.
Proof.
  unfold compute_asset_hash, normalize_asset, _to_canonical_json.
  cbn [isinstance_dict negb].
  destruct (normalize_fields set_iter material_iter r []) as [d|]; cbn [bind];
    [|discriminate].
  destruct (json_dumps (PDict d)) as [s|] eqn:J; cbn [bind]; [|discriminate].
  intros H. injection H as <-. exists d, s. repeat split. exact J.
Qed.

Lemma equal_digests_equal_contributions r1 r2 n1 n2 h :
  normalize_asset set_iter material_iter (PDict r1) = Ok n1 ->
  normalize_asset set_iter material_iter (PDict r2) = Ok n2 ->
  compute_asset_hash set_iter material_iter json_dumps sha256_hexdigest (PDict r1) = Ok h ->
  compute_asset_hash set_iter material_iter json_dumps sha256_hexdigest (PDict r2) = Ok h ->
  no_collision json_dumps sha256_hexdigest n1 n2 ->
  forall f, In f MATERIAL_FIELDS ->
            field_contribution set_iter f r1 = field_contribution set_iter f r2.
Proof.
  intros N1 N2 H1 H2 [Cj Cs].
  destruct (compute_asset_hash_ok r1 h H1) as (d1 & s1 & E1 & J1 & S1).
  destruct (compute_asset_hash_ok r2 h H2) as (d2 & s2 & E2 & J2 & S2).
  unfold normalize_asset in N1, N2. rewrite E1 in N1. rewrite E2 in N2.
  cbn [bind] in N1, N2. injection N1 as <-. injection N2 as <-.
  assert (Es : s1 = s2) by (apply (Cs s1 s2 J1 J2); congruence).
  subst s2. pose proof (Cj s1 J1 J2) as Ed. injection Ed as <-.
  now apply (normalized_determines_contributions r1 r2 d1).
Qed.

(** C9, as the code has it.  The result of [compute_asset_hash] depends on
    the material fields of the record only, and on each of them through
    its normalized contribution only (nothing for an absent field or
    [None]; else the normalized value).  Two records with the same entries
    in a different insertion order, two records with the same material
    fields whatever their other fields, and two records whose material
    fields contribute alike get the same result: the same digest, or the
    same exception.  And when two records are both hashed, and the
    serializer and the digest function keep their normalized records
    apart, the digests are equal only if every material field contributes
    alike; so a scalar material field that is given another value, set to
    [None] or removed changes the digest. *)
Theorem hash_depends_on_material_fields (r1 r2 : dict) :
  (NoDup (dict_keys r1) -> Permutation r1 r2 ->
   compute_asset_hash set_iter material_iter json_dumps sha256_hexdigest (PDict r1)
   = compute_asset_hash set_iter material_iter json_dumps sha256_hexdigest (PDict r2))
  /\ ((forall f, In f MATERIAL_FIELDS -> dict_get f r1 = dict_get f r2) ->
      compute_asset_hash set_iter material_iter json_dumps sha256_hexdigest (PDict r1)
      = compute_asset_hash set_iter material_iter json_dumps sha256_hexdigest (PDict r2))
  /\ ((forall f, In f MATERIAL_FIELDS ->
                 field_contribution set_iter f r1 = field_contribution set_iter f r2) ->
      compute_asset_hash set_iter material_iter json_dumps sha256_hexdigest (PDict r1)
      = compute_asset_hash set_iter material_iter json_dumps sha256_hexdigest (PDict r2))
  /\ (forall n1 n2 h1 h2,
        normalize_asset set_iter material_iter (PDict r1) = Ok n1 ->
        normalize_asset set_iter material_iter (PDict r2) = Ok n2 ->
        compute_asset_hash set_iter material_iter json_dumps sha256_hexdigest (PDict r1)
        = Ok h1 ->
        compute_asset_hash set_iter material_iter json_dumps sha256_hexdigest (PDict r2)
        = Ok h2 ->
        no_collision json_dumps sha256_hexdigest n1 n2 ->
        (h1 = h2 <->
         forall f, In f MATERIAL_FIELDS ->
                   field_contribution set_iter f r1 = field_contribution set_iter f r2)
        /\ (forall f v1,
              scalar_material f = true ->
              dict_get f r1 = Some v1 -> v1 <> PNone -> dict_get f r2 <> Some v1 ->
              h1 <> h2)).
Proof.
  assert (Ext : (forall f, In f MATERIAL_FIELDS ->
                           field_contribution set_iter f r1
                           = field_contribution set_iter f r2) ->
                compute_asset_hash set_iter material_iter json_dumps sha256_hexdigest
                  (PDict r1)
                = compute_asset_hash set_iter material_iter json_dumps sha256_hexdigest
                    (PDict r2)).
  { intros H. apply compute_asset_hash_ext. intros f I. apply H.
    now apply (Permutation_in f material_iter_perm). }
  split; [|split; [|split; [exact Ext|]]].
  - intros N P. apply compute_asset_hash_ext. intros f _.
    unfold field_contribution. now rewrite (dict_get_perm r1 r2 P N f).
  - intros H. apply Ext. intros f I. unfold field_contribution. now rewrite (H f I).
  - intros n1 n2 h1 h2 N1 N2 H1 H2 NC.
    assert (Iff : h1 = h2 ->
                  forall f, In f MATERIAL_FIELDS ->
                            field_contribution set_iter f r1
                            = field_contribution set_iter f r2).
    { intros E. subst h2.
      now apply (equal_digests_equal_contributions r1 r2 n1 n2 h1). }
    split.
    + split; [exact Iff|]. intros H. specialize (Ext H). rewrite H1, H2 in Ext.
      now injection Ext.
    + intros f v1 S G1 Nn G2 E.
      destruct (scalar_material_inv set_iter f S) as [I NF].
      specialize (Iff E f I).
      rewrite (field_contribution_some set_iter f r1 v1 G1 Nn), NF in Iff.
      unfold field_contribution in Iff.
      destruct (dict_get f r2) as [v2|]; [|discriminate].
      destruct v2; try discriminate; rewrite NF in Iff; injection Iff as ->;
        now apply G2.
Qed.

End DigestLaw.

Lemma hash_depends_on_material_fields_witness :
  reference_hash
    (PDict [("id", PStr "asset-1"); ("description", PStr "Sales"); ("scanId", PStr "s1")])
  = Ok ("{" +++ json_str "description" +++ ":" +++ json_str "Sales" +++ ","
            +++ json_str "id" +++ ":" +++ json_str "asset-1" +++ "}")
  /\ reference_hash
       (PDict [("id", PStr "asset-1"); ("description", PStr "Sales"); ("scanId", PStr "s1")])
     = reference_hash
         (PDict [("scanId", PStr "s1"); ("description", PStr "Sales"); ("id", PStr "asset-1")])
  /\ reference_hash
       (PDict [("id", PStr "asset-1"); ("description", PStr "Sales"); ("scanId", PStr "s1")])
     = reference_hash
         (PDict [("id", PStr "asset-1"); ("description", PStr "Sales"); ("scanId", PStr "s2");
                 ("lastUpdated", PStr "2026-01-01")])
  /\ (forall h1 h2,
        reference_hash
          (PDict [("id", PStr "asset-1"); ("description", PStr "Sales");
                  ("scanId", PStr "s1")]) = Ok h1 ->
        reference_hash (PDict [("id", PStr "asset-1"); ("description", PStr "Revenue")])
        = Ok h2 ->
        h1 <> h2).
Proof.
  split; [vm_compute; reflexivity|]. split; [|split].
  - apply (proj1 (hash_depends_on_material_fields
                    (fun l => first_seen l []) MATERIAL_FIELDS
                    (fun v => Some (compact_json v)) (fun s => s)
                    (Permutation_refl _)
                    [("id", PStr "asset-1"); ("description", PStr "Sales"); ("scanId", PStr "s1")]
                    [("scanId", PStr "s1"); ("description", PStr "Sales"); ("id", PStr "asset-1")])).
    + cbn. repeat constructor; cbn; intuition discriminate.
    + apply perm_trans with
        [("description", PStr "Sales"); ("scanId", PStr "s1"); ("id", PStr "asset-1")].
      * apply (Permutation_cons_append
                 [("description", PStr "Sales"); ("scanId", PStr "s1")] ("id", PStr "asset-1")).
      * apply perm_swap.
  - apply (proj1 (proj2 (hash_depends_on_material_fields
                    (fun l => first_seen l []) MATERIAL_FIELDS
                    (fun v => Some (compact_json v)) (fun s => s)
                    (Permutation_refl _)
                    [("id", PStr "asset-1"); ("description", PStr "Sales"); ("scanId", PStr "s1")]
                    [("id", PStr "asset-1"); ("description", PStr "Sales"); ("scanId", PStr "s2");
                     ("lastUpdated", PStr "2026-01-01")]))).
    intros f I. unfold MATERIAL_FIELDS in I. cbn [In] in I.
    repeat (destruct I as [<- | I]; [reflexivity|]). contradiction.
  - intros h1 h2 H1 H2.
    destruct (proj2 (proj2 (proj2 (hash_depends_on_material_fields
                    (fun l => first_seen l []) MATERIAL_FIELDS
                    (fun v => Some (compact_json v)) (fun s => s)
                    (Permutation_refl _)
                    [("id", PStr "asset-1"); ("description", PStr "Sales"); ("scanId", PStr "s1")]
                    [("id", PStr "asset-1"); ("description", PStr "Revenue")])))
                (PDict [("id", PStr "asset-1"); ("description", PStr "Sales")])
                (PDict [("id", PStr "asset-1"); ("description", PStr "Revenue")])
                h1 h2) as [_ W].
    + vm_compute. reflexivity.
    + vm_compute. reflexivity.
    + exact H1.
    + exact H2.
    + split.
      * intros s J1 J2. exfalso. vm_compute in J1, J2. rewrite <- J1 in J2. discriminate J2.
      * intros s1 s2 _ _ E. exact E.
    + apply (W "description" (PStr "Sales")); try reflexivity; discriminate.
Defined.
